(** * winpty unix-adapter: a shallow embedding of [src/unix-adapter/main.cc]

    The command-line codec ([argvToCommandLine]) is pure and comes first.
    The rest of the file is embedded as a program that makes calls on its
    environment: the terminal-mode controller ([setRawTerminalMode],
    [restoreTerminalMode]), the conversion helpers ([heapMbsToWcs],
    [heapWcsToMbs], [wcsToMbs]), the argument parser ([usage],
    [parseArguments]) and [main] with its control loop and shutdown sequence.
    Definitions come first, theorems after them. *)

From Stdlib Require Import ZArith Ascii String Bool Lia List.
Import ListNotations.
Local Open Scope Z_scope.

(** ** Characters and strings

    A [std::string] and a [char *] are lists of [char]s.  The C view of a
    string (what [c_str()] hands to [strchr] and to a [*p != '\0'] loop) ends
    at the first NUL. *)

Definition cstr := list ascii.

Definition NUL : ascii := "000"%char.
Definition TAB : ascii := "009"%char.
Definition SPACE : ascii := " "%char.
Definition DQUOTE : ascii := "034"%char.
Definition BACKSLASH : ascii := "\"%char.

Definition str (s : string) : cstr := list_ascii_of_string s.

Fixpoint c_str (s : cstr) : cstr :=
  match s with
  | [] => []
  | c :: s' => if Ascii.eqb c NUL then [] else c :: c_str s'
  end.

(** [strchr(arg, ch) != NULL] for a [ch] other than NUL. *)
Definition strchr (arg : cstr) (ch : ascii) : bool :=
  existsb (Ascii.eqb ch) (c_str arg).

(** [strlen(text)], a [size_t]. *)
Definition strlen (text : cstr) : Z := Z.of_nat (length (c_str text)).

(** [result.push_back(ch)] and [result.append(count, ch)]. *)
Definition push_back (result : cstr) (ch : ascii) : cstr := result ++ [ch].
Definition append (result : cstr) (count : Z) (ch : ascii) : cstr :=
  result ++ repeat ch (Z.to_nat count).

(** ** [int] arithmetic

    [bsCount] is an [int].  Signed overflow is undefined behaviour in C++, so
    an [int] operation has a result only when the mathematical value is in
    range; the embedding of code that computes on [int]s returns [option]. *)

Definition INT_MIN : Z := -2147483648.
Definition INT_MAX : Z := 2147483647.

Definition int_val (z : Z) : option Z :=
  if (INT_MIN <=? z) && (z <=? INT_MAX) then Some z else None.

Notation "x <-? e ;; k" :=
  (match e with Some x => k | None => None end)
    (at level 61, e at next level, right associativity, only parsing).

(** ** The command-line codec: [argvToCommandLine] (main.cc, lines 204-239) *)

Module Codec.

(** The inner loop [for (const char *p = arg; *p != '\0'; ++p)], threading
    [result] and [bsCount]. *)
Fixpoint arg_loop (p : cstr) (result : cstr) (bsCount : Z) : option (cstr * Z) :=
  match p with
  | [] => Some (result, bsCount)
  | c :: p' =>
      if Ascii.eqb c NUL then Some (result, bsCount)
      else if Ascii.eqb c BACKSLASH then
        n <-? int_val (bsCount + 1) ;;
        arg_loop p' result n
      else if Ascii.eqb c DQUOTE then
        d <-? int_val (bsCount * 2) ;;
        k <-? int_val (d + 1) ;;
        arg_loop p' (push_back (append result k BACKSLASH) DQUOTE) 0
      else
        arg_loop p' (push_back (append result bsCount BACKSLASH) c) 0
  end.

(** [*arg == '\0'] *)
Definition is_empty (arg : cstr) : bool :=
  match arg with
  | [] => true
  | c :: _ => Ascii.eqb c NUL
  end.

(** One iteration of the outer loop: the body for [argv[argIndex]]. *)
Definition arg_step (argIndex : nat) (arg : cstr) (result : cstr) : option cstr :=
  let result := if (0 <? argIndex)%nat then push_back result SPACE else result in
  let quote := strchr arg SPACE || strchr arg TAB || is_empty arg in
  let result := if quote then push_back result DQUOTE else result in
  st <-? arg_loop arg result 0 ;;
  let '(result, bsCount) := st in
  if quote then
    k <-? int_val (bsCount * 2) ;;
    Some (push_back (append result k BACKSLASH) DQUOTE)
  else
    Some (append result bsCount BACKSLASH).

(** The outer loop [for (argIndex = 0; argIndex < argv.size(); ++argIndex)]. *)
Fixpoint argv_loop (argv : list cstr) (argIndex : nat) (result : cstr) : option cstr :=
  match argv with
  | [] => Some result
  | arg :: rest =>
      result' <-? arg_step argIndex arg result ;;
      argv_loop rest (S argIndex) result'
  end.

Definition argvToCommandLine (argv : list cstr) : option cstr :=
  argv_loop argv 0%nat [].

End Codec.

(** ** The argument splitting the codec targets

    [argvToCommandLine] follows "the escaping convention documented on MSDN
    (e.g. see CommandLineToArgvW documentation)".  That convention, for the
    arguments of a command line:
    - arguments are delimited by white space, which is a space or a tab,
      unless the parser is in "in quotes" mode;
    - [2n] backslashes followed by a quotation mark produce [n] backslashes
      and toggle the "in quotes" mode; the mark is not part of the argument;
    - [2n+1] backslashes followed by a quotation mark produce [n] backslashes
      and a literal quotation mark, and leave the mode as it is;
    - [n] backslashes not followed by a quotation mark produce [n]
      backslashes.

    The parser is the platform's, not this program's; it is written here
    from that documentation.  [split] is the parser over the characters left
    to read; [inQuotes] is the mode, [bs] the length of the run of backslashes
    just read, [cur] the argument being built ([None] between two
    arguments). *)

Module Win32.

Definition started (cur : option cstr) : cstr :=
  match cur with Some a => a | None => [] end.

Fixpoint split (s : cstr) (inQuotes : bool) (bs : nat) (cur : option cstr)
  : list cstr :=
  match s with
  | [] =>
      match cur with
      | None => []
      | Some a => [a ++ repeat BACKSLASH bs]
      end
  | c :: s' =>
      if Ascii.eqb c BACKSLASH then
        split s' inQuotes (S bs) (Some (started cur))
      else if Ascii.eqb c DQUOTE then
        let a := started cur ++ repeat BACKSLASH (Nat.div2 bs) in
        if Nat.even bs
        then split s' (negb inQuotes) 0 (Some a)
        else split s' inQuotes 0 (Some (a ++ [DQUOTE]))
      else if (Ascii.eqb c SPACE || Ascii.eqb c TAB) && negb inQuotes then
        match cur with
        | None => split s' false 0 None
        | Some a => (a ++ repeat BACKSLASH bs) :: split s' false 0 None
        end
      else
        split s' inQuotes 0 (Some (started cur ++ repeat BACKSLASH bs ++ [c]))
  end.

(** The arguments of a command line. *)
Definition parse_args (cmdline : cstr) : list cstr := split cmdline false 0 None.

(** A whole command line starts with the program name, which has a rule of
    its own: a name that starts with a quotation mark ends at the next one,
    any other name ends at the first space or tab; backslashes are literal.
    An empty command line stands for the path [exe] of the executable. *)
Fixpoint quoted_name (s : cstr) (name : cstr) : cstr * cstr :=
  match s with
  | [] => (name, [])
  | c :: s' =>
      if Ascii.eqb c DQUOTE then (name, s') else quoted_name s' (name ++ [c])
  end.

Fixpoint bare_name (s : cstr) (name : cstr) : cstr * cstr :=
  match s with
  | [] => (name, [])
  | c :: s' =>
      if Ascii.eqb c SPACE || Ascii.eqb c TAB then (name, s)
      else bare_name s' (name ++ [c])
  end.

Definition CommandLineToArgv (exe : cstr) (cmdline : cstr) : list cstr :=
  match cmdline with
  | [] => [exe]
  | c :: s' =>
      let '(name, rest) :=
        if Ascii.eqb c DQUOTE then quoted_name s' [] else bare_name cmdline [] in
      name :: parse_args rest
  end.

End Win32.

(** ** The encoding as section 4.3 of the specification words it

    An argument is read as a sequence of runs: each run of backslashes is
    followed by one character that is not a backslash, and a last run ends
    the argument. *)

Module Wording.

Fixpoint runs (a : cstr) (n : nat) : list (nat * ascii) * nat :=
  match a with
  | [] => ([], n)
  | c :: a' =>
      if Ascii.eqb c BACKSLASH then runs a' (S n)
      else let '(ps, t) := runs a' 0%nat in ((n, c) :: ps, t)
  end.

(** A run followed by a quote is doubled and the quote escaped; a run
    followed by anything else is copied. *)
Definition encode_run (p : nat * ascii) : cstr :=
  let '(n, c) := p in
  if Ascii.eqb c DQUOTE
  then repeat BACKSLASH (2 * n) ++ [BACKSLASH; DQUOTE]
  else repeat BACKSLASH n ++ [c].

(** Quote an argument if it contains a space, a tab, or is empty. *)
Definition needs_quote (a : cstr) : bool :=
  existsb (Ascii.eqb SPACE) a || existsb (Ascii.eqb TAB) a
  || match a with [] => true | _ => false end.

Definition encode_arg (a : cstr) : cstr :=
  let '(ps, t) := runs a 0%nat in
  if needs_quote a
  then [DQUOTE] ++ concat (map encode_run ps) ++ repeat BACKSLASH (2 * t) ++ [DQUOTE]
  else concat (map encode_run ps) ++ repeat BACKSLASH t.

(** Join with single spaces. *)
Fixpoint join (parts : list cstr) : cstr :=
  match parts with
  | [] => []
  | [p] => p
  | p :: rest => p ++ [SPACE] ++ join rest
  end.

Definition encode (argv : list cstr) : cstr := join (map encode_arg argv).

End Wording.

(** An argument the tool can receive: a C string (no NUL inside), short
    enough that the [int] counter of [argvToCommandLine] stays in range. *)
Definition arg_ok (a : cstr) : Prop :=
  ~ In NUL a /\ Z.of_nat (length a) < 2 ^ 30.

(** ** Platform types

    Wide strings are lists of [wchar_t] code units; [L] is a wide literal. *)

Definition wstr := list Z.

Definition LF : ascii := "010"%char.

Definition L (s : cstr) : wstr := map (fun c => Z.of_nat (nat_of_ascii c)) s.

Fixpoint w_str (s : wstr) : wstr :=
  match s with
  | [] => []
  | c :: s' => if c =? 0 then [] else c :: w_str s'
  end.

Definition wcslen (text : wstr) : Z := Z.of_nat (length (w_str text)).

Definition is_nil {A} (l : list A) : bool :=
  match l with [] => true | _ => false end.

Fixpoint cstr_eqb (a b : cstr) : bool :=
  match a, b with
  | [], [] => true
  | x :: a', y :: b' => Ascii.eqb x y && cstr_eqb a' b'
  | _, _ => false
  end.

(** [struct termios]: the four flag words, the control characters and the
    line speeds. *)
Record termios := {
  c_iflag : Z; c_oflag : Z; c_cflag : Z; c_lflag : Z;
  c_cc : list Z; c_ispeed : Z; c_ospeed : Z
}.

(** [struct winsize]: four [unsigned short]s, so the structure has no
    padding and [memcmp] compares exactly its fields. *)
Record winsize := { ws_row : Z; ws_col : Z; ws_xpixel : Z; ws_ypixel : Z }.

Definition winsize_eqb (a b : winsize) : bool :=
  (ws_row a =? ws_row b) && (ws_col a =? ws_col b)
  && (ws_xpixel a =? ws_xpixel b) && (ws_ypixel a =? ws_ypixel b).

(** [memcmp(&sz, &sz2, sizeof(sz))] is zero exactly when the fields agree. *)
Definition memcmp_winsize (a b : winsize) : Z :=
  if winsize_eqb a b then 0 else 1.

(** Constants and helpers of headers that are not part of this file:
    termios.h, winpty.h, cygwin/version.h, ../shared/UnixCtrlChars.h. *)
Record Platform := {
  ECHO : Z; ICANON : Z; IEXTEN : Z; ISIG : Z;
  BRKINT : Z; ICRNL : Z; INPCK : Z; ISTRIP : Z; IXON : Z;
  CSIZE : Z; PARENB : Z; CS8 : Z; OPOST : Z;
  VMIN : nat; VTIME : nat;
  SIZE_MAX : Z;
  WINPTY_FLAG_ALLOW_CURPROC_DESKTOP_CREATION : Z;
  WINPTY_FLAG_CONERR : Z;
  WINPTY_FLAG_PLAIN_OUTPUT : Z;
  WINPTY_FLAG_COLOR_ESCAPES : Z;
  WINPTY_MOUSE_MODE_FORCE : Z;
  WINPTY_SPAWN_FLAG_AUTO_SHUTDOWN : Z;
  WINPTY_ERROR_SPAWN_CREATE_PROCESS_FAILED : Z;
  CW_SYNC_WINENV_available : bool;
  decodeUnixCtrlChar : ascii -> ascii
}.

(** ** What the program does to its environment

    The channel handles and the child handle, the I/O pump workers, and the
    calls the program makes on the operating system, the C library and the
    back end.  A run is observed as the sequence of these calls. *)

Inductive Handle := Conin | Conout | Conerr | ChildHandle.
Inductive Worker := InputWorker | OutputWorker | ErrorWorker.

Inductive PrintfArg := PStr (s : cstr) | PInt (z : Z).

Definition STDIN_FILENO : nat := 0.
Definition STDOUT_FILENO : nat := 1.
Definition STDERR_FILENO : nat := 2.

Inductive Event :=
| Setlocale
| Execvp (file : cstr) (args : list cstr)
| Perror (msg : cstr)
| Fprintf (fd : nat) (fmt : cstr) (args : list PrintfArg)
| Putchar (c : ascii)
| Fflush (fd : nat)
| NewWakeupFd
| DumpVersionToStdout
| CygwinInternalSyncWinenv
| SetEnvironmentVariableW (name : wstr) (value : option wstr)
| Tcsetattr (fd : nat) (attrs : termios)
| WinptyConfigNew (flags : Z)
| WinptyConfigSetInitialSize (cols rows : Z)
| WinptyConfigSetMouseMode (mouseMode : Z)
| WinptyOpen
| WinptyConfigFree
| WinptyErrorFree
| CreateFileW (h : Handle)
| FreeLibrary
| WinptySpawnConfigNew (flags : Z) (cmdline : wstr)
| WinptySpawn
| WinptySpawnConfigFree
| Sigaction
| NewWorker (w : Worker) (h : Handle) (fd : nat)
| Select
| WakeupReset
| WinptySetSize (cols rows : Z)
| WinptyFree
| Shutdown (w : Worker)
| DeleteWorker (w : Worker)
| CloseHandle (h : Handle).

Definition Trace := list Event.

(** What one return of [select] in the main loop finds: the contents of
    [sz2] after the [ioctl] (whatever they are when the [ioctl] fails, [sz2]
    being uninitialised) and the completion flags of the workers. *)
Record Wakeup := {
  probe : winsize;
  inputComplete : bool;
  outputComplete : bool;
  errorComplete : bool
}.

Inductive OpenResult := Opened | OpenFailed (msg : wstr).

Inductive SpawnResult :=
| Spawned
| SpawnFailed (code : Z) (lastError : Z) (msg : wstr).

(** The answers of the environment.  A call made once has one answer; the
    answers of [tcgetattr] and [tcsetattr], which are called several times,
    may depend on what happened before. *)
Record Env := {
  argv : list cstr;
  execvp : cstr -> list cstr -> bool;
  wakeup_created : bool;
  getenv : cstr -> option cstr;
  isatty : nat -> bool;
  tcgetattr : Trace -> nat -> option termios;
  tcsetattr : Trace -> nat -> termios -> bool;
  uninitialised_termios : termios;
  reads : list cstr;
  ioctl_TIOCGWINSZ : option winsize;
  mbstowcs : cstr -> Z -> option wstr;
  wcstombs : wstr -> Z -> option cstr;
  sprintf_alt_hex : Z -> cstr;
  FormatMessageW : Z -> option wstr;
  winpty_config_new : bool;
  winpty_open : OpenResult;
  CreateFileW_ok : Handle -> bool;
  GetModuleHandleExW : bool;
  GetModuleFileNameW : Z * wstr;
  winpty_spawn_config_new : bool;
  winpty_spawn : SpawnResult;
  wakeups : list Wakeup;
  GetExitCodeProcess : option Z
}.

(** ** A run: the calls made so far, and how control goes on

    [exit] and a failed [assert] stop the process; [execvp] replaces it; a
    [select] or [read] that never returns leaves it waiting; an [int]
    overflow leaves the behaviour undefined. *)

Inductive Halt :=
| Exited (code : Z)
| Aborted
| Replaced
| Waiting
| Undefined.

Inductive Result (A : Type) :=
| Ok (a : A) (t : Trace)
| Stop (h : Halt) (t : Trace).
Arguments Ok {A} a t.
Arguments Stop {A} h t.

Definition M (A : Type) : Type := Trace -> Result A.

Definition ret {A} (a : A) : M A := fun t => Ok a t.

Definition bind {A B} (m : M A) (k : A -> M B) : M B :=
  fun t => match m t with
           | Ok a t' => k a t'
           | Stop h t' => Stop h t'
           end.

Notation "x <- m ;; k" := (bind m (fun x => k))
  (at level 61, m at next level, right associativity).
Notation "m ;; k" := (bind m (fun _ => k))
  (at level 61, right associativity).

Definition emit (e : Event) : M unit := fun t => Ok tt (t ++ [e]).
Definition halt {A} (h : Halt) : M A := fun t => Stop h t.
Definition history : M Trace := fun t => Ok t t.
Definition exit {A} (code : Z) : M A := halt (Exited code).
Definition abort {A} : M A := halt Aborted.
Definition assert (b : bool) : M unit := if b then ret tt else abort.

Fixpoint for_each {S} (idx : list nat) (body : nat -> S -> M S) (s : S) : M S :=
  match idx with
  | [] => ret s
  | i :: rest => s' <- body i s ;; for_each rest body s'
  end.

Fixpoint set_nth {A} (l : list A) (i : nat) (x : A) : list A :=
  match l, i with
  | [], _ => []
  | _ :: l', O => x :: l'
  | y :: l', S i' => y :: set_nth l' i' x
  end.

(** [struct SavedTermiosMode] ([count] is never used). *)
Record SavedTermiosMode := {
  valid : list bool;
  mode : list termios
}.

Definition valid_at (m : SavedTermiosMode) (i : nat) : bool := nth i (valid m) false.

Record Arguments := {
  childArgv : list cstr;
  mouseInput : bool;
  testAllowNonTtys : bool;
  testConerr : bool;
  testPlainOutput : bool;
  testColorEscapes : bool
}.

(** A buffer from [new T[n]]: its size and what the conversion wrote. *)
Record HeapBuf (T : Type) := { capacity : Z; contents : list T }.
Arguments capacity {T} _.
Arguments contents {T} _.

Definition DWORD (z : Z) : Z := z mod 2 ^ 32.

(** The conversion of a [DWORD] to the [int] that [main] returns. *)
Definition int_of_DWORD (d : Z) : Z := if d <? 2 ^ 31 then d else d - 2 ^ 32.

Section Program.

Context (P : Platform) (E : Env).

Definition size_t (z : Z) : Z := z mod (SIZE_MAX P + 1).

(** *** Terminal mode controller (main.cc, lines 67-153) *)

Definition kNames (i : nat) : cstr :=
  nth i [str "stdin"; str "stdout"; str "stderr"] [].

(** The body of the first loop of [setRawTerminalMode]. *)
Definition capture (allowNonTtys : bool) (i : nat) (r : SavedTermiosMode)
  : M SavedTermiosMode :=
  if negb (valid_at r i) then ret r
  else if negb (isatty E i) then
    let r := {| valid := set_nth (valid r) i false; mode := mode r |} in
    if negb allowNonTtys then
      emit (Fprintf STDERR_FILENO (str "%s is not a tty" ++ [LF]) [PStr (kNames i)]) ;;
      exit 1
    else ret r
  else
    let r := {| valid := set_nth (valid r) i true; mode := mode r |} in
    h <- history ;;
    match tcgetattr E h i with
    | None => emit (Perror (str "tcgetattr failed")) ;; exit 1
    | Some m => ret {| valid := valid r; mode := set_nth (mode r) i m |}
    end.

Definition raw_input (buf : termios) : termios :=
  let lflag := Z.land (c_lflag buf)
                 (Z.lnot (Z.lor (Z.lor (Z.lor (ECHO P) (ICANON P)) (IEXTEN P)) (ISIG P))) in
  let iflag := Z.land (c_iflag buf)
                 (Z.lnot (Z.lor (Z.lor (Z.lor (Z.lor (BRKINT P) (ICRNL P)) (INPCK P))
                                       (ISTRIP P)) (IXON P))) in
  let cflag := Z.land (c_cflag buf) (Z.lnot (Z.lor (CSIZE P) (PARENB P))) in
  let cflag := Z.lor cflag (CS8 P) in
  let cc := set_nth (c_cc buf) (VMIN P) 1 in
  let cc := set_nth cc (VTIME P) 0 in
  {| c_iflag := iflag; c_oflag := c_oflag buf; c_cflag := cflag; c_lflag := lflag;
     c_cc := cc; c_ispeed := c_ispeed buf; c_ospeed := c_ospeed buf |}.

Definition raw_output (buf : termios) : termios :=
  let cflag := Z.land (c_cflag buf) (Z.lnot (Z.lor (CSIZE P) (PARENB P))) in
  let cflag := Z.lor cflag (CS8 P) in
  let oflag := Z.land (c_oflag buf) (Z.lnot (OPOST P)) in
  {| c_iflag := c_iflag buf; c_oflag := oflag; c_cflag := cflag; c_lflag := c_lflag buf;
     c_cc := c_cc buf; c_ispeed := c_ispeed buf; c_ospeed := c_ospeed buf |}.

(** [tcgetattr(fd, &buf)], a change of [buf], [tcsetattr(fd, TCSAFLUSH, &buf)]. *)
Definition set_raw (fd : nat) (change : termios -> termios) : M unit :=
  h <- history ;;
  match tcgetattr E h fd with
  | None => emit (Perror (str "tcgetattr failed")) ;; exit 1
  | Some buf =>
      let buf := change buf in
      emit (Tcsetattr fd buf) ;;
      if tcsetattr E h fd buf then ret tt
      else emit (Fprintf STDERR_FILENO (str "tcsetattr failed" ++ [LF]) []) ;; exit 1
  end.

Definition setRawTerminalMode (allowNonTtys setStdout setStderr : bool)
  : M SavedTermiosMode :=
  let u := uninitialised_termios E in
  let r := {| valid := [true; setStdout; setStderr]; mode := [u; u; u] |} in
  r <- for_each [0; 1; 2]%nat (capture allowNonTtys) r ;;
  (if valid_at r STDIN_FILENO then set_raw STDIN_FILENO raw_input else ret tt) ;;
  for_each [STDOUT_FILENO; STDERR_FILENO]
    (fun i _ => if negb (valid_at r i) then ret tt else set_raw i raw_output) tt ;;
  ret r.

(** The body of the loop of [restoreTerminalMode]. *)
Definition restore (original : SavedTermiosMode) (i : nat) (_ : unit) : M unit :=
  if negb (valid_at original i) then ret tt
  else
    let m := nth i (mode original) (uninitialised_termios E) in
    h <- history ;;
    emit (Tcsetattr i m) ;;
    if tcsetattr E h i m then ret tt
    else emit (Perror (str "error restoring terminal mode")) ;; exit 1.

Definition restoreTerminalMode (original : SavedTermiosMode) : M unit :=
  for_each [0; 1; 2]%nat (restore original) tt.

(** *** [debugShowKey] (lines 155-186) *)

Definition show_char (c : ascii) : M unit :=
  let ctrl := decodeUnixCtrlChar P c in
  if Ascii.eqb ctrl NUL then emit (Putchar c)
  else emit (Putchar "^"%char) ;; emit (Putchar ctrl).

Definition show_code (c : ascii) : M unit :=
  let uch := Z.of_nat (nat_of_ascii c) in
  emit (Fprintf STDOUT_FILENO ([TAB] ++ str "%3d %04o 0x%02x" ++ [LF])
          [PInt uch; PInt uch; PInt uch]) ;;
  emit (Fflush STDOUT_FILENO).

Fixpoint show_keys (input : list cstr) : M unit :=
  match input with
  | [] => halt Waiting
  | buf :: rest =>
      match buf with
      | [] => ret tt
      | b0 :: _ =>
          for_each (seq 0 (length buf)) (fun i _ => show_char (nth i buf NUL)) tt ;;
          for_each (seq 0 (length buf)) (fun i _ => show_code (nth i buf NUL)) tt ;;
          if Ascii.eqb b0 "004"%char then ret tt else show_keys rest
      end
  end.

Definition debugShowKey (allowNonTtys : bool) : M unit :=
  emit (Fprintf STDOUT_FILENO ([LF] ++ str "Press any keys -- Ctrl-D exits" ++ [LF; LF]) []) ;;
  saved <- setRawTerminalMode allowNonTtys false false ;;
  show_keys (reads E) ;;
  restoreTerminalMode saved.

(** *** Character-set conversion helpers (lines 255-295) *)

Definition heapMbsToWcs (text : cstr) : M (HeapBuf Z) :=
  let maxLen := size_t (strlen text * 2 + 1) in
  let conv := mbstowcs E (c_str text) maxLen in
  let len := match conv with
             | Some w => Z.of_nat (length w)
             | None => SIZE_MAX P
             end in
  assert (negb (len =? SIZE_MAX P) && (len <? maxLen)) ;;
  ret {| capacity := maxLen;
         contents := match conv with Some w => w | None => [] end |}.

Definition heapWcsToMbs (text : wstr) : option (HeapBuf ascii) :=
  let maxLen := size_t (wcslen text * 3 + 1) in
  let conv := wcstombs E (w_str text) maxLen in
  let len := match conv with
             | Some s => Z.of_nat (length s)
             | None => SIZE_MAX P
             end in
  if (len =? SIZE_MAX P) || (maxLen <=? len) then None
  else Some {| capacity := maxLen;
               contents := match conv with Some s => s | None => [] end |}.

Definition wcsToMbs (text : wstr) : cstr :=
  match heapWcsToMbs text with
  | Some ptr => c_str (contents ptr)
  | None => []
  end.

(** *** [setupWin32Environment] (lines 297-352)

    [varsToCopy] is a [std::map]; it is walked in key order, which is the
    order of [vars]. *)

Definition vars : list cstr := [str "WINPTY_DEBUG"; str "WINPTY_SHOW_CONSOLE"].

Definition varsToCopy : list (cstr * cstr) :=
  flat_map (fun v => match getenv E v with
                     | Some val => if is_nil (c_str val) then [] else [(v, c_str val)]
                     | None => []
                     end) vars.

Fixpoint copy_vars (l : list (cstr * cstr)) : M unit :=
  match l with
  | [] => ret tt
  | (name, value) :: rest =>
      nameW <- heapMbsToWcs name ;;
      valueW <- heapMbsToWcs value ;;
      emit (SetEnvironmentVariableW (contents nameW) (Some (contents valueW))) ;;
      copy_vars rest
  end.

Definition setupWin32Environment : M unit :=
  let copy := varsToCopy in
  (if CW_SYNC_WINENV_available P then emit CygwinInternalSyncWinenv else ret tt) ;;
  copy_vars copy ;;
  emit (SetEnvironmentVariableW (L (str "TERM")) None).

(** *** [usage] and [parseArguments] (lines 354-427) *)

Definition printf (fmt : cstr) (args : list PrintfArg) : M unit :=
  emit (Fprintf STDOUT_FILENO fmt args).

Definition usage {A} (program : cstr) (exitCode : Z) : M A :=
  printf (str "Usage: %s [options] [--] program [args]" ++ [LF]) [PStr program] ;;
  printf [LF] [] ;;
  printf (str "Options:" ++ [LF]) [] ;;
  printf (str "  -h, --help  Show this help message" ++ [LF]) [] ;;
  printf (str "  --mouse     Enable terminal mouse input" ++ [LF]) [] ;;
  printf (str "  --showkey   Dump STDIN escape sequences" ++ [LF]) [] ;;
  printf (str "  --version   Show the winpty version number" ++ [LF]) [] ;;
  exit exitCode.

Definition is_option (arg : cstr) : bool :=
  match arg with
  | c :: _ => Ascii.eqb c "-"%char
  | [] => false
  end.

(** The [while (argi < argc)] loop; [rest] is [argv] from [argi] on.  The
    result is what is left of [argv] when the loop ends. *)
Fixpoint parse_options (program : cstr) (rest : list cstr) (out : Arguments)
         (doShowKeys : bool) : M (list cstr * Arguments * bool) :=
  match rest with
  | [] => ret ([], out, doShowKeys)
  | a :: rest' =>
      let arg := c_str a in
      if is_option arg then
        if cstr_eqb arg (str "-h") || cstr_eqb arg (str "--help") then
          usage program 0
        else if cstr_eqb arg (str "--mouse") then
          parse_options program rest'
            {| childArgv := childArgv out; mouseInput := true;
               testAllowNonTtys := testAllowNonTtys out; testConerr := testConerr out;
               testPlainOutput := testPlainOutput out;
               testColorEscapes := testColorEscapes out |} doShowKeys
        else if cstr_eqb arg (str "--showkey") then
          parse_options program rest' out true
        else if cstr_eqb arg (str "--version") then
          emit DumpVersionToStdout ;; exit 0
        else if cstr_eqb arg (str "-Xallow-non-tty") then
          parse_options program rest'
            {| childArgv := childArgv out; mouseInput := mouseInput out;
               testAllowNonTtys := true; testConerr := testConerr out;
               testPlainOutput := testPlainOutput out;
               testColorEscapes := testColorEscapes out |} doShowKeys
        else if cstr_eqb arg (str "-Xconerr") then
          parse_options program rest'
            {| childArgv := childArgv out; mouseInput := mouseInput out;
               testAllowNonTtys := testAllowNonTtys out; testConerr := true;
               testPlainOutput := testPlainOutput out;
               testColorEscapes := testColorEscapes out |} doShowKeys
        else if cstr_eqb arg (str "-Xplain") then
          parse_options program rest'
            {| childArgv := childArgv out; mouseInput := mouseInput out;
               testAllowNonTtys := testAllowNonTtys out; testConerr := testConerr out;
               testPlainOutput := true;
               testColorEscapes := testColorEscapes out |} doShowKeys
        else if cstr_eqb arg (str "-Xcolor") then
          parse_options program rest'
            {| childArgv := childArgv out; mouseInput := mouseInput out;
               testAllowNonTtys := testAllowNonTtys out; testConerr := testConerr out;
               testPlainOutput := testPlainOutput out;
               testColorEscapes := true |} doShowKeys
        else if cstr_eqb arg (str "--") then
          ret (rest', out, doShowKeys)
        else
          emit (Fprintf STDERR_FILENO
                  (str "Error: unrecognized option: '%s'" ++ [LF]) [PStr arg]) ;;
          exit 1
      else
        ret (rest',
             {| childArgv := childArgv out ++ [arg]; mouseInput := mouseInput out;
                testAllowNonTtys := testAllowNonTtys out; testConerr := testConerr out;
                testPlainOutput := testPlainOutput out;
                testColorEscapes := testColorEscapes out |},
             doShowKeys)
  end.

Definition parseArguments (argv : list cstr) : M Arguments :=
  let out := {| childArgv := []; mouseInput := false; testAllowNonTtys := false;
                testConerr := false; testPlainOutput := false;
                testColorEscapes := false |} in
  let program := match argv with
                 | a0 :: _ => c_str a0
                 | [] => str "<program>"
                 end in
  st <- parse_options program (skipn 1 argv) out false ;;
  let '(rest, out, doShowKeys) := st in
  let out := {| childArgv := childArgv out ++ map c_str rest;
                mouseInput := mouseInput out;
                testAllowNonTtys := testAllowNonTtys out; testConerr := testConerr out;
                testPlainOutput := testPlainOutput out;
                testColorEscapes := testColorEscapes out |} in
  (if doShowKeys then debugShowKey (testAllowNonTtys out) ;; exit 0 else ret tt) ;;
  (if (length (childArgv out) =? 0)%nat then usage program 1 else ret tt) ;;
  ret out.

(** *** [errorMessageToString] and [formatErrorMessage] (lines 429-474) *)

Definition is_blank (c : ascii) : bool :=
  Ascii.eqb c SPACE || Ascii.eqb c "013"%char || Ascii.eqb c LF || Ascii.eqb c TAB.

(** [msg.erase(msg.find_last_not_of(" \r\n\t") + 1)], or [msg.clear()]. *)
Fixpoint strip_blank_end (msg : cstr) : cstr :=
  match msg with
  | [] => []
  | c :: msg' =>
      match strip_blank_end msg' with
      | [] => if is_blank c then [] else [c]
      | kept => c :: kept
      end
  end.

Definition errorMessageToString (err : Z) : cstr :=
  match FormatMessageW E err with
  | None => []
  | Some wideMsg => strip_blank_end (wcsToMbs wideMsg)
  end.

Definition formatErrorMessage (err : Z) : cstr :=
  let buf := str "error " ++ sprintf_alt_hex E err in
  let r := errorMessageToString err in
  if is_nil r then buf else r ++ str " (" ++ buf ++ str ")".

(** *** [main] (lines 476-650) *)

(** Lines 480-484. *)
Definition child_exec (argv : list cstr) : M Z :=
  let file := c_str (nth 2 argv []) in
  let args := map c_str (skipn 2 argv) in
  emit (Execvp file args) ;;
  if execvp E file args then halt Replaced
  else emit (Perror (str "error: exec failed")) ;; exit 1.

(** Modelled from the spec: the constructor of [WakeupFd] is in WakeupFd.h,
    which is not part of this file; section 4.1 has it abort the process when
    the operating system resource cannot be created. *)
Definition new_WakeupFd : M unit :=
  emit NewWakeupFd ;;
  if wakeup_created E then ret tt else abort.

(** Lines 493-530: the initial geometry, the back end, the channel handles. *)
Definition main_open (args : Arguments) : M winsize :=
  let sz := {| ws_row := 25; ws_col := 80; ws_xpixel := 0; ws_ypixel := 0 |} in
  let sz := match ioctl_TIOCGWINSZ E with Some probed => probed | None => sz end in
  let agentFlags := WINPTY_FLAG_ALLOW_CURPROC_DESKTOP_CREATION P in
  let agentFlags := if testConerr args
                    then Z.lor agentFlags (WINPTY_FLAG_CONERR P) else agentFlags in
  let agentFlags := if testPlainOutput args
                    then Z.lor agentFlags (WINPTY_FLAG_PLAIN_OUTPUT P) else agentFlags in
  let agentFlags := if testColorEscapes args
                    then Z.lor agentFlags (WINPTY_FLAG_COLOR_ESCAPES P) else agentFlags in
  emit (WinptyConfigNew agentFlags) ;;
  assert (winpty_config_new E) ;;
  emit (WinptyConfigSetInitialSize (ws_col sz) (ws_row sz)) ;;
  (if mouseInput args
   then emit (WinptyConfigSetMouseMode (WINPTY_MOUSE_MODE_FORCE P)) else ret tt) ;;
  emit WinptyOpen ;;
  match winpty_open E with
  | OpenFailed msg =>
      emit (Fprintf STDERR_FILENO (str "Error creating winpty: %s" ++ [LF])
              [PStr (wcsToMbs msg)]) ;;
      exit 1
  | Opened =>
      emit WinptyConfigFree ;;
      emit WinptyErrorFree ;;
      emit (CreateFileW Conin) ;;
      emit (CreateFileW Conout) ;;
      assert (CreateFileW_ok E Conin) ;;
      assert (CreateFileW_ok E Conout) ;;
      (if testConerr args
       then emit (CreateFileW Conerr) ;; assert (CreateFileW_ok E Conerr)
       else ret tt) ;;
      ret sz
  end.

(** Lines 532-588: the command line of the child and the spawn. *)
Definition main_spawn (args : Arguments) : M unit :=
  assert (GetModuleHandleExW E) ;;
  let '(modPathLen, selfPath) := GetModuleFileNameW E in
  assert ((0 <? modPathLen) && (modPathLen <? 1024)) ;;
  emit FreeLibrary ;;
  match Codec.argvToCommandLine (childArgv args) with
  | None => halt Undefined
  | Some childCmdLine =>
      childCmdLineW <- heapMbsToWcs childCmdLine ;;
      let cmdLineW := L [DQUOTE] ++ w_str selfPath ++ L ([DQUOTE] ++ str " --child-exec ")
                      ++ w_str (contents childCmdLineW) in
      emit (WinptySpawnConfigNew (WINPTY_SPAWN_FLAG_AUTO_SHUTDOWN P) cmdLineW) ;;
      assert (winpty_spawn_config_new E) ;;
      emit WinptySpawn ;;
      emit WinptySpawnConfigFree ;;
      match winpty_spawn E with
      | SpawnFailed spawnCode lastError msg =>
          (if spawnCode =? WINPTY_ERROR_SPAWN_CREATE_PROCESS_FAILED P then
             emit (Fprintf STDERR_FILENO (str "Could not start '%s': %s" ++ [LF])
                     [PStr (c_str childCmdLine); PStr (formatErrorMessage lastError)])
           else
             emit (Fprintf STDERR_FILENO
                     (str "Could not start '%s': internal error: %s" ++ [LF])
                     [PStr (c_str childCmdLine); PStr (wcsToMbs msg)])) ;;
          exit 1
      | Spawned => emit WinptyErrorFree
      end
  end.

(** Lines 590-599: the resize handler, raw mode, the workers. *)
Definition main_start (args : Arguments) : M SavedTermiosMode :=
  emit Sigaction ;;
  mode <- setRawTerminalMode (testAllowNonTtys args) true (testConerr args) ;;
  emit (NewWorker InputWorker Conin STDIN_FILENO) ;;
  emit (NewWorker OutputWorker Conout STDOUT_FILENO) ;;
  (if testConerr args
   then emit (NewWorker ErrorWorker Conerr STDERR_FILENO) else ret tt) ;;
  ret mode.

(** Lines 608-616: the check for a terminal resize, given what the [ioctl]
    left in [sz2]; it yields the new cached [sz]. *)
Definition check_resize (sz sz2 : winsize) : M winsize :=
  if negb (memcmp_winsize sz sz2 =? 0) then
    let sz := sz2 in
    emit (WinptySetSize (ws_col sz) (ws_row sz)) ;;
    ret sz
  else ret sz.

(** Lines 620-621: is an I/O handler shutting down? *)
Definition any_complete (w : Wakeup) (errorHandler : bool) : bool :=
  inputComplete w || outputComplete w || (errorHandler && errorComplete w).

(** Lines 601-624: the main loop, one iteration for each return of
    [select]; it yields the cached [sz]. *)
Fixpoint main_loop (ws : list Wakeup) (errorHandler : bool) (sz : winsize)
  : M winsize :=
  match ws with
  | [] => emit Select ;; halt Waiting
  | w :: rest =>
      emit Select ;;
      emit WakeupReset ;;
      sz <- check_resize sz (probe w) ;;
      if any_complete w errorHandler then ret sz
      else main_loop rest errorHandler sz
  end.

(** Lines 626-649: the shutdown sequence and the exit code. *)
Definition main_shutdown (args : Arguments) (mode : SavedTermiosMode) : M Z :=
  emit WinptyFree ;;
  emit (Shutdown InputWorker) ;;
  emit (Shutdown OutputWorker) ;;
  emit (CloseHandle Conin) ;;
  emit (CloseHandle Conout) ;;
  (if testConerr args then
     emit (Shutdown ErrorWorker) ;;
     emit (DeleteWorker ErrorWorker) ;;
     emit (CloseHandle Conerr)
   else ret tt) ;;
  restoreTerminalMode mode ;;
  let exitCode := match GetExitCodeProcess E with
                  | Some code => DWORD code
                  | None => 1
                  end in
  emit (CloseHandle ChildHandle) ;;
  ret (int_of_DWORD exitCode).

Definition main_session : M Z :=
  new_WakeupFd ;;
  args <- parseArguments (argv E) ;;
  setupWin32Environment ;;
  sz <- main_open args ;;
  main_spawn args ;;
  mode <- main_start args ;;
  main_loop (wakeups E) (testConerr args) sz ;;
  main_shutdown args mode.

Definition main : M Z :=
  emit Setlocale ;;
  let argc := Z.of_nat (length (argv E)) in
  if (3 <=? argc) && cstr_eqb (c_str (nth 1 (argv E) [])) (str "--child-exec")
  then child_exec (argv E)
  else main_session.

End Program.

(** ** A sample platform and a sample environment

    Every call succeeds, the three streams are terminals, the conversions
    are those of an ASCII locale. *)

Module Sample.

Definition platform : Platform := {|
  ECHO := 8; ICANON := 2; IEXTEN := 256; ISIG := 1;
  BRKINT := 2; ICRNL := 256; INPCK := 16; ISTRIP := 32; IXON := 1024;
  CSIZE := 48; PARENB := 256; CS8 := 48; OPOST := 1;
  VMIN := 9; VTIME := 16;
  SIZE_MAX := 2 ^ 32 - 1;
  WINPTY_FLAG_ALLOW_CURPROC_DESKTOP_CREATION := 8;
  WINPTY_FLAG_CONERR := 1;
  WINPTY_FLAG_PLAIN_OUTPUT := 2;
  WINPTY_FLAG_COLOR_ESCAPES := 4;
  WINPTY_MOUSE_MODE_FORCE := 2;
  WINPTY_SPAWN_FLAG_AUTO_SHUTDOWN := 1;
  WINPTY_ERROR_SPAWN_CREATE_PROCESS_FAILED := 4;
  CW_SYNC_WINENV_available := true;
  decodeUnixCtrlChar := fun _ => NUL
|}.

Definition cooked : termios := {|
  c_iflag := 1280; c_oflag := 1; c_cflag := 176; c_lflag := 267;
  c_cc := repeat 0 18; c_ispeed := 38400; c_ospeed := 38400
|}.

Definition narrow (w : wstr) : cstr := map (fun z => ascii_of_nat (Z.to_nat z)) w.

Definition env (args : list cstr) (tty : nat -> bool) (ws : list Wakeup)
           (code : option Z) : Env := {|
  argv := args;
  execvp := fun _ _ => false;
  wakeup_created := true;
  getenv := fun _ => None;
  isatty := tty;
  tcgetattr := fun _ _ => Some cooked;
  tcsetattr := fun _ _ _ => true;
  uninitialised_termios := cooked;
  reads := [];
  ioctl_TIOCGWINSZ := None;
  mbstowcs := fun s n => if Z.of_nat (length s) <=? n then Some (L s) else None;
  wcstombs := fun w n => if Z.of_nat (length w) <=? n then Some (narrow w) else None;
  sprintf_alt_hex := fun _ => str "0x0";
  FormatMessageW := fun _ => None;
  winpty_config_new := true;
  winpty_open := Opened;
  CreateFileW_ok := fun _ => true;
  GetModuleHandleExW := true;
  GetModuleFileNameW := (10, L (str "winpty.exe"));
  winpty_spawn_config_new := true;
  winpty_spawn := Spawned;
  wakeups := ws;
  GetExitCodeProcess := code
|}.

Definition exited : Wakeup := {|
  probe := {| ws_row := 25; ws_col := 80; ws_xpixel := 0; ws_ypixel := 0 |};
  inputComplete := false; outputComplete := true; errorComplete := false
|}.

End Sample.

(** ** The vocabulary of the theorems *)

Definition result_trace {A} (r : Result A) : Trace :=
  match r with
  | Ok _ t => t
  | Stop _ t => t
  end.

(** [emits Q m]: whatever the trace so far and however [m] ends, [m] only
    adds events, and every event it adds satisfies [Q]. *)
Definition emits {A} (Q : Event -> Prop) (m : M A) : Prop :=
  forall t, exists evs, result_trace (m t) = t ++ evs /\ Forall Q evs.

(** Before the shutdown sequence the program never frees the session, never
    shuts a worker down and never closes a handle; it opens the error channel
    and starts the error worker only with [-Xconerr]. *)
Definition allowed (conerr : bool) (e : Event) : bool :=
  match e with
  | WinptyFree | Shutdown _ | CloseHandle _ => false
  | CreateFileW Conerr => conerr
  | NewWorker ErrorWorker _ _ => conerr
  | _ => true
  end.

Definition Allowed (conerr : bool) (e : Event) : Prop := allowed conerr e = true.

(** The shutdown sequence, when it returns: the calls it made, and its
    value. *)
Definition shutdown_calls (conerr : bool) : Trace :=
  [WinptyFree; Shutdown InputWorker; Shutdown OutputWorker;
   CloseHandle Conin; CloseHandle Conout]
  ++ (if conerr
      then [Shutdown ErrorWorker; DeleteWorker ErrorWorker; CloseHandle Conerr]
      else []).

Definition exit_code_of (answer : option Z) : Z :=
  match answer with
  | Some code => int_of_DWORD (DWORD code)
  | None => 1
  end.

(** The resize notifications of a run, and the geometry of a [winsize]. *)
Definition resizes (t : Trace) : list (Z * Z) :=
  flat_map (fun e => match e with
                     | WinptySetSize cols rows => [(cols, rows)]
                     | _ => []
                     end) t.

Definition geometry (sz : winsize) : Z * Z := (ws_col sz, ws_row sz).

(** Events of the terminal mode controller: a [tcsetattr] on a terminal, and
    a [tcsetattr] that reapplies the attributes saved for a valid stream. *)
Definition on_terminal (E : Env) (e : Event) : Prop :=
  forall fd m, e = Tcsetattr fd m -> isatty E fd = true.

Definition restores (E : Env) (original : SavedTermiosMode) (e : Event) : Prop :=
  forall fd m, e = Tcsetattr fd m ->
    valid_at original fd = true /\
    m = nth fd (mode original) (uninitialised_termios E).

(** ** Concrete inputs *)

Definition fallback_winsize : winsize :=
  {| ws_row := 25; ws_col := 80; ws_xpixel := 0; ws_ypixel := 0 |}.

Definition wakeup_at (rows cols xpixel ypixel : Z) (done : bool) : Wakeup :=
  {| probe := {| ws_row := rows; ws_col := cols;
                 ws_xpixel := xpixel; ws_ypixel := ypixel |};
     inputComplete := false; outputComplete := done; errorComplete := false |}.

Definition sample_argv : list cstr :=
  [ str "C:\Program Files\x.exe";
    str "";
    [BACKSLASH; BACKSLASH; DQUOTE; "a"%char; TAB; BACKSLASH];
    str "plain\";
    [DQUOTE] ].

Definition session_env (code : option Z) : Env :=
  Sample.env [str "winpty"; str "-Xconerr"; str "-Xallow-non-tty"; str "cmd"; str "/c"]
             (fun fd => Nat.eqb fd 0) [Sample.exited] code.

Definition no_arguments_env : Env :=
  Sample.env [str "winpty"] (fun _ => true) [] None.

Definition piped_env : Env :=
  Sample.env [str "winpty"; str "-Xallow-non-tty"; str "cmd"]
             (fun fd => Nat.eqb fd 0) [Sample.exited] (Some 0).

(** A locale in which no wide character converts: [wcstombs] reports an
    error for every non-empty string. *)
Definition strict_env : Env :=
  let E := Sample.env [str "winpty"; str "cmd"] (fun _ => true) [] None in
  {| argv := argv E; execvp := execvp E; wakeup_created := wakeup_created E;
     getenv := getenv E; isatty := isatty E; tcgetattr := tcgetattr E;
     tcsetattr := tcsetattr E; uninitialised_termios := uninitialised_termios E;
     reads := reads E; ioctl_TIOCGWINSZ := ioctl_TIOCGWINSZ E;
     mbstowcs := mbstowcs E;
     wcstombs := fun w n => if is_nil w then Some [] else None;
     sprintf_alt_hex := sprintf_alt_hex E; FormatMessageW := FormatMessageW E;
     winpty_config_new := winpty_config_new E; winpty_open := winpty_open E;
     CreateFileW_ok := CreateFileW_ok E; GetModuleHandleExW := GetModuleHandleExW E;
     GetModuleFileNameW := GetModuleFileNameW E;
     winpty_spawn_config_new := winpty_spawn_config_new E;
     winpty_spawn := winpty_spawn E; wakeups := wakeups E;
     GetExitCodeProcess := GetExitCodeProcess E |}.


(** ** More vocabulary: the codec *)

(** An argument that needs no quoting and holds no quote. *)
Definition plain_arg (a : cstr) : Prop :=
  a <> [] /\ ~ In SPACE a /\ ~ In TAB a /\ ~ In DQUOTE a.

Definition plain_argv : list cstr :=
  [str "cmd.exe"; str "/c"; str "dir"; str "C:\Users\me\"].

(** ** More vocabulary: error messages *)

(** An environment in which [FormatMessageW] knows error 2, with the line
    end Windows puts after its messages. *)
Definition message_env : Env :=
  let E := Sample.env [str "winpty"; str "cmd"] (fun _ => true) [] None in
  {| argv := argv E; execvp := execvp E; wakeup_created := wakeup_created E;
     getenv := getenv E; isatty := isatty E; tcgetattr := tcgetattr E;
     tcsetattr := tcsetattr E; uninitialised_termios := uninitialised_termios E;
     reads := reads E; ioctl_TIOCGWINSZ := ioctl_TIOCGWINSZ E;
     mbstowcs := mbstowcs E; wcstombs := wcstombs E;
     sprintf_alt_hex := fun err => if err =? 2 then str "0x2" else str "0x5";
     FormatMessageW := fun err =>
       if err =? 2 then Some (L (str "File not found." ++ ["013"%char; LF]))
       else None;
     winpty_config_new := winpty_config_new E; winpty_open := winpty_open E;
     CreateFileW_ok := CreateFileW_ok E; GetModuleHandleExW := GetModuleHandleExW E;
     GetModuleFileNameW := GetModuleFileNameW E;
     winpty_spawn_config_new := winpty_spawn_config_new E;
     winpty_spawn := winpty_spawn E; wakeups := wakeups E;
     GetExitCodeProcess := GetExitCodeProcess E |}.

(** ** More vocabulary: raw mode

    The flags [setRawTerminalMode] turns off in [c_lflag] and [c_iflag]. *)

Definition lflags_off (P : Platform) : list Z := [ECHO P; ICANON P; IEXTEN P; ISIG P].
Definition iflags_off (P : Platform) : list Z :=
  [BRKINT P; ICRNL P; INPCK P; ISTRIP P; IXON P].

(** ** The command line of the child in its buffer (main.cc, lines 241-253
    and 553-558)

    A [wchar_t] buffer is the list of its elements.  A write that would go
    past the end of the buffer has no defined result. *)

Definition write_at (buf : wstr) (offset : nat) (data : wstr) : option wstr :=
  if (offset + length data <=? length buf)%nat
  then Some (firstn offset buf ++ data ++ skipn (offset + length data) buf)
  else None.

(** [appWcsCpy(dst + offset, src)]: a [memcpy] of [wcslen(src) + 1]
    elements, the terminator included. *)
Definition appWcsCpy (dst : wstr) (offset : nat) (src : wstr) : option wstr :=
  write_at dst offset (w_str src ++ [0]).

(** [appWscCat(dst, src)] is [appWcsCpy(dst + wcslen(dst), src)]. *)
Definition appWscCat (dst src : wstr) : option wstr :=
  appWcsCpy dst (length (w_str dst)) src.

(** Lines 553-558, on the buffer [new wchar_t[...]] gave, whose elements
    are indeterminate. *)
Definition cmdLineW_size (selfPath childCmdLineW : wstr) : Z :=
  wcslen selfPath + 32 + wcslen childCmdLineW.

Definition fill_cmdLineW (fresh selfPath childCmdLineW : wstr) : option wstr :=
  let cmdLineW := set_nth fresh 0 0 in
  cmdLineW <-? appWscCat cmdLineW (L [DQUOTE]) ;;
  cmdLineW <-? appWscCat cmdLineW selfPath ;;
  cmdLineW <-? appWscCat cmdLineW (L ([DQUOTE] ++ str " --child-exec ")) ;;
  appWscCat cmdLineW childCmdLineW.

(** A buffer that holds the string [s]: [s], its terminator, and anything
    after it. *)
Definition holds (s buf : wstr) : Prop :=
  Forall (fun c => c <> 0) s /\ exists rest, buf = s ++ 0 :: rest.

(** ** More vocabulary: the command line of the tool

    The options that only set a flag, all the options, the flags a list of
    options sets, and what [usage] prints. *)

Definition switches : list cstr :=
  [str "--mouse"; str "--showkey"; str "-Xallow-non-tty"; str "-Xconerr";
   str "-Xplain"; str "-Xcolor"].

Definition options : list cstr :=
  [str "-h"; str "--help"; str "--version"; str "--"] ++ switches.

Definition is_switch (a : cstr) : bool := existsb (cstr_eqb (c_str a)) switches.

Definition is_known (a : cstr) : bool := existsb (cstr_eqb (c_str a)) options.

Definition given (opt : cstr) (opts : list cstr) : bool :=
  existsb (fun a => cstr_eqb (c_str a) opt) opts.

Definition switched (out : Arguments) (opts : list cstr) : Arguments :=
  {| childArgv := childArgv out;
     mouseInput := mouseInput out || given (str "--mouse") opts;
     testAllowNonTtys := testAllowNonTtys out || given (str "-Xallow-non-tty") opts;
     testConerr := testConerr out || given (str "-Xconerr") opts;
     testPlainOutput := testPlainOutput out || given (str "-Xplain") opts;
     testColorEscapes := testColorEscapes out || given (str "-Xcolor") opts |}.

Definition child_only (child : list cstr) : Arguments :=
  {| childArgv := child; mouseInput := false; testAllowNonTtys := false;
     testConerr := false; testPlainOutput := false; testColorEscapes := false |}.

Definition usage_text (program : cstr) : Trace :=
  [Fprintf STDOUT_FILENO (str "Usage: %s [options] [--] program [args]" ++ [LF])
           [PStr program];
   Fprintf STDOUT_FILENO [LF] [];
   Fprintf STDOUT_FILENO (str "Options:" ++ [LF]) [];
   Fprintf STDOUT_FILENO (str "  -h, --help  Show this help message" ++ [LF]) [];
   Fprintf STDOUT_FILENO (str "  --mouse     Enable terminal mouse input" ++ [LF]) [];
   Fprintf STDOUT_FILENO (str "  --showkey   Dump STDIN escape sequences" ++ [LF]) [];
   Fprintf STDOUT_FILENO (str "  --version   Show the winpty version number" ++ [LF]) []].

Definition unrecognized (arg : cstr) : Event :=
  Fprintf STDERR_FILENO (str "Error: unrecognized option: '%s'" ++ [LF]) [PStr arg].

(** ** More vocabulary: terminals that keep their attributes

    A descriptor [fd] is open on the terminal device [dev fd] (the three
    standard streams are often one device).  The attributes of a device after
    a trace are those of the last [tcsetattr] on a descriptor of the device,
    or the initial ones; a terminal [remembers] when [tcgetattr] reads just
    these. *)

Definition set_attributes (dev : nat -> nat) (d : nat) (cur : termios) (e : Event)
  : termios :=
  match e with
  | Tcsetattr fd m => if (dev fd =? d)%nat then m else cur
  | _ => cur
  end.

Definition attributes (dev : nat -> nat) (init : nat -> termios) (t : Trace) (d : nat)
  : termios :=
  fold_left (set_attributes dev d) t (init d).

Definition remembers (E : Env) (dev : nat -> nat) (init : nat -> termios) : Prop :=
  forall h fd, tcgetattr E h fd = Some (attributes dev init h (dev fd)).

Definition is_tcsetattr (e : Event) : bool :=
  match e with Tcsetattr _ _ => true | _ => false end.

(** The events each part of the program can produce. *)

Definition console_event (e : Event) : bool :=
  match e with
  | Fprintf _ _ _ | Perror _ | Putchar _ | Fflush _ | DumpVersionToStdout
  | Tcsetattr _ _ => true
  | _ => false
  end.

Definition env_event (e : Event) : bool :=
  match e with
  | NewWakeupFd | CygwinInternalSyncWinenv | SetEnvironmentVariableW _ _ => true
  | _ => false
  end.

Definition open_event (e : Event) : bool :=
  match e with
  | WinptyConfigNew _ | WinptyConfigSetInitialSize _ _ | WinptyConfigSetMouseMode _
  | WinptyOpen | WinptyConfigFree | WinptyErrorFree | CreateFileW _
  | Fprintf _ _ _ => true
  | _ => false
  end.

Definition spawn_event (e : Event) : bool :=
  match e with
  | FreeLibrary | WinptySpawnConfigNew _ _ | WinptySpawn | WinptySpawnConfigFree
  | WinptyErrorFree | Fprintf _ _ _ => true
  | _ => false
  end.

Definition loop_event (e : Event) : bool :=
  match e with
  | Select | WakeupReset | WinptySetSize _ _ => true
  | _ => false
  end.

(** [halts H m]: if [m] stops the process, it stops it in a way [H] allows. *)
Definition halts {A} (H : Halt -> Prop) (m : M A) : Prop :=
  forall t h t', m t = Stop h t' -> H h.

Definition launch_failure (h : Halt) : Prop :=
  h = Exited 1 \/ h = Aborted \/ h = Undefined.

(** The sample environment with one terminal behind the three streams,
    which remembers its attributes. *)
Definition one_terminal (args : list cstr) (ws : list Wakeup) (code : option Z)
           (spawn : SpawnResult) : Env :=
  let E := Sample.env args (fun _ => true) ws code in
  {| argv := argv E; execvp := execvp E; wakeup_created := wakeup_created E;
     getenv := getenv E; isatty := isatty E;
     tcgetattr := fun h fd =>
       Some (attributes (fun _ => 0%nat) (fun _ => Sample.cooked) h 0%nat);
     tcsetattr := tcsetattr E; uninitialised_termios := uninitialised_termios E;
     reads := [str "a"; ["004"%char]]; ioctl_TIOCGWINSZ := ioctl_TIOCGWINSZ E;
     mbstowcs := mbstowcs E; wcstombs := wcstombs E;
     sprintf_alt_hex := sprintf_alt_hex E; FormatMessageW := FormatMessageW E;
     winpty_config_new := winpty_config_new E; winpty_open := winpty_open E;
     CreateFileW_ok := CreateFileW_ok E; GetModuleHandleExW := GetModuleHandleExW E;
     GetModuleFileNameW := GetModuleFileNameW E;
     winpty_spawn_config_new := winpty_spawn_config_new E;
     winpty_spawn := spawn; wakeups := wakeups E;
     GetExitCodeProcess := GetExitCodeProcess E |}.

(** ** More vocabulary: the calls of a session *)

Definition worker_calls (conerr : bool) : Trace :=
  [NewWorker InputWorker Conin STDIN_FILENO;
   NewWorker OutputWorker Conout STDOUT_FILENO]
  ++ (if conerr then [NewWorker ErrorWorker Conerr STDERR_FILENO] else []).

Definition channel_calls (conerr : bool) : Trace :=
  [CreateFileW Conin; CreateFileW Conout]
  ++ (if conerr then [CreateFileW Conerr] else []).

Definition handle_eqb (a b : Handle) : bool :=
  match a, b with
  | Conin, Conin | Conout, Conout | Conerr, Conerr | ChildHandle, ChildHandle => true
  | _, _ => false
  end.

Definition opens (h : Handle) (e : Event) : bool :=
  match e with CreateFileW h' => handle_eqb h h' | _ => false end.

Definition closes (h : Handle) (e : Event) : bool :=
  match e with CloseHandle h' => handle_eqb h h' | _ => false end.

Definition count (f : Event -> bool) (t : Trace) : nat := length (filter f t).


Definition config_event (e : Event) : bool :=
  match e with
  | WinptyConfigNew _ | WinptyConfigSetInitialSize _ _ | WinptyConfigSetMouseMode _
  | WinptyOpen | WinptyConfigFree | WinptyErrorFree => true
  | _ => false
  end.

(** The calls of a session up to raw mode, and those between raw mode and
    the restore. *)
Definition session_prefix (conerr : bool) (env_calls cfg spawn_calls : Trace) : Trace :=
  [Setlocale] ++ env_calls ++ cfg ++ channel_calls conerr ++ spawn_calls ++ [Sigaction].

Definition session_between (conerr : bool) (loop_calls : Trace) : Trace :=
  worker_calls conerr ++ loop_calls ++ shutdown_calls conerr.


(** ** More vocabulary: what [--showkey] prints for the keys it reads *)

Definition key_echo (P : Platform) (c : ascii) : Trace :=
  let ctrl := decodeUnixCtrlChar P c in
  if Ascii.eqb ctrl NUL then [Putchar c] else [Putchar "^"%char; Putchar ctrl].

Definition key_code (c : ascii) : Trace :=
  let uch := Z.of_nat (nat_of_ascii c) in
  [Fprintf STDOUT_FILENO ([TAB] ++ str "%3d %04o 0x%02x" ++ [LF])
     [PInt uch; PInt uch; PInt uch];
   Fflush STDOUT_FILENO].

Definition shown (P : Platform) (buf : cstr) : Trace :=
  flat_map (key_echo P) buf ++ flat_map key_code buf.

Definition CTRL_D : ascii := "004"%char.

Definition ends_input (buf : cstr) : bool :=
  match buf with
  | [] => true
  | b0 :: _ => Ascii.eqb b0 CTRL_D
  end.


(** ** More vocabulary: the environment calls and the flags of the back end *)

Definition sync_calls (P : Platform) : Trace :=
  if CW_SYNC_WINENV_available P then [CygwinInternalSyncWinenv] else [].

(** The assertion of [heapMbsToWcs] on [text], the wide string it then
    returns, and the call that copies one variable. *)
Definition converts (P : Platform) (E : Env) (text : cstr) : bool :=
  let maxLen := size_t P (strlen text * 2 + 1) in
  let len := match mbstowcs E (c_str text) maxLen with
             | Some w => Z.of_nat (length w)
             | None => SIZE_MAX P
             end in
  negb (len =? SIZE_MAX P) && (len <? maxLen).

Definition widened (P : Platform) (E : Env) (text : cstr) : wstr :=
  match mbstowcs E (c_str text) (size_t P (strlen text * 2 + 1)) with
  | Some w => w
  | None => []
  end.

Definition copy_call (P : Platform) (E : Env) (nv : cstr * cstr) : Event :=
  SetEnvironmentVariableW (widened P E (fst nv)) (Some (widened P E (snd nv))).

Definition all_convert (P : Platform) (E : Env) (l : list (cstr * cstr)) : bool :=
  forallb (fun nv => converts P E (fst nv) && converts P E (snd nv)) l.

(** An environment with [WINPTY_DEBUG] set to [trace] and
    [WINPTY_SHOW_CONSOLE] set to the empty string. *)
Definition debug_env : Env :=
  let E := Sample.env [str "winpty"; str "cmd"] (fun _ => true) [] None in
  {| argv := argv E; execvp := execvp E; wakeup_created := wakeup_created E;
     getenv := fun name =>
       if cstr_eqb name (str "WINPTY_DEBUG") then Some (str "trace")
       else if cstr_eqb name (str "WINPTY_SHOW_CONSOLE") then Some []
       else None;
     isatty := isatty E; tcgetattr := tcgetattr E;
     tcsetattr := tcsetattr E; uninitialised_termios := uninitialised_termios E;
     reads := reads E; ioctl_TIOCGWINSZ := ioctl_TIOCGWINSZ E;
     mbstowcs := mbstowcs E; wcstombs := wcstombs E;
     sprintf_alt_hex := sprintf_alt_hex E; FormatMessageW := FormatMessageW E;
     winpty_config_new := winpty_config_new E; winpty_open := winpty_open E;
     CreateFileW_ok := CreateFileW_ok E; GetModuleHandleExW := GetModuleHandleExW E;
     GetModuleFileNameW := GetModuleFileNameW E;
     winpty_spawn_config_new := winpty_spawn_config_new E;
     winpty_spawn := winpty_spawn E; wakeups := wakeups E;
     GetExitCodeProcess := GetExitCodeProcess E |}.

Definition disjoint_flags (P : Platform) : Prop :=
  Z.land (WINPTY_FLAG_CONERR P) (WINPTY_FLAG_ALLOW_CURPROC_DESKTOP_CREATION P) = 0 /\
  Z.land (WINPTY_FLAG_PLAIN_OUTPUT P) (WINPTY_FLAG_ALLOW_CURPROC_DESKTOP_CREATION P) = 0 /\
  Z.land (WINPTY_FLAG_COLOR_ESCAPES P) (WINPTY_FLAG_ALLOW_CURPROC_DESKTOP_CREATION P) = 0 /\
  Z.land (WINPTY_FLAG_CONERR P) (WINPTY_FLAG_PLAIN_OUTPUT P) = 0 /\
  Z.land (WINPTY_FLAG_CONERR P) (WINPTY_FLAG_COLOR_ESCAPES P) = 0 /\
  Z.land (WINPTY_FLAG_PLAIN_OUTPUT P) (WINPTY_FLAG_COLOR_ESCAPES P) = 0.

(** Options as a user might give them: the error channel and plain output. *)
Definition conerr_plain : Arguments :=
  {| childArgv := [str "cmd"]; mouseInput := false; testAllowNonTtys := false;
     testConerr := true; testPlainOutput := true; testColorEscapes := false |}.


(** A child with an argument that needs quoting. *)
Definition quoting_args : Arguments :=
  {| childArgv := [str "cmd"; str "/c"; str "echo a b"]; mouseInput := false;
     testAllowNonTtys := false; testConerr := false; testPlainOutput := false;
     testColorEscapes := false |}.

(** A command line whose program has options of its own. *)
Definition launch_argv : list cstr :=
  [str "winpty"; str "-Xconerr"; str "--mouse"; str "cmd"; str "--mouse"; str "-h"].


(** The geometry the back end was last told, at its configuration or by a
    resize. *)
Definition told (t : Trace) : option (Z * Z) :=
  fold_left (fun known e => match e with
                            | WinptyConfigSetInitialSize cols rows => Some (cols, rows)
                            | WinptySetSize cols rows => Some (cols, rows)
                            | _ => known
                            end) t None.

Definition tells_size (e : Event) : bool :=
  match e with
  | WinptyConfigSetInitialSize _ _ | WinptySetSize _ _ => true
  | _ => false
  end.

(** The terminal grows while the session runs. *)
Definition grown : Wakeup := {|
  probe := {| ws_row := 40; ws_col := 120; ws_xpixel := 0; ws_ypixel := 0 |};
  inputComplete := false; outputComplete := false; errorComplete := false
|}.

Definition grown_exited : Wakeup := {|
  probe := {| ws_row := 40; ws_col := 120; ws_xpixel := 0; ws_ypixel := 0 |};
  inputComplete := false; outputComplete := true; errorComplete := false
|}.


(** Attributes with parity generation and checking enabled. *)
Definition parity_on : termios := {|
  c_iflag := 1280; c_oflag := 1; c_cflag := 304; c_lflag := 267;
  c_cc := repeat 0 18; c_ispeed := 38400; c_ospeed := 38400
|}.

(** * Theorems *)

(** ** Codec: two concrete command lines *)

Example encode_ex1 :
  Codec.argvToCommandLine [str "a b"; str "c\"; str ""; [BACKSLASH; DQUOTE; "x"%char]]
  = Some (DQUOTE :: str "a b" ++ [DQUOTE] ++ str " c\ " ++ [DQUOTE; DQUOTE; SPACE]
          ++ [BACKSLASH; BACKSLASH; BACKSLASH; DQUOTE; "x"%char]).
Proof. reflexivity. Qed.

Example decode_ex1 :
  Win32.parse_args (DQUOTE :: str "a b" ++ [DQUOTE] ++ str " c\ " ++ [DQUOTE; DQUOTE; SPACE]
          ++ [BACKSLASH; BACKSLASH; BACKSLASH; DQUOTE; "x"%char])
  = [str "a b"; str "c\"; str ""; [BACKSLASH; DQUOTE; "x"%char]].
Proof. reflexivity. Qed.

(** ** Codec: the source loop computes the worded encoding *)

Lemma ascii_eqb_false (c d : ascii) : c <> d -> Ascii.eqb c d = false.
Proof. intros H. destruct (Ascii.eqb_spec c d); congruence. Qed.

Lemma int_val_in_range (z : Z) : 0 <= z <= INT_MAX -> int_val z = Some z.
Proof.
  intros H. unfold int_val, INT_MIN, INT_MAX in *.
  destruct (Z.leb_spec (-2147483648) z); try lia.
  destruct (Z.leb_spec z 2147483647); try lia. reflexivity.
Qed.

Lemma c_str_id (a : cstr) : ~ In NUL a -> c_str a = a.
Proof.
  induction a as [|c a IH]; simpl; intros H; [reflexivity|].
  rewrite ascii_eqb_false by (intros ->; apply H; now left).
  rewrite IH; [reflexivity|]. intros Hin. apply H. now right.
Qed.

Lemma runs_last_le (a : cstr) : forall n ps t,
  Wording.runs a n = (ps, t) -> (t <= n + length a)%nat.
Proof.
  induction a as [|c a IH]; simpl; intros n ps t H.
  - inversion H; lia.
  - destruct (Ascii.eqb c BACKSLASH).
    + apply IH in H. lia.
    + destruct (Wording.runs a 0) as [ps' t'] eqn:E. inversion H; subst.
      apply IH in E. lia.
Qed.

Lemma arg_loop_runs (a : cstr) : forall result n ps t,
  ~ In NUL a ->
  Z.of_nat n + Z.of_nat (length a) < 2 ^ 30 ->
  Wording.runs a n = (ps, t) ->
  Codec.arg_loop a result (Z.of_nat n)
  = Some (result ++ concat (map Wording.encode_run ps), Z.of_nat t).
Proof.
  induction a as [|c a IH]; intros result n ps t Hnul Hlen Hruns.
  - simpl in *. inversion Hruns; subst. simpl. now rewrite app_nil_r.
  - assert (Hc : c <> NUL) by (intros ->; apply Hnul; now left).
    assert (Ha : ~ In NUL a) by (intros Hin; apply Hnul; now right).
    cbn [Codec.arg_loop Wording.runs] in *.
    rewrite (ascii_eqb_false _ _ Hc).
    change (length (c :: a)) with (S (length a)) in Hlen.
    destruct (Ascii.eqb c BACKSLASH) eqn:Ebs.
    + rewrite int_val_in_range by (unfold INT_MAX; lia).
      replace (Z.of_nat n + 1) with (Z.of_nat (S n)) by lia.
      apply IH; auto. lia.
    + destruct (Wording.runs a 0) as [ps' t'] eqn:E. inversion Hruns; subst.
      cbn [map concat Wording.encode_run].
      destruct (Ascii.eqb c DQUOTE) eqn:Edq.
      * rewrite int_val_in_range by (unfold INT_MAX; lia).
        rewrite int_val_in_range by (unfold INT_MAX; lia).
        rewrite (IH _ 0%nat ps' t Ha ltac:(lia) E).
        f_equal. f_equal. unfold push_back, append.
        apply Ascii.eqb_eq in Edq. subst c.
        replace (Z.to_nat (Z.of_nat n * 2 + 1)) with (S (2 * n)) by lia.
        rewrite <- !app_assoc. f_equal.
        change (repeat BACKSLASH (S (2 * n))) with (BACKSLASH :: repeat BACKSLASH (2 * n)).
        rewrite repeat_cons. rewrite <- !app_assoc. reflexivity.
      * rewrite (IH _ 0%nat ps' t Ha ltac:(lia) E).
        f_equal. f_equal. unfold push_back, append.
        rewrite Nat2Z.id. rewrite <- !app_assoc. reflexivity.
Qed.

Lemma arg_step_encode (idx : nat) (a result : cstr) :
  arg_ok a ->
  Codec.arg_step idx a result
  = Some (result ++ (if (0 <? idx)%nat then [SPACE] else [])
                 ++ Wording.encode_arg a).
Proof.
  intros [Hnul Hlen]. unfold Codec.arg_step, Wording.encode_arg, strchr.
  rewrite (c_str_id a Hnul).
  assert (Hq : existsb (Ascii.eqb SPACE) a || existsb (Ascii.eqb TAB) a
               || Codec.is_empty a = Wording.needs_quote a).
  { unfold Wording.needs_quote. f_equal. destruct a as [|c a]; [reflexivity|].
    simpl. apply ascii_eqb_false. intros ->. apply Hnul. now left. }
  rewrite Hq. clear Hq.
  destruct (Wording.runs a 0) as [ps t] eqn:E.
  pose proof (runs_last_le _ _ _ _ E) as Ht.
  set (r0 := if (0 <? idx)%nat then push_back result SPACE else result).
  set (r1 := if Wording.needs_quote a then push_back r0 DQUOTE else r0).
  pose proof (arg_loop_runs a r1 0%nat ps t Hnul ltac:(lia) E) as HL.
  change (Z.of_nat 0) with 0 in HL. rewrite HL. clear HL.
  subst r1 r0. unfold push_back, append.
  destruct (Wording.needs_quote a), (0 <? idx)%nat;
    rewrite ?int_val_in_range by (unfold INT_MAX; lia);
    f_equal; rewrite ?Nat2Z.id;
    replace (Z.to_nat (Z.of_nat t * 2)) with (2 * t)%nat by lia;
    simpl; rewrite <- ?app_assoc; simpl; rewrite ?app_nil_r; reflexivity.
Qed.

Lemma argv_loop_encode (argv : list cstr) : forall idx result,
  Forall arg_ok argv ->
  Codec.argv_loop argv idx result
  = Some (result ++ match argv with
                    | [] => []
                    | _ => (if (0 <? idx)%nat then [SPACE] else [])
                           ++ Wording.encode argv
                    end).
Proof.
  induction argv as [|a rest IH]; intros idx result Hok.
  - simpl. now rewrite app_nil_r.
  - inversion Hok as [|? ? Ha Hrest]; subst.
    cbn [Codec.argv_loop]. rewrite (arg_step_encode idx a result Ha).
    rewrite (IH (S idx) _ Hrest). f_equal.
    unfold Wording.encode. destruct rest as [|b rest'].
    + simpl. rewrite ?app_nil_r. rewrite <- ?app_assoc. reflexivity.
    + change (0 <? S idx)%nat with true. cbn [map Wording.join].
      rewrite <- ?app_assoc. reflexivity.
Qed.

(** ** Codec: splitting the worded encoding gives the arguments back *)

Lemma even_double (n : nat) : Nat.even (2 * n) = true.
Proof. rewrite Nat.even_mul. reflexivity. Qed.

Lemma even_succ_double (n : nat) : Nat.even (S (2 * n)) = false.
Proof. rewrite Nat.even_succ, <- Nat.negb_even, even_double. reflexivity. Qed.

Lemma repeat_snoc {A} (x : A) (n : nat) : repeat x (S n) = repeat x n ++ [x].
Proof. simpl. apply repeat_cons. Qed.

(** A run of backslashes only moves the counter. *)
Lemma split_run (k : nat) : forall s inq b cur,
  Win32.split (repeat BACKSLASH (S k) ++ s) inq b cur
  = Win32.split s inq (b + S k) (Some (Win32.started cur)).
Proof.
  induction k as [|k IH]; intros s inq b cur.
  - simpl. replace (b + 1)%nat with (S b) by lia. reflexivity.
  - change (repeat BACKSLASH (S (S k)) ++ s)
      with (BACKSLASH :: (repeat BACKSLASH (S k) ++ s)).
    cbn [Win32.split]. change (Ascii.eqb BACKSLASH BACKSLASH) with true.
    cbv iota. rewrite IH. simpl. f_equal. lia.
Qed.

Lemma split_run_started (k : nat) (s a : cstr) (inq : bool) :
  Win32.split (repeat BACKSLASH k ++ s) inq 0 (Some a)
  = Win32.split s inq k (Some a).
Proof. destruct k; [reflexivity|]. now rewrite split_run. Qed.

(** A run of backslashes followed by a quotation mark, and by any other
    character that does not end the argument. *)
Lemma split_run_quote (k : nat) (s : cstr) (inq : bool) (cur : option cstr) :
  Win32.split (repeat BACKSLASH k ++ DQUOTE :: s) inq 0 cur
  = if Nat.even k
    then Win32.split s (negb inq) 0
           (Some (Win32.started cur ++ repeat BACKSLASH (Nat.div2 k)))
    else Win32.split s inq 0
           (Some ((Win32.started cur ++ repeat BACKSLASH (Nat.div2 k)) ++ [DQUOTE])).
Proof.
  destruct k as [|k]; [reflexivity|].
  rewrite split_run. reflexivity.
Qed.

Lemma split_run_char (k : nat) (c : ascii) (s : cstr) (inq : bool)
      (cur : option cstr) :
  Ascii.eqb c BACKSLASH = false ->
  Ascii.eqb c DQUOTE = false ->
  (Ascii.eqb c SPACE || Ascii.eqb c TAB) && negb inq = false ->
  Win32.split (repeat BACKSLASH k ++ c :: s) inq 0 cur
  = Win32.split s inq 0 (Some (Win32.started cur ++ repeat BACKSLASH k ++ [c])).
Proof.
  intros Ebs Edq Ews. destruct k as [|k].
  - cbn [repeat app Win32.split]. now rewrite Ebs, Edq, Ews.
  - rewrite split_run. cbn [Win32.split Nat.add Win32.started].
    now rewrite Ebs, Edq, Ews.
Qed.

(** Inside quotes: the encoded runs, the doubled last run and the closing
    quote read back as the argument, and the parser leaves the quotes. *)
Lemma split_quoted (a : cstr) : forall n ps t cur tail,
  Wording.runs a n = (ps, t) ->
  Win32.split (concat (map Wording.encode_run ps)
               ++ repeat BACKSLASH (2 * t) ++ DQUOTE :: tail) true 0 (Some cur)
  = Win32.split tail false 0 (Some (cur ++ repeat BACKSLASH n ++ a)).
Proof.
  induction a as [|c a IH]; intros n ps t cur tail Hruns.
  - simpl in Hruns. inversion Hruns; subst. cbn [map concat app].
    rewrite split_run_quote, even_double, Nat.div2_double.
    cbn [Win32.started negb]. now rewrite app_nil_r.
  - cbn [Wording.runs] in Hruns. destruct (Ascii.eqb c BACKSLASH) eqn:Ebs.
    + apply Ascii.eqb_eq in Ebs. subst c.
      rewrite (IH _ _ _ cur tail Hruns). rewrite repeat_snoc, <- app_assoc.
      reflexivity.
    + destruct (Wording.runs a 0) as [ps' t'] eqn:E. inversion Hruns; subst.
      cbn [map concat Wording.encode_run].
      destruct (Ascii.eqb c DQUOTE) eqn:Edq.
      * apply Ascii.eqb_eq in Edq. subst c. rewrite <- !app_assoc.
        change ([BACKSLASH; DQUOTE] ++ ?x) with ([BACKSLASH] ++ DQUOTE :: x).
        rewrite app_assoc, <- repeat_snoc.
        rewrite split_run_quote, even_succ_double, Nat.div2_succ_double.
        rewrite (IH _ _ _ _ tail E). cbn [Win32.started repeat app].
        rewrite <- !app_assoc. reflexivity.
      * rewrite <- !app_assoc. cbn [app].
        rewrite split_run_char by (auto; now rewrite andb_false_r).
        rewrite (IH _ _ _ _ tail E). cbn [Win32.started repeat app].
        rewrite <- !app_assoc. reflexivity.
Qed.

(** Outside quotes, for an argument without space or tab: the encoded runs
    and the last run read back as the argument; the last run is still in the
    counter when the parser reaches what follows. *)
Lemma split_bare (a : cstr) : forall n ps t cur tail,
  existsb (Ascii.eqb SPACE) a = false ->
  existsb (Ascii.eqb TAB) a = false ->
  (0 < n + length a)%nat \/ cur <> None ->
  Wording.runs a n = (ps, t) ->
  exists pre,
    Win32.started cur ++ repeat BACKSLASH n ++ a = pre ++ repeat BACKSLASH t /\
    Win32.split (concat (map Wording.encode_run ps) ++ repeat BACKSLASH t ++ tail)
                false 0 cur
    = Win32.split tail false t (Some pre).
Proof.
  induction a as [|c a IH]; intros n ps t cur tail Hsp Htab Hne Hruns.
  - simpl in Hruns. inversion Hruns; subst. cbn [map concat app].
    exists (Win32.started cur). split; [now rewrite app_nil_r|].
    destruct t as [|t].
    + destruct cur as [x|]; [reflexivity|]. simpl in Hne. destruct Hne; [lia|congruence].
    + now rewrite split_run.
  - cbn [existsb] in Hsp, Htab. apply orb_false_elim in Hsp, Htab.
    destruct Hsp as [Hc1 Hsp], Htab as [Hc2 Htab].
    rewrite Ascii.eqb_sym in Hc1. rewrite Ascii.eqb_sym in Hc2.
    cbn [Wording.runs] in Hruns. destruct (Ascii.eqb c BACKSLASH) eqn:Ebs.
    + apply Ascii.eqb_eq in Ebs. subst c.
      destruct (IH (S n) ps t cur tail Hsp Htab ltac:(left; lia) Hruns)
        as [pre [Hpre Hsplit]].
      exists pre. split; [|exact Hsplit].
      rewrite <- Hpre, repeat_snoc, <- !app_assoc. reflexivity.
    + destruct (Wording.runs a 0) as [ps' t'] eqn:E. inversion Hruns; subst.
      cbn [map concat Wording.encode_run].
      destruct (Ascii.eqb c DQUOTE) eqn:Edq.
      * apply Ascii.eqb_eq in Edq. subst c.
        destruct (IH 0%nat ps' t
                    (Some ((Win32.started cur ++ repeat BACKSLASH n) ++ [DQUOTE]))
                    tail Hsp Htab ltac:(right; discriminate) E)
          as [pre [Hpre Hsplit]].
        exists pre. split.
        { rewrite <- Hpre. cbn [Win32.started repeat app].
          rewrite <- !app_assoc. reflexivity. }
        rewrite <- !app_assoc. rewrite <- Hsplit.
        change ([BACKSLASH; DQUOTE] ++ ?x) with ([BACKSLASH] ++ DQUOTE :: x).
        rewrite app_assoc, <- repeat_snoc.
        rewrite split_run_quote, even_succ_double, Nat.div2_succ_double.
        reflexivity.
      * destruct (IH 0%nat ps' t
                    (Some (Win32.started cur ++ repeat BACKSLASH n ++ [c]))
                    tail Hsp Htab ltac:(right; discriminate) E)
          as [pre [Hpre Hsplit]].
        exists pre. split.
        { rewrite <- Hpre. cbn [Win32.started repeat app].
          rewrite <- !app_assoc. reflexivity. }
        rewrite <- !app_assoc. rewrite <- Hsplit. cbn [app].
        rewrite split_run_char by (auto; now rewrite Hc1, Hc2).
        reflexivity.
Qed.

(** One encoded argument, read from between two arguments, followed by the
    end of the line or by the separating space. *)
Lemma split_encode_arg (a : cstr) :
  Win32.split (Wording.encode_arg a) false 0 None = [a] /\
  forall tail,
    Win32.split (Wording.encode_arg a ++ SPACE :: tail) false 0 None
    = a :: Win32.split tail false 0 None.
Proof.
  unfold Wording.encode_arg. destruct (Wording.runs a 0) as [ps t] eqn:E.
  destruct (Wording.needs_quote a) eqn:Q.
  - assert (H : forall tail,
      Win32.split (([DQUOTE] ++ concat (map Wording.encode_run ps)
                    ++ repeat BACKSLASH (2 * t) ++ [DQUOTE]) ++ tail) false 0 None
      = Win32.split tail false 0 (Some a)).
    { intros tail. cbn [app Win32.split].
      change (Ascii.eqb DQUOTE BACKSLASH) with false.
      change (Ascii.eqb DQUOTE DQUOTE) with true. cbv iota.
      cbn [Nat.even Nat.div2 repeat Win32.started app negb].
      rewrite <- !app_assoc. cbn [app].
      exact (split_quoted a 0%nat ps t [] tail E). }
    split.
    + rewrite <- (app_nil_r (_ ++ _)). rewrite H. simpl. now rewrite app_nil_r.
    + intros tail. rewrite H. simpl. now rewrite app_nil_r.
  - unfold Wording.needs_quote in Q. apply orb_false_elim in Q.
    destruct Q as [Q Hne]. apply orb_false_elim in Q. destruct Q as [Hsp Htab].
    assert (Hlen : (0 < 0 + length a)%nat) by (destruct a; [discriminate|simpl; lia]).
    split.
    + destruct (split_bare a 0%nat ps t None [] Hsp Htab (or_introl Hlen) E)
        as [pre [Hpre Hsplit]].
      rewrite app_nil_r in Hsplit. rewrite Hsplit. simpl in *. now rewrite Hpre.
    + intros tail.
      destruct (split_bare a 0%nat ps t None (SPACE :: tail) Hsp Htab
                  (or_introl Hlen) E) as [pre [Hpre Hsplit]].
      rewrite <- app_assoc. rewrite Hsplit. simpl in *. now rewrite Hpre.
Qed.

Lemma parse_args_encode (argv : list cstr) :
  Win32.parse_args (Wording.encode argv) = argv.
Proof.
  unfold Win32.parse_args, Wording.encode.
  induction argv as [|a rest IH]; [reflexivity|].
  destruct rest as [|b rest'].
  - simpl. apply split_encode_arg.
  - change (map Wording.encode_arg (a :: b :: rest'))
      with (Wording.encode_arg a :: map Wording.encode_arg (b :: rest')).
    cbn [Wording.join].
    destruct (map Wording.encode_arg (b :: rest')) as [|x xs] eqn:Em;
      [discriminate|].
    cbn [app]. rewrite (proj2 (split_encode_arg a)). now rewrite IH.
Qed.


(** ** Codec: the wording read back

    [Wording.runs] does cut an argument into its runs of backslashes, and
    [Wording.needs_quote] is the test "contains a space, a tab, or is empty". *)

Lemma runs_run (k : nat) (c : ascii) (a : cstr) : forall n ps t,
  c <> BACKSLASH ->
  Wording.runs a 0 = (ps, t) ->
  Wording.runs (repeat BACKSLASH k ++ c :: a) n = ((n + k, c)%nat :: ps, t).
Proof.
  induction k as [|k IH]; intros n ps t Hc Hruns; cbn [repeat app Wording.runs].
  - rewrite (ascii_eqb_false _ _ Hc), Hruns. now rewrite Nat.add_0_r.
  - change (Ascii.eqb BACKSLASH BACKSLASH) with true. cbv iota.
    rewrite (IH (S n) ps t Hc Hruns).
    replace (S n + k)%nat with (n + S k)%nat by lia. reflexivity.
Qed.

Lemma runs_last_run (k n : nat) :
  Wording.runs (repeat BACKSLASH k) n = ([], (n + k)%nat).
Proof.
  revert n. induction k as [|k IH]; intros n; cbn [repeat Wording.runs].
  - now rewrite Nat.add_0_r.
  - change (Ascii.eqb BACKSLASH BACKSLASH) with true. cbv iota.
    rewrite IH. replace (S n + k)%nat with (n + S k)%nat by lia. reflexivity.
Qed.

Lemma existsb_eqb_In (c : ascii) (a : cstr) :
  existsb (Ascii.eqb c) a = true <-> In c a.
Proof.
  rewrite existsb_exists. split.
  - intros [x [Hin Heq]]. apply Ascii.eqb_eq in Heq. now subst.
  - intros Hin. exists c. split; [assumption|apply Ascii.eqb_refl].
Qed.

Lemma needs_quote_iff (a : cstr) :
  Wording.needs_quote a = true <-> In SPACE a \/ In TAB a \/ a = [].
Proof.
  unfold Wording.needs_quote. rewrite !orb_true_iff, !existsb_eqb_In.
  destruct a; intuition congruence.
Qed.

(** The encoding of an argument in terms of its runs: quoted with the last
    run doubled, or bare with the last run copied. *)
Lemma encode_arg_runs (k : nat) (c : ascii) (a : cstr) :
  c <> BACKSLASH ->
  exists body : cstr,
    Wording.encode_arg (repeat BACKSLASH k ++ c :: a)
    = (if Wording.needs_quote (repeat BACKSLASH k ++ c :: a) then [DQUOTE] else [])
      ++ (if Ascii.eqb c DQUOTE
          then repeat BACKSLASH (2 * k) ++ [BACKSLASH; DQUOTE]
          else repeat BACKSLASH k ++ [c])
      ++ body.
Proof.
  intros Hc. unfold Wording.encode_arg.
  destruct (Wording.runs a 0) as [ps t] eqn:E.
  rewrite (runs_run k c a 0%nat ps t Hc E). cbn [map concat Wording.encode_run Nat.add].
  destruct (Wording.needs_quote _); eexists; rewrite <- ?app_assoc; reflexivity.
Qed.

(** ** Claims about the command-line codec *)

(** C2.  For every argument vector of C strings, [argvToCommandLine] returns
    the encoding as the specification words it: the arguments joined with
    single spaces ([Wording.join]); an argument wrapped in double quotes
    exactly when it contains a space, a tab, or is empty
    ([Wording.needs_quote], [needs_quote_iff]); a run of backslashes followed
    by a quote doubled and the quote escaped with one more backslash, a run
    followed by another character copied ([Wording.encode_run], over the runs
    of [runs_run]); the run that ends the argument doubled before the closing
    quote, or copied when the argument is not quoted ([Wording.encode_arg],
    [runs_last_run]). *)
Theorem argvToCommandLine_as_worded (argv : list cstr) :
  Forall arg_ok argv ->
  Codec.argvToCommandLine argv = Some (Wording.encode argv).
Proof.
  intros Hok. unfold Codec.argvToCommandLine.
  rewrite (argv_loop_encode argv 0%nat [] Hok).
  destruct argv; reflexivity.
Qed.

Lemma sample_argv_ok : Forall arg_ok sample_argv.
Proof.
  unfold sample_argv, arg_ok, str, NUL, TAB, DQUOTE, BACKSLASH.
  repeat (apply Forall_cons || apply Forall_nil || split);
    try (intros H; simpl in H; intuition discriminate);
    reflexivity.
Defined.

Lemma argvToCommandLine_as_worded_witness :
  Forall arg_ok sample_argv /\
  Codec.argvToCommandLine sample_argv = Some (Wording.encode sample_argv).
Proof.
  split; [exact sample_argv_ok|].
  apply (argvToCommandLine_as_worded sample_argv). exact sample_argv_ok.
Defined.

(** C1.  For every argument vector of C strings (which may contain spaces,
    tabs, double quotes and runs of backslashes), [argvToCommandLine] returns
    a command line, and splitting that command line by the documented
    argument rules gives back the argument vector, element for element. *)
Theorem argvToCommandLine_round_trip (argv : list cstr) :
  Forall arg_ok argv ->
  exists cmdline,
    Codec.argvToCommandLine argv = Some cmdline /\
    Win32.parse_args cmdline = argv.
Proof.
  intros Hok. exists (Wording.encode argv). split.
  - unfold Codec.argvToCommandLine.
    rewrite (argv_loop_encode argv 0%nat [] Hok). destruct argv; reflexivity.
  - apply parse_args_encode.
Qed.

Lemma argvToCommandLine_round_trip_witness :
  Forall arg_ok sample_argv /\
  exists cmdline,
    Codec.argvToCommandLine sample_argv = Some cmdline /\
    Win32.parse_args cmdline = sample_argv.
Proof.
  split; [exact sample_argv_ok|].
  apply (argvToCommandLine_round_trip sample_argv). exact sample_argv_ok.
Defined.

(** The round trip where [main] uses the encoding: after the quoted path of
    the executable and the [--child-exec] marker, under the rule for a whole
    command line. *)
Lemma quoted_name_spec (name rest acc : cstr) :
  ~ In DQUOTE name ->
  Win32.quoted_name (name ++ DQUOTE :: rest) acc = (acc ++ name, rest).
Proof.
  revert acc. induction name as [|c name IH]; intros acc Hq.
  - simpl. now rewrite app_nil_r.
  - cbn [app Win32.quoted_name].
    rewrite ascii_eqb_false by (intros ->; apply Hq; now left).
    rewrite IH by (intros Hin; apply Hq; now right).
    now rewrite <- app_assoc.
Qed.

Lemma child_command_line_round_trip (selfPath : cstr) (argv : list cstr) (exe : cstr) :
  ~ In DQUOTE selfPath ->
  Win32.CommandLineToArgv exe
    ([DQUOTE] ++ selfPath ++ [DQUOTE] ++ str " --child-exec " ++ Wording.encode argv)
  = selfPath :: str "--child-exec" :: argv.
Proof.
  intros Hq. cbn [app Win32.CommandLineToArgv].
  change (Ascii.eqb DQUOTE DQUOTE) with true. cbv iota.
  change (selfPath ++ DQUOTE :: str " --child-exec " ++ Wording.encode argv)
    with (selfPath ++ DQUOTE :: (str " --child-exec " ++ Wording.encode argv)).
  rewrite (quoted_name_spec selfPath _ [] Hq). cbn [app]. f_equal.
  unfold Win32.parse_args.
  change (str " --child-exec " ++ Wording.encode argv)
    with (SPACE :: (Wording.encode_arg (str "--child-exec")
                    ++ SPACE :: Wording.encode argv)).
  cbn [Win32.split]. change (Ascii.eqb SPACE BACKSLASH) with false.
  change (Ascii.eqb SPACE DQUOTE) with false.
  change (Ascii.eqb SPACE SPACE) with true. cbv iota. cbn [orb andb negb].
  rewrite (proj2 (split_encode_arg (str "--child-exec"))). f_equal.
  apply parse_args_encode.
Qed.

(** ** Runs: reasoning rules *)

Lemma bind_Ok {A B} (m : M A) (k : A -> M B) (t t' : Trace) (b : B) :
  bind m k t = Ok b t' -> exists a t1, m t = Ok a t1 /\ k a t1 = Ok b t'.
Proof.
  unfold bind. destruct (m t) as [a t1|h t1]; [|discriminate].
  intros H. now exists a, t1.
Qed.

Lemma emits_Ok {A} (Q : Event -> Prop) (m : M A) (t t' : Trace) (a : A) :
  emits Q m -> m t = Ok a t' -> exists evs, t' = t ++ evs /\ Forall Q evs.
Proof. intros Hm Heq. destruct (Hm t) as [evs [H1 H2]]. rewrite Heq in H1. eauto. Qed.

Lemma emits_ret {A} (Q : Event -> Prop) (a : A) : emits Q (ret a).
Proof. intros t. exists []. simpl. now rewrite app_nil_r. Qed.

Lemma emits_halt {A} (Q : Event -> Prop) (h : Halt) : emits Q (@halt A h).
Proof. intros t. exists []. simpl. now rewrite app_nil_r. Qed.

Lemma emits_history (Q : Event -> Prop) : emits Q history.
Proof. intros t. exists []. simpl. now rewrite app_nil_r. Qed.

Lemma emits_emit (Q : Event -> Prop) (e : Event) : Q e -> emits Q (emit e).
Proof. intros He t. exists [e]. simpl. auto. Qed.

Lemma emits_assert (Q : Event -> Prop) (b : bool) : emits Q (assert b).
Proof. destruct b; [apply emits_ret|apply emits_halt]. Qed.

Lemma emits_bind {A B} (Q : Event -> Prop) (m : M A) (k : A -> M B) :
  emits Q m -> (forall a, emits Q (k a)) -> emits Q (bind m k).
Proof.
  intros Hm Hk t. unfold bind. destruct (Hm t) as [evs [H1 H2]].
  destruct (m t) as [a t1|h t1]; simpl in H1; subst t1.
  - destruct (Hk a (t ++ evs)) as [evs' [H3 H4]].
    exists (evs ++ evs'). rewrite H3, app_assoc. split; [reflexivity|].
    apply Forall_app. now split.
  - exists evs. now split.
Qed.

Lemma emits_for_each {S} (Q : Event -> Prop) (idx : list nat)
      (body : nat -> S -> M S) :
  (forall i s, emits Q (body i s)) -> forall s, emits Q (for_each idx body s).
Proof.
  intros Hbody. induction idx as [|i idx IH]; intros s; cbn [for_each].
  - apply emits_ret.
  - apply emits_bind; [apply Hbody|exact IH].
Qed.

(** One step of a proof that a phase of the program only emits allowed
    events: through a bind, an event, a test on an answer of the environment. *)
Ltac emits_step :=
  first
    [ apply emits_ret
    | apply emits_halt
    | apply emits_history
    | apply emits_assert
    | apply emits_emit; reflexivity
    | apply emits_bind; [|intros ?]
    | apply emits_for_each; intros ? ?
    | match goal with
      | |- emits _ (if ?b then _ else _) => destruct b eqn:?
      | |- emits _ (match ?x with _ => _ end) => destruct x eqn:?
      end ].

Ltac emits_auto := repeat emits_step.

(** ** The events of each phase of [main] *)

Section Phases.

Context (P : Platform) (E : Env).

Lemma setRawTerminalMode_allowed (c a so se : bool) :
  emits (Allowed c) (setRawTerminalMode P E a so se).
Proof.
  unfold setRawTerminalMode.
  apply emits_bind; [apply emits_for_each; intros i s; unfold capture, exit; emits_auto|].
  intros r. unfold set_raw, exit. emits_auto.
Qed.

Lemma restoreTerminalMode_allowed (c : bool) (m : SavedTermiosMode) :
  emits (Allowed c) (restoreTerminalMode E m).
Proof. unfold restoreTerminalMode, restore, exit. emits_auto. Qed.

Lemma show_keys_allowed (c : bool) (input : list cstr) :
  emits (Allowed c) (show_keys P input).
Proof.
  induction input as [|buf rest IH]; cbn [show_keys]; [apply emits_halt|].
  destruct buf as [|b0 buf]; [apply emits_ret|].
  unfold show_char, show_code. emits_auto. exact IH.
Qed.

Lemma debugShowKey_allowed (c a : bool) : emits (Allowed c) (debugShowKey P E a).
Proof.
  unfold debugShowKey. emits_step; [emits_auto|].
  emits_step; [apply setRawTerminalMode_allowed|].
  emits_step; [apply show_keys_allowed|apply restoreTerminalMode_allowed].
Qed.

Lemma usage_allowed {A} (c : bool) (program : cstr) (code : Z) :
  emits (Allowed c) (@usage A program code).
Proof. unfold usage, printf, exit. emits_auto. Qed.

Lemma parse_options_allowed (c : bool) (program : cstr) (rest : list cstr) :
  forall out doShowKeys,
    emits (Allowed c) (parse_options program rest out doShowKeys).
Proof.
  induction rest as [|a rest IH]; intros out doShowKeys; cbn [parse_options].
  - apply emits_ret.
  - unfold exit.
    repeat first [ apply IH | apply usage_allowed | emits_step ].
Qed.

Lemma parseArguments_allowed (c : bool) (args : list cstr) :
  emits (Allowed c) (parseArguments P E args).
Proof.
  unfold parseArguments. emits_step; [apply parse_options_allowed|].
  destruct a as [[rest out] doShowKeys]. unfold exit.
  repeat first [ apply debugShowKey_allowed | apply usage_allowed | emits_step ].
Qed.

Lemma heapMbsToWcs_allowed (c : bool) (text : cstr) :
  emits (Allowed c) (heapMbsToWcs P E text).
Proof. unfold heapMbsToWcs. emits_auto. Qed.

Lemma copy_vars_allowed (c : bool) (l : list (cstr * cstr)) :
  emits (Allowed c) (copy_vars P E l).
Proof.
  induction l as [|[name value] l IH]; cbn [copy_vars]; [apply emits_ret|].
  repeat first [ apply heapMbsToWcs_allowed | apply IH | emits_step ].
Qed.

Lemma setupWin32Environment_allowed (c : bool) :
  emits (Allowed c) (setupWin32Environment P E).
Proof.
  unfold setupWin32Environment.
  repeat first [ apply copy_vars_allowed | emits_step ].
Qed.

Lemma new_WakeupFd_allowed (c : bool) : emits (Allowed c) (new_WakeupFd E).
Proof. unfold new_WakeupFd, abort. emits_auto. Qed.

Lemma main_open_allowed (args : Arguments) :
  emits (Allowed (testConerr args)) (main_open P E args).
Proof.
  unfold main_open, exit.
  destruct (testConerr args) eqn:Hc; emits_auto.
Qed.

Lemma main_spawn_allowed (c : bool) (args : Arguments) :
  emits (Allowed c) (main_spawn P E args).
Proof.
  unfold main_spawn, exit.
  repeat first [ apply heapMbsToWcs_allowed | emits_step ].
Qed.

Lemma main_start_allowed (args : Arguments) :
  emits (Allowed (testConerr args)) (main_start P E args).
Proof.
  unfold main_start. emits_step; [emits_auto|].
  emits_step; [apply setRawTerminalMode_allowed|].
  destruct (testConerr args) eqn:Hc; emits_auto.
Qed.

Lemma check_resize_allowed (c : bool) (sz sz2 : winsize) :
  emits (Allowed c) (check_resize sz sz2).
Proof. unfold check_resize. emits_auto. Qed.

Lemma main_loop_allowed (c : bool) (ws : list Wakeup) :
  forall eh sz, emits (Allowed c) (main_loop ws eh sz).
Proof.
  induction ws as [|w ws IH]; intros eh sz; cbn [main_loop]; [emits_auto|].
  repeat first [ apply check_resize_allowed | apply IH | emits_step ].
Qed.

End Phases.

(** ** A session that runs to completion *)

Section Session.

Context (P : Platform) (E : Env).

Lemma child_exec_stops (args : list cstr) (t t' : Trace) (v : Z) :
  child_exec E args t <> Ok v t'.
Proof.
  unfold child_exec, bind, emit, halt, exit.
  destruct (execvp E _ _); discriminate.
Qed.

(** A completed session went through every phase in turn, and the events of
    the phases before the shutdown sequence are all [Allowed]. *)
Lemma main_Ok (v : Z) (t : Trace) :
  main P E [] = Ok v t ->
  exists args mode before,
    Forall (Allowed (testConerr args)) before /\
    (exists ta tb,
        setRawTerminalMode P E (testAllowNonTtys args) true (testConerr args) ta
        = Ok mode tb) /\
    main_shutdown E args mode before = Ok v t.
Proof.
  unfold main. intros H.
  apply bind_Ok in H. destruct H as [[] [t0 [H0 H]]].
  unfold emit in H0. inversion H0; subst t0; clear H0. cbn [app] in H.
  destruct (_ && _) in H; [now apply child_exec_stops in H|].
  unfold main_session in H.
  apply bind_Ok in H. destruct H as [[] [t1 [H1 H]]].
  apply bind_Ok in H. destruct H as [args [t2 [H2 H]]].
  apply bind_Ok in H. destruct H as [[] [t3 [H3 H]]].
  apply bind_Ok in H. destruct H as [sz [t4 [H4 H]]].
  apply bind_Ok in H. destruct H as [[] [t5 [H5 H]]].
  apply bind_Ok in H. destruct H as [mode [t6 [H6 H]]].
  apply bind_Ok in H. destruct H as [sz' [t7 [H7 H]]].
  exists args, mode, t7. split; [|split; [|exact H]].
  2:{ unfold main_start in H6.
      apply bind_Ok in H6. destruct H6 as [[] [ta [_ H6]]].
      apply bind_Ok in H6. destruct H6 as [m [tb [Hraw H6]]].
      exists ta, tb. rewrite Hraw. f_equal.
      destruct (testConerr args); unfold bind, emit, ret in H6; now inversion H6. }
  set (c := testConerr args).
  apply (emits_Ok _ _ _ _ _ (new_WakeupFd_allowed E c)) in H1.
  apply (emits_Ok _ _ _ _ _ (parseArguments_allowed P E c _)) in H2.
  apply (emits_Ok _ _ _ _ _ (setupWin32Environment_allowed P E c)) in H3.
  apply (emits_Ok _ _ _ _ _ (main_open_allowed P E args)) in H4.
  apply (emits_Ok _ _ _ _ _ (main_spawn_allowed P E c args)) in H5.
  apply (emits_Ok _ _ _ _ _ (main_start_allowed P E args)) in H6.
  apply (emits_Ok _ _ _ _ _ (main_loop_allowed c _ _ _)) in H7.
  destruct H1 as [e1 [-> F1]], H2 as [e2 [-> F2]], H3 as [e3 [-> F3]],
           H4 as [e4 [-> F4]], H5 as [e5 [-> F5]], H6 as [e6 [-> F6]],
           H7 as [e7 [-> F7]].
  repeat (apply Forall_app; split); try assumption.
  repeat constructor.
Qed.

(** A restore that returns has only called [tcsetattr]. *)
Lemma restoreTerminalMode_Ok (mode : SavedTermiosMode) (t t' : Trace) :
  restoreTerminalMode E mode t = Ok tt t' ->
  exists restored,
    t' = t ++ restored /\
    Forall (fun e => exists fd m, e = Tcsetattr fd m) restored.
Proof.
  unfold restoreTerminalMode. cbn [for_each].
  unfold restore, bind, history, emit, ret, exit, halt.
  repeat match goal with
         | |- context [if negb ?b then _ else _] => destruct b; cbn [negb]
         | |- context [if tcsetattr ?e ?h ?i ?m then _ else _] =>
             destruct (tcsetattr e h i m)
         end;
    intros H; try discriminate; inversion H; subst; clear H;
    eexists; (split; [rewrite <- ?app_assoc; cbn [app]; try reflexivity;
                      symmetry; apply app_nil_r
                     |repeat constructor; eauto]).
Qed.

Lemma main_shutdown_unfold (args : Arguments) (mode : SavedTermiosMode)
      (before : Trace) :
  main_shutdown E args mode before =
    (restoreTerminalMode E mode ;;
     emit (CloseHandle ChildHandle) ;;
     ret (exit_code_of (GetExitCodeProcess E)))
      (before ++ shutdown_calls (testConerr args)).
Proof.
  unfold main_shutdown, shutdown_calls, exit_code_of.
  destruct (testConerr args), (GetExitCodeProcess E);
    unfold bind, emit, ret; simpl;
    rewrite <- ?app_assoc; simpl; rewrite ?app_nil_r; reflexivity.
Qed.

Lemma main_shutdown_Ok (args : Arguments) (mode : SavedTermiosMode)
      (before t : Trace) (v : Z) :
  main_shutdown E args mode before = Ok v t ->
  exists restored,
    restoreTerminalMode E mode (before ++ shutdown_calls (testConerr args))
    = Ok tt ((before ++ shutdown_calls (testConerr args)) ++ restored) /\
    Forall (fun e => exists fd m, e = Tcsetattr fd m) restored /\
    t = (before ++ shutdown_calls (testConerr args)) ++ restored
        ++ [CloseHandle ChildHandle] /\
    v = exit_code_of (GetExitCodeProcess E).
Proof.
  intros Hpre. rewrite main_shutdown_unfold in Hpre.
  apply bind_Ok in Hpre. destruct Hpre as [[] [t2 [H2 H1]]].
  destruct (restoreTerminalMode_Ok _ _ _ H2) as [restored [-> Hall]].
  exists restored. split; [exact H2|].
  unfold bind, emit, ret in H1. inversion H1; subst. clear H1.
  split; [exact Hall|]. split; [|reflexivity].
  rewrite <- !app_assoc. reflexivity.
Qed.

(** A restore that does not return has failed in [tcsetattr] and exits
    with code 1; so the shutdown sequence either returns the exit code of the
    child or ends the process with code 1. *)
Lemma restoreTerminalMode_Stop (mode : SavedTermiosMode) (t t' : Trace) (h : Halt) :
  restoreTerminalMode E mode t = Stop h t' -> h = Exited 1.
Proof.
  unfold restoreTerminalMode. cbn [for_each].
  unfold restore, bind, history, emit, ret, exit, halt.
  repeat match goal with
         | |- context [if negb ?b then _ else _] => destruct b; cbn [negb]
         | |- context [if tcsetattr ?e ?h ?i ?m then _ else _] =>
             destruct (tcsetattr e h i m)
         end;
    intros H; try discriminate; now inversion H.
Qed.

Lemma main_shutdown_outcome (args : Arguments) (mode : SavedTermiosMode)
      (before : Trace) :
  (exists t, main_shutdown E args mode before
             = Ok (exit_code_of (GetExitCodeProcess E)) t) \/
  (exists t, main_shutdown E args mode before = Stop (Exited 1) t).
Proof.
  rewrite main_shutdown_unfold.
  destruct (restoreTerminalMode E mode (before ++ shutdown_calls (testConerr args)))
    as [[] t1|h t1] eqn:Hr.
  - left. unfold bind at 1. rewrite Hr. unfold bind, emit, ret. eexists. reflexivity.
  - right. unfold bind at 1. rewrite Hr.
    apply restoreTerminalMode_Stop in Hr. subst h. now exists t1.
Qed.

End Session.

(** ** Claims about [main] *)

Lemma DWORD_int_of_DWORD (code : Z) : DWORD (int_of_DWORD (DWORD code)) = DWORD code.
Proof.
  unfold int_of_DWORD, DWORD.
  pose proof (Z.mod_pos_bound code (2 ^ 32) ltac:(lia)) as Hb.
  destruct (Z.ltb_spec (code mod 2 ^ 32) (2 ^ 31)).
  - apply Z.mod_mod. lia.
  - replace (code mod 2 ^ 32 - 2 ^ 32) with (code mod 2 ^ 32 + (-1) * 2 ^ 32) by lia.
    rewrite Z.mod_add by lia. apply Z.mod_mod. lia.
Qed.

Lemma int_of_DWORD_small (code : Z) :
  0 <= code < 2 ^ 31 -> int_of_DWORD (DWORD code) = code.
Proof.
  intros H. unfold int_of_DWORD, DWORD. rewrite Z.mod_small by lia.
  destruct (Z.ltb_spec code (2 ^ 31)); lia.
Qed.

(** C3.  Whenever [main] returns (the session ran to completion: no
    [exit], no failed assertion, no [execvp]), the value it returns is the
    exit code of the child as [GetExitCodeProcess] reported it, converted
    from [DWORD] to [int]: the same 32-bit value, and the same number when
    the code is below [2^31]; it is 1 when the query fails. *)
Theorem exit_code_is_child_exit_code (P : Platform) (E : Env) (v : Z) (t : Trace) :
  main P E [] = Ok v t ->
  match GetExitCodeProcess E with
  | Some code =>
      v = int_of_DWORD (DWORD code) /\
      DWORD v = DWORD code /\
      (0 <= code < 2 ^ 31 -> v = code)
  | None => v = 1
  end.
Proof.
  intros H. destruct (main_Ok P E v t H) as [args [mode [before [_ [_ Hs]]]]].
  destruct (main_shutdown_Ok E args mode before t v Hs) as [_ [_ [_ [_ ->]]]].
  unfold exit_code_of. destruct (GetExitCodeProcess E) as [code|]; [|reflexivity].
  split; [reflexivity|]. split.
  - apply DWORD_int_of_DWORD.
  - apply int_of_DWORD_small.
Qed.

Lemma exit_code_is_child_exit_code_witness :
  exists t,
    main Sample.platform (session_env (Some 7)) [] = Ok 7 t /\
    match GetExitCodeProcess (session_env (Some 7)) with
    | Some code =>
        7 = int_of_DWORD (DWORD code) /\
        DWORD 7 = DWORD code /\
        (0 <= code < 2 ^ 31 -> 7 = code)
    | None => 7 = 1
    end.
Proof.
  eexists. split.
  - vm_compute. reflexivity.
  - eapply (exit_code_is_child_exit_code Sample.platform (session_env (Some 7)) 7).
    vm_compute. reflexivity.
Defined.

(** An exit code above [INT_MAX] (here 0xC0000005) comes back as the [int]
    with the same 32 bits. *)
Example exit_code_above_INT_MAX :
  exists t,
    main Sample.platform (session_env (Some 3221225477)) [] = Ok (-1073741819) t.
Proof. eexists. vm_compute. reflexivity. Qed.

Example exit_code_query_fails :
  exists t, main Sample.platform (session_env None) [] = Ok 1 t.
Proof. eexists. vm_compute. reflexivity. Qed.

(** C4.  With [--child-exec] as first argument and at least one more
    argument, [main] calls [execvp] on the rest of [argv] right after
    [setlocale]: the process image is replaced, or, when [execvp] fails,
    [perror] prints an error and the process exits with code 1.  Nothing
    else happens: no wakeup primitive, no argument parsing, no session. *)
Theorem child_exec_first (P : Platform) (E : Env) (a0 a1 file : cstr)
        (rest : list cstr) :
  argv E = a0 :: a1 :: file :: rest ->
  c_str a1 = str "--child-exec" ->
  main P E [] =
    if execvp E (c_str file) (map c_str (file :: rest))
    then Stop Replaced
           [Setlocale; Execvp (c_str file) (map c_str (file :: rest))]
    else Stop (Exited 1)
           [Setlocale; Execvp (c_str file) (map c_str (file :: rest));
            Perror (str "error: exec failed")].
Proof.
  intros Hargv Ha1. unfold main, child_exec. rewrite Hargv.
  cbn [nth skipn length]. rewrite Ha1.
  replace (3 <=? Z.of_nat (S (S (S (length rest))))) with true
    by (symmetry; apply Z.leb_le; lia).
  change (cstr_eqb (str "--child-exec") (str "--child-exec")) with true.
  cbn [andb]. unfold bind, emit, halt, exit. cbn [app].
  destruct (execvp E _ _); reflexivity.
Qed.

Lemma child_exec_first_witness :
  let E := Sample.env [str "winpty"; str "--child-exec"; str "nonexistent-binary"]
                      (fun _ => true) [] None in
  (argv E = [str "winpty"; str "--child-exec"; str "nonexistent-binary"] /\
   c_str (str "--child-exec") = str "--child-exec") /\
  main Sample.platform E [] =
    Stop (Exited 1)
      [Setlocale; Execvp (str "nonexistent-binary") [str "nonexistent-binary"];
       Perror (str "error: exec failed")].
Proof.
  intros E. split; [split; reflexivity|].
  exact (child_exec_first Sample.platform E (str "winpty") (str "--child-exec")
           (str "nonexistent-binary") [] eq_refl eq_refl).
Defined.

(** C5.  In the shutdown of every completed session: the session is freed
    once, no handle is closed before that, and the channel handles (input,
    output, and the error channel when it was opened) are closed after it;
    the restore of the terminal modes, which is the run of
    [restoreTerminalMode] on the snapshot that [setRawTerminalMode] returned,
    comes after the shutdown of every worker that was started, and no worker
    is shut down during or after it. *)
Theorem shutdown_order (P : Platform) (E : Env) (v : Z) (t : Trace) :
  main P E [] = Ok v t ->
  (exists A B,
      t = A ++ WinptyFree :: B /\
      (forall h, ~ In (CloseHandle h) A) /\
      ~ In WinptyFree A /\ ~ In WinptyFree B /\
      In (CloseHandle Conin) B /\ In (CloseHandle Conout) B /\
      (In (CreateFileW Conerr) t -> In (CloseHandle Conerr) B)) /\
  (exists pre restored post mode,
      t = pre ++ restored ++ post /\
      (exists allow conerr ta tb,
          setRawTerminalMode P E allow true conerr ta = Ok mode tb) /\
      restoreTerminalMode E mode pre = Ok tt (pre ++ restored) /\
      (forall w h fd, In (NewWorker w h fd) t -> In (Shutdown w) pre) /\
      (forall w, ~ In (Shutdown w) (restored ++ post))).
Proof.
  intros H.
  destruct (main_Ok P E v t H) as [args [mode [before [Hbefore [Hraw Hs]]]]].
  destruct (main_shutdown_Ok E args mode before t v Hs)
    as [restored [Hrestore [Hrestored [Ht _]]]].
  rewrite Forall_forall in Hbefore, Hrestored.
  assert (Hno : forall e, allowed (testConerr args) e = false -> ~ In e before).
  { intros e He Hin. apply Hbefore in Hin. unfold Allowed in Hin. congruence. }
  assert (Hin_t : forall e, In e t ->
            In e before \/ In e (shutdown_calls (testConerr args)) \/
            (exists fd m, e = Tcsetattr fd m) \/ e = CloseHandle ChildHandle).
  { intros e He. rewrite Ht in He. rewrite !in_app_iff in He. simpl in He.
    destruct He as [[He|He]|[He|[He|[]]]]; auto. }
  split.
  - exists before,
      (tl (shutdown_calls (testConerr args)) ++ restored ++ [CloseHandle ChildHandle]).
    split; [rewrite Ht, <- app_assoc; reflexivity|].
    split; [intros h; now apply Hno|].
    split; [now apply Hno|].
    split.
    { rewrite !in_app_iff. intros [Hin|[Hin|Hin]].
      - unfold shutdown_calls in Hin. destruct (testConerr args); simpl in Hin;
          intuition discriminate.
      - apply Hrestored in Hin. destruct Hin as [fd [m Hin]]. discriminate.
      - simpl in Hin. intuition discriminate. }
    split; [apply in_or_app; left; simpl; auto|].
    split; [apply in_or_app; left; simpl; auto|].
    intros Hin. apply Hin_t in Hin.
    destruct Hin as [Hin|[Hin|[[fd [m Hin]]|Hin]]]; try discriminate.
    + apply Hbefore in Hin. unfold Allowed in Hin. simpl in Hin.
      apply in_or_app. left. rewrite Hin. simpl. auto 10.
    + unfold shutdown_calls in Hin. destruct (testConerr args); simpl in Hin;
        intuition discriminate.
  - exists (before ++ shutdown_calls (testConerr args)), restored,
      [CloseHandle ChildHandle], mode.
    split; [exact Ht|].
    split.
    { destruct Hraw as [ta [tb Hraw]]. now exists (testAllowNonTtys args),
        (testConerr args), ta, tb. }
    split; [exact Hrestore|].
    split.
    + intros w h fd Hin. apply in_or_app. right.
      destruct w; [unfold shutdown_calls; simpl; auto ..|].
      apply Hin_t in Hin.
      destruct Hin as [Hin|[Hin|[[fd' [m Hin]]|Hin]]]; try discriminate.
      * apply Hbefore in Hin. unfold Allowed in Hin. simpl in Hin.
        unfold shutdown_calls. rewrite Hin. simpl. auto 10.
      * unfold shutdown_calls in Hin. destruct (testConerr args); simpl in Hin;
          intuition discriminate.
    + intros w. rewrite in_app_iff. intros [Hin|Hin].
      * apply Hrestored in Hin. destruct Hin as [fd [m Hin]]. discriminate.
      * simpl in Hin. intuition discriminate.
Qed.

Lemma shutdown_order_witness :
  exists t,
    main Sample.platform (session_env (Some 7)) [] = Ok 7 t /\
    exists A B,
      t = A ++ WinptyFree :: B /\
      (forall h, ~ In (CloseHandle h) A) /\
      ~ In WinptyFree A /\ ~ In WinptyFree B /\
      In (CloseHandle Conin) B /\ In (CloseHandle Conout) B /\
      (In (CreateFileW Conerr) t -> In (CloseHandle Conerr) B).
Proof.
  eexists. split.
  - vm_compute. reflexivity.
  - refine (proj1 (shutdown_order Sample.platform (session_env (Some 7)) 7 _ _)).
    vm_compute. reflexivity.
Defined.

(** C8, as amended.  Invoked with no argument, the tool prints the usage
    text with [printf], that is on standard output, and exits with code 1
    (the wakeup primitive having been created). *)
Theorem no_arguments_usage (P : Platform) (E : Env) (program : cstr) :
  argv E = [program] ->
  wakeup_created E = true ->
  main P E [] =
    Stop (Exited 1)
      [Setlocale; NewWakeupFd;
       Fprintf STDOUT_FILENO (str "Usage: %s [options] [--] program [args]" ++ [LF])
               [PStr (c_str program)];
       Fprintf STDOUT_FILENO [LF] [];
       Fprintf STDOUT_FILENO (str "Options:" ++ [LF]) [];
       Fprintf STDOUT_FILENO (str "  -h, --help  Show this help message" ++ [LF]) [];
       Fprintf STDOUT_FILENO (str "  --mouse     Enable terminal mouse input" ++ [LF]) [];
       Fprintf STDOUT_FILENO (str "  --showkey   Dump STDIN escape sequences" ++ [LF]) [];
       Fprintf STDOUT_FILENO (str "  --version   Show the winpty version number" ++ [LF]) []].
Proof.
  intros Hargv Hw. unfold main, main_session, new_WakeupFd, parseArguments.
  rewrite Hargv, Hw. reflexivity.
Qed.

Lemma no_arguments_usage_witness :
  (argv no_arguments_env = [str "winpty"] /\ wakeup_created no_arguments_env = true) /\
  exists t, main Sample.platform no_arguments_env [] = Stop (Exited 1) t.
Proof.
  split; [split; reflexivity|].
  eexists.
  exact (no_arguments_usage Sample.platform no_arguments_env (str "winpty")
           eq_refl eq_refl).
Defined.

(** C8 as stated fails: invoked with no argument, the tool writes nothing at
    all on standard error. *)
Lemma no_arguments_nothing_on_stderr :
  ~ exists t fmt args,
      main Sample.platform no_arguments_env [] = Stop (Exited 1) t /\
      In (Fprintf STDERR_FILENO fmt args) t.
Proof.
  intros [t [fmt [args [Hrun Hin]]]].
  vm_compute in Hrun. inversion Hrun; subst t; clear Hrun.
  unfold STDERR_FILENO in Hin. simpl in Hin.
  repeat (destruct Hin as [Hin|Hin]; [discriminate|]). exact Hin.
Qed.

(** ** Claims about the main loop *)

Lemma winsize_eqb_eq (a b : winsize) : winsize_eqb a b = true <-> a = b.
Proof.
  unfold winsize_eqb. rewrite !andb_true_iff, !Z.eqb_eq.
  destruct a, b; simpl. split.
  - intros [[[-> ->] ->] ->]. reflexivity.
  - intros H. inversion H. auto.
Qed.

Lemma check_resize_spec (sz sz2 : winsize) (t : Trace) :
  check_resize sz sz2 t =
    if winsize_eqb sz sz2 then Ok sz t
    else Ok sz2 (t ++ [WinptySetSize (ws_col sz2) (ws_row sz2)]).
Proof.
  unfold check_resize, memcmp_winsize. destruct (winsize_eqb sz sz2); reflexivity.
Qed.

Lemma main_loop_step (w : Wakeup) (rest : list Wakeup) (eh : bool)
      (sz : winsize) (t : Trace) :
  main_loop (w :: rest) eh sz t =
    let sz' := if winsize_eqb sz (probe w) then sz else probe w in
    let t' := (t ++ [Select; WakeupReset])
              ++ (if winsize_eqb sz (probe w) then []
                  else [WinptySetSize (ws_col (probe w)) (ws_row (probe w))]) in
    if any_complete w eh then Ok sz' t' else main_loop rest eh sz' t'.
Proof.
  cbn [main_loop]. unfold bind, emit. rewrite check_resize_spec.
  rewrite <- app_assoc. cbn [app].
  destruct (winsize_eqb sz (probe w)), (any_complete w eh);
    cbn zeta; unfold ret; rewrite ?app_nil_r; reflexivity.
Qed.

Lemma resizes_app (a b : Trace) : resizes (a ++ b) = resizes a ++ resizes b.
Proof. apply flat_map_app. Qed.

(** C10.  The resize check compares the whole [winsize]: when a probe
    differs from the cached structure in a pixel-size field only, the
    iteration still notifies the back end, and the notification carries
    the columns and rows alone (which are those already cached). *)
Theorem pixel_change_forwards_resize (w : Wakeup) (rest : list Wakeup)
        (eh : bool) (sz : winsize) (t : Trace) :
  ws_col (probe w) = ws_col sz ->
  ws_row (probe w) = ws_row sz ->
  ws_xpixel (probe w) <> ws_xpixel sz \/ ws_ypixel (probe w) <> ws_ypixel sz ->
  exists later,
    result_trace (main_loop (w :: rest) eh sz t)
    = t ++ [Select; WakeupReset; WinptySetSize (ws_col sz) (ws_row sz)] ++ later.
Proof.
  intros Hcol Hrow Hpix. rewrite main_loop_step.
  assert (Hne : winsize_eqb sz (probe w) = false).
  { destruct (winsize_eqb sz (probe w)) eqn:Heq; [|reflexivity].
    apply winsize_eqb_eq in Heq. rewrite <- Heq in Hpix. intuition congruence. }
  rewrite Hne, Hcol, Hrow. cbn zeta.
  destruct (any_complete w eh).
  - exists []. simpl. rewrite <- app_assoc. reflexivity.
  - destruct (main_loop_allowed false rest eh (probe w)
                ((t ++ [Select; WakeupReset])
                 ++ [WinptySetSize (ws_col sz) (ws_row sz)])) as [later [Hl _]].
    exists later. rewrite Hl. rewrite <- !app_assoc. reflexivity.
Qed.

Lemma pixel_change_forwards_resize_witness :
  exists later,
    result_trace (main_loop [wakeup_at 25 80 640 400 true] false fallback_winsize [])
    = [] ++ [Select; WakeupReset; WinptySetSize 80 25] ++ later.
Proof.
  apply (pixel_change_forwards_resize (wakeup_at 25 80 640 400 true) [] false
           fallback_winsize []).
  - reflexivity.
  - reflexivity.
  - left. simpl. lia.
Defined.

(** While the probes equal the cache the loop forwards nothing. *)
Lemma main_loop_same (ws : list Wakeup) (eh : bool) (sz : winsize) :
  Forall (fun w => probe w = sz) ws ->
  forall t, resizes (result_trace (main_loop ws eh sz t)) = resizes t.
Proof.
  induction ws as [|w ws IH]; intros Hall t.
  - cbn [main_loop]. unfold bind, emit, halt. cbn [result_trace].
    rewrite resizes_app. cbn. apply app_nil_r.
  - inversion Hall as [|? ? Hw Hws]; subst.
    assert (Hsame : winsize_eqb (probe w) (probe w) = true)
      by now apply winsize_eqb_eq.
    rewrite main_loop_step, Hsame. cbn zeta. rewrite app_nil_r.
    destruct (any_complete w eh).
    + cbn [result_trace]. rewrite resizes_app. cbn. apply app_nil_r.
    + rewrite (IH Hws). rewrite resizes_app. cbn. apply app_nil_r.
Qed.

(** Probes that equal the cache, with no worker complete, are passed
    without a notification. *)
Lemma main_loop_skip (same rest : list Wakeup) (eh : bool) (sz : winsize) :
  Forall (fun w => probe w = sz /\ any_complete w eh = false) same ->
  forall t, exists t',
    resizes t' = resizes t /\
    main_loop (same ++ rest) eh sz t = main_loop rest eh sz t'.
Proof.
  induction same as [|w same IH]; intros Hall t.
  - exists t. now split.
  - inversion Hall as [|? ? [Hw Hc] Hsame]; subst.
    assert (Heq : winsize_eqb (probe w) (probe w) = true)
      by now apply winsize_eqb_eq.
    cbn [app]. rewrite main_loop_step, Heq, Hc. cbn zeta. rewrite app_nil_r.
    destruct (IH Hsame (t ++ [Select; WakeupReset])) as [t' [Hr Hrun]].
    exists t'. split; [|exact Hrun].
    rewrite Hr, resizes_app. cbn. apply app_nil_r.
Qed.

(** C6, as amended.  A resize is forwarded in an iteration exactly when the
    probed [winsize] structure, pixel sizes included, differs from the cached
    one, and then the cache becomes the probed structure.  So for successive
    probes that first equal the cache, of geometry (80,25), and then all equal
    one structure of geometry (120,40), the back end receives exactly one
    resize notification, (120,40); the sequence (80,25), (80,25), (120,40),
    (120,40) is the case of two probes and two probes, when the pixel sizes
    change only together with the geometry. *)
Theorem resize_forwarded_when_winsize_differs :
  (forall sz sz2 t,
      check_resize sz sz2 t =
        if winsize_eqb sz sz2 then Ok sz t
        else Ok sz2 (t ++ [WinptySetSize (ws_col sz2) (ws_row sz2)])) /\
  (forall sz sz2, winsize_eqb sz sz2 = true <-> sz = sz2) /\
  (forall (same : list Wakeup) (changed : Wakeup) (after : list Wakeup)
          (eh : bool) (sz : winsize),
      geometry sz = (80, 25) ->
      Forall (fun w => probe w = sz /\ any_complete w eh = false) same ->
      geometry (probe changed) = (120, 40) ->
      Forall (fun w => probe w = probe changed) after ->
      resizes (result_trace (main_loop (same ++ changed :: after) eh sz []))
      = [(120, 40)]).
Proof.
  split; [exact check_resize_spec|]. split; [exact winsize_eqb_eq|].
  intros same changed after eh sz Hsz Hsame Hgeo Hafter.
  destruct (main_loop_skip same (changed :: after) eh sz Hsame []) as [t' [Hr Hrun]].
  rewrite Hrun. clear Hrun.
  assert (Hdiff : winsize_eqb sz (probe changed) = false).
  { destruct (winsize_eqb sz (probe changed)) eqn:Heq; [|reflexivity].
    apply winsize_eqb_eq in Heq. rewrite <- Heq, Hsz in Hgeo. discriminate. }
  rewrite main_loop_step, Hdiff. cbn zeta.
  unfold geometry in Hgeo. inversion Hgeo as [[Hc Hrows]]. rewrite Hc, Hrows.
  destruct (any_complete changed eh).
  - cbn [result_trace]. rewrite !resizes_app, Hr. reflexivity.
  - rewrite (main_loop_same after eh (probe changed) Hafter).
    rewrite !resizes_app, Hr. reflexivity.
Qed.

Lemma resize_forwarded_when_winsize_differs_witness :
  let same := [wakeup_at 25 80 0 0 false; wakeup_at 25 80 0 0 false] in
  let changed := wakeup_at 40 120 960 640 false in
  let after := [wakeup_at 40 120 960 640 true] in
  geometry fallback_winsize = (80, 25) /\
  map (fun w => geometry (probe w)) (same ++ changed :: after)
  = [(80, 25); (80, 25); (120, 40); (120, 40)] /\
  resizes (result_trace (main_loop (same ++ changed :: after) false
                                   fallback_winsize []))
  = [(120, 40)].
Proof.
  intros same changed after. split; [reflexivity|]. split; [reflexivity|].
  apply (proj2 (proj2 resize_forwarded_when_winsize_differs) same changed after
           false fallback_winsize).
  - reflexivity.
  - repeat constructor.
  - reflexivity.
  - repeat constructor.
Defined.

(** C6 as stated fails: the four probes below have the geometries
    (80,25), (80,25), (120,40), (120,40) and the cache starts at (80,25),
    yet the back end receives two resize notifications, the first for the
    second probe, whose geometry is the cached one and whose pixel sizes are
    not. *)
Lemma same_geometry_forwarded_twice :
  let ws := [wakeup_at 25 80 0 0 false; wakeup_at 25 80 640 400 false;
             wakeup_at 40 120 960 640 false; wakeup_at 40 120 960 640 true] in
  geometry fallback_winsize = (80, 25) /\
  map (fun w => geometry (probe w)) ws = [(80, 25); (80, 25); (120, 40); (120, 40)] /\
  resizes (result_trace (main_loop ws false fallback_winsize []))
  = [(80, 25); (120, 40)].
Proof. repeat split. Qed.

(** ** Claims about the terminal mode controller *)

Section TerminalModes.

Context (P : Platform) (E : Env).

(** One step of the first loop of [setRawTerminalMode], on a stream the
    caller asked for: it goes on only with the stream marked valid exactly
    when it is a terminal. *)
Lemma capture_three (allow so se : bool) (t t' : Trace) (r : SavedTermiosMode) :
  for_each [0; 1; 2]%nat (capture E allow)
    {| valid := [true; so; se];
       mode := [uninitialised_termios E; uninitialised_termios E;
                uninitialised_termios E] |} t = Ok r t' ->
  valid r = [isatty E 0; so && isatty E 1; se && isatty E 2]%nat.
Proof.
  cbn [for_each]. unfold capture, valid_at, bind, history, emit, ret, exit, halt.
  cbn [valid mode nth set_nth negb].
  destruct (isatty E 0); cbn [negb valid mode nth set_nth];
    [destruct (tcgetattr E t 0); cbn [valid mode nth set_nth]|destruct allow; cbn [negb]];
    try discriminate;
    (destruct so; cbn [negb valid mode nth set_nth andb];
     [destruct (isatty E 1); cbn [negb valid mode nth set_nth];
      [destruct (tcgetattr E t 1); cbn [valid mode nth set_nth]
      |try (destruct allow; cbn [negb])]|]);
    try discriminate;
    (destruct se; cbn [negb valid mode nth set_nth andb];
     [destruct (isatty E 2); cbn [negb valid mode nth set_nth];
      [destruct (tcgetattr E t 2); cbn [valid mode nth set_nth]
      |try (destruct allow; cbn [negb])]|]);
    try discriminate;
    intros H; inversion H; subst; reflexivity.
Qed.

Lemma setRawTerminalMode_valid (allow so se : bool) (t t' : Trace)
      (r : SavedTermiosMode) :
  setRawTerminalMode P E allow so se t = Ok r t' ->
  valid r = [isatty E 0; so && isatty E 1; se && isatty E 2]%nat.
Proof.
  unfold setRawTerminalMode. intros H.
  apply bind_Ok in H. destruct H as [r1 [t1 [H1 H]]].
  apply bind_Ok in H. destruct H as [[] [t2 [_ H]]].
  apply bind_Ok in H. destruct H as [[] [t3 [_ H]]].
  unfold ret in H. inversion H; subst r1 t3; clear H.
  exact (capture_three allow so se t t1 r H1).
Qed.

Lemma set_raw_on_terminal (fd : nat) (change : termios -> termios) :
  isatty E fd = true -> emits (on_terminal E) (set_raw E fd change).
Proof.
  intros Htty. unfold set_raw, exit.
  repeat first
    [ apply emits_emit; intros fd' m' Heq; (discriminate || (inversion Heq; subst; assumption))
    | emits_step ].
Qed.

Lemma capture_on_terminal (allow : bool) (i : nat) (r : SavedTermiosMode) :
  emits (on_terminal E) (capture E allow i r).
Proof.
  unfold capture, exit.
  repeat first
    [ apply emits_emit; intros fd' m' Heq; discriminate
    | emits_step ].
Qed.

Lemma setRawTerminalMode_on_terminal (allow so se : bool) :
  emits (on_terminal E) (setRawTerminalMode P E allow so se).
Proof.
  unfold setRawTerminalMode. intros t. unfold bind at 1.
  destruct (emits_for_each (on_terminal E) [0; 1; 2]%nat (capture E allow)
              (capture_on_terminal allow)
              {| valid := [true; so; se];
                 mode := [uninitialised_termios E; uninitialised_termios E;
                          uninitialised_termios E] |} t) as [evs [Hevs Hall]].
  destruct (for_each _ _ _ t) as [r t1|h t1] eqn:Hloop; simpl in Hevs; subst t1;
    [|exists evs; now split].
  pose proof (capture_three allow so se t _ r Hloop) as Hvalid.
  assert (Hrest : emits (on_terminal E)
    ((if valid_at r STDIN_FILENO then set_raw E STDIN_FILENO (raw_input P) else ret tt) ;;
     for_each [STDOUT_FILENO; STDERR_FILENO]
       (fun i _ => if negb (valid_at r i) then ret tt else set_raw E i (raw_output P)) tt ;;
     ret r)).
  { unfold valid_at. rewrite Hvalid.
    apply emits_bind.
    - cbn [nth STDIN_FILENO]. destruct (isatty E 0) eqn:H0; [|apply emits_ret].
      now apply set_raw_on_terminal.
    - intros _. cbn [for_each]. unfold STDOUT_FILENO, STDERR_FILENO. cbn [nth].
      apply emits_bind; [|intros _; apply emits_ret].
      apply emits_bind; [|intros ?; apply emits_bind; [|intros ?; apply emits_ret]].
      + destruct (so && isatty E 1) eqn:H1; cbn [negb]; [|apply emits_ret].
        apply andb_true_iff in H1. now apply set_raw_on_terminal.
      + destruct (se && isatty E 2) eqn:H2; cbn [negb]; [|apply emits_ret].
        apply andb_true_iff in H2. now apply set_raw_on_terminal. }
  destruct (Hrest (t ++ evs)) as [evs' [Hevs' Hall']].
  exists (evs ++ evs'). rewrite Hevs', app_assoc. split; [reflexivity|].
  apply Forall_app. now split.
Qed.

Lemma restoreTerminalMode_restores (original : SavedTermiosMode) :
  emits (restores E original) (restoreTerminalMode E original).
Proof.
  unfold restoreTerminalMode. apply emits_for_each. intros i [].
  unfold restore, exit.
  destruct (valid_at original i) eqn:Hv; cbn [negb]; [|apply emits_ret].
  repeat first
    [ apply emits_emit; intros fd' m' Heq;
      (discriminate || (inversion Heq; subst; now split))
    | emits_step ].
Qed.

End TerminalModes.

(** C7.  [restoreTerminalMode] calls [tcsetattr] only on a stream whose
    validity flag is true, with the attributes saved for it; so a stream
    whose flag is false is never restored.  When [setRawTerminalMode]
    returns, a stream that is not a terminal (which makes it return only if
    non-tty operation is allowed) is recorded as not valid, was not put in
    raw mode, and is skipped by every later restore of the snapshot. *)
Theorem restore_skips_invalid_streams (P : Platform) (E : Env) :
  (forall original t,
      exists evs,
        result_trace (restoreTerminalMode E original t) = t ++ evs /\
        forall fd m, In (Tcsetattr fd m) evs ->
          valid_at original fd = true /\
          m = nth fd (mode original) (uninitialised_termios E)) /\
  (forall allow so se t r t',
      setRawTerminalMode P E allow so se t = Ok r t' ->
      forall fd, isatty E fd = false ->
        valid_at r fd = false /\
        (exists evs, t' = t ++ evs /\ forall m, ~ In (Tcsetattr fd m) evs) /\
        (forall t2, exists evs,
            result_trace (restoreTerminalMode E r t2) = t2 ++ evs /\
            forall m, ~ In (Tcsetattr fd m) evs)).
Proof.
  assert (Hrestore : forall original t,
      exists evs,
        result_trace (restoreTerminalMode E original t) = t ++ evs /\
        forall fd m, In (Tcsetattr fd m) evs ->
          valid_at original fd = true /\
          m = nth fd (mode original) (uninitialised_termios E)).
  { intros original t.
    destruct (restoreTerminalMode_restores E original t) as [evs [Hevs Hall]].
    exists evs. split; [exact Hevs|]. intros fd m Hin.
    rewrite Forall_forall in Hall. exact (Hall _ Hin fd m eq_refl). }
  split; [exact Hrestore|].
  intros allow so se t r t' Hraw fd Htty.
  assert (Hv : valid_at r fd = false).
  { unfold valid_at. rewrite (setRawTerminalMode_valid P E allow so se t t' r Hraw).
    destruct fd as [|[|[|fd]]]; cbn [nth]; rewrite ?Htty, ?andb_false_r;
      try reflexivity. destruct fd; reflexivity. }
  split; [exact Hv|]. split.
  - destruct (emits_Ok _ _ _ _ _ (setRawTerminalMode_on_terminal P E allow so se) Hraw)
      as [evs [-> Hall]].
    exists evs. split; [reflexivity|]. intros m Hin.
    rewrite Forall_forall in Hall. specialize (Hall _ Hin fd m eq_refl). congruence.
  - intros t2. destruct (Hrestore r t2) as [evs [Hevs Hall]].
    exists evs. split; [exact Hevs|]. intros m Hin.
    destruct (Hall fd m Hin) as [Hvalid _]. congruence.
Qed.

Lemma restore_skips_invalid_streams_witness :
  exists r t',
    setRawTerminalMode Sample.platform piped_env true true false [] = Ok r t' /\
    isatty piped_env 1 = false /\
    valid_at r 1 = false /\
    (exists evs, t' = [] ++ evs /\ forall m, ~ In (Tcsetattr 1 m) evs) /\
    (forall t2, exists evs,
        result_trace (restoreTerminalMode piped_env r t2) = t2 ++ evs /\
        forall m, ~ In (Tcsetattr 1 m) evs).
Proof.
  eexists. eexists. split; [vm_compute; reflexivity|].
  split; [reflexivity|].
  eapply (proj2 (restore_skips_invalid_streams Sample.platform piped_env)
            true true false []).
  - vm_compute. reflexivity.
  - reflexivity.
Defined.

(** ** Claims about the character-set conversion helpers *)

Lemma size_t_small (P : Platform) (z : Z) :
  0 <= z <= SIZE_MAX P -> size_t P z = z.
Proof. intros H. unfold size_t. apply Z.mod_small. lia. Qed.

Lemma strlen_nonneg (text : cstr) : 0 <= strlen text.
Proof. unfold strlen. lia. Qed.

Lemma wcslen_nonneg (text : wstr) : 0 <= wcslen text.
Proof. unfold wcslen. lia. Qed.

(** C9.  [heapMbsToWcs] allocates [strlen(text) * 2 + 1] wide characters;
    when [mbstowcs] reports neither an error nor a truncation it returns the
    buffer with the converted string, and in both of these cases its
    assertion fails.  [heapWcsToMbs] allocates [wcslen(text) * 3 + 1] bytes;
    when [wcstombs] reports neither an error nor a truncation it returns the
    buffer with the converted string, which [wcsToMbs] returns as a string,
    and in both of these cases it returns NULL, for which [wcsToMbs] returns
    the empty string.  These are the only ways the helpers end.  (The sizes
    are those of [size_t] arithmetic that does not wrap around.) *)
Theorem conversion_helpers (P : Platform) (E : Env) :
  (forall text, strlen text * 2 + 1 <= SIZE_MAX P ->
     (forall t w,
         mbstowcs E (c_str text) (strlen text * 2 + 1) = Some w ->
         Z.of_nat (length w) < strlen text * 2 + 1 ->
         heapMbsToWcs P E text t
         = Ok {| capacity := strlen text * 2 + 1; contents := w |} t) /\
     (forall t buf t',
         heapMbsToWcs P E text t = Ok buf t' ->
         capacity buf = strlen text * 2 + 1 /\
         mbstowcs E (c_str text) (capacity buf) = Some (contents buf) /\
         Z.of_nat (length (contents buf)) < capacity buf) /\
     (forall t,
         mbstowcs E (c_str text) (strlen text * 2 + 1) = None \/
         (exists w, mbstowcs E (c_str text) (strlen text * 2 + 1) = Some w /\
                    strlen text * 2 + 1 <= Z.of_nat (length w)) ->
         heapMbsToWcs P E text t = Stop Aborted t)) /\
  (forall text, wcslen text * 3 + 1 <= SIZE_MAX P ->
     (forall s,
         wcstombs E (w_str text) (wcslen text * 3 + 1) = Some s ->
         Z.of_nat (length s) < wcslen text * 3 + 1 ->
         heapWcsToMbs P E text
         = Some {| capacity := wcslen text * 3 + 1; contents := s |} /\
         wcsToMbs P E text = c_str s) /\
     (forall buf,
         heapWcsToMbs P E text = Some buf ->
         capacity buf = wcslen text * 3 + 1 /\
         wcstombs E (w_str text) (capacity buf) = Some (contents buf) /\
         Z.of_nat (length (contents buf)) < capacity buf) /\
     (wcstombs E (w_str text) (wcslen text * 3 + 1) = None \/
      (exists s, wcstombs E (w_str text) (wcslen text * 3 + 1) = Some s /\
                 wcslen text * 3 + 1 <= Z.of_nat (length s)) ->
      heapWcsToMbs P E text = None /\ wcsToMbs P E text = [])).
Proof.
  split.
  - intros text Hsize.
    pose proof (strlen_nonneg text) as Hlen.
    assert (Hmax : size_t P (strlen text * 2 + 1) = strlen text * 2 + 1)
      by (apply size_t_small; lia).
    split; [|split].
    + intros t w Hconv Hfit. unfold heapMbsToWcs, bind, assert, ret, abort, halt.
      rewrite Hmax, Hconv.
      destruct (Z.eqb_spec (Z.of_nat (length w)) (SIZE_MAX P)); [lia|].
      destruct (Z.ltb_spec (Z.of_nat (length w)) (strlen text * 2 + 1)); [|lia].
      reflexivity.
    + intros t buf t'. unfold heapMbsToWcs, bind, assert, ret, abort, halt.
      rewrite Hmax.
      destruct (mbstowcs E (c_str text) (strlen text * 2 + 1)) as [w|] eqn:Hconv.
      * destruct (Z.eqb_spec (Z.of_nat (length w)) (SIZE_MAX P)); cbn [negb andb];
          [discriminate|].
        destruct (Z.ltb_spec (Z.of_nat (length w)) (strlen text * 2 + 1));
          [|discriminate].
        intros Hok. inversion Hok; subst. cbn [capacity contents]. auto.
      * rewrite Z.eqb_refl. discriminate.
    + intros t Hfail. unfold heapMbsToWcs, bind, assert, ret, abort, halt.
      rewrite Hmax. destruct Hfail as [Hconv|[w [Hconv Htrunc]]]; rewrite Hconv.
      * rewrite Z.eqb_refl. reflexivity.
      * destruct (Z.ltb_spec (Z.of_nat (length w)) (strlen text * 2 + 1)); [lia|].
        rewrite andb_false_r. reflexivity.
  - intros text Hsize.
    pose proof (wcslen_nonneg text) as Hlen.
    assert (Hmax : size_t P (wcslen text * 3 + 1) = wcslen text * 3 + 1)
      by (apply size_t_small; lia).
    split; [|split].
    + intros s Hconv Hfit.
      assert (Hsome : heapWcsToMbs P E text
                      = Some {| capacity := wcslen text * 3 + 1; contents := s |}).
      { unfold heapWcsToMbs. rewrite Hmax, Hconv.
        destruct (Z.eqb_spec (Z.of_nat (length s)) (SIZE_MAX P)); [lia|].
        destruct (Z.leb_spec (wcslen text * 3 + 1) (Z.of_nat (length s))); [lia|].
        reflexivity. }
      split; [exact Hsome|]. unfold wcsToMbs. now rewrite Hsome.
    + intros buf. unfold heapWcsToMbs. rewrite Hmax.
      destruct (wcstombs E (w_str text) (wcslen text * 3 + 1)) as [s|] eqn:Hconv.
      * destruct (Z.eqb_spec (Z.of_nat (length s)) (SIZE_MAX P)); cbn [orb];
          [discriminate|].
        destruct (Z.leb_spec (wcslen text * 3 + 1) (Z.of_nat (length s)));
          [discriminate|].
        intros Hok. inversion Hok; subst. cbn [capacity contents]. auto.
      * rewrite Z.eqb_refl. discriminate.
    + intros Hfail.
      assert (Hnull : heapWcsToMbs P E text = None).
      { unfold heapWcsToMbs. rewrite Hmax.
        destruct Hfail as [Hconv|[s [Hconv Htrunc]]]; rewrite Hconv.
        - rewrite Z.eqb_refl. reflexivity.
        - destruct (Z.leb_spec (wcslen text * 3 + 1) (Z.of_nat (length s))); [|lia].
          rewrite orb_true_r. reflexivity. }
      split; [exact Hnull|]. unfold wcsToMbs. now rewrite Hnull.
Qed.

Lemma conversion_helpers_witness :
  (strlen (str "cmd /c") * 2 + 1 <= SIZE_MAX Sample.platform /\
   heapMbsToWcs Sample.platform strict_env (str "cmd /c") []
   = Ok {| capacity := 13; contents := L (str "cmd /c") |} []) /\
  (wcslen (L (str "error")) * 3 + 1 <= SIZE_MAX Sample.platform /\
   (heapWcsToMbs Sample.platform no_arguments_env (L (str "error"))
    = Some {| capacity := 16; contents := str "error" |} /\
    wcsToMbs Sample.platform no_arguments_env (L (str "error")) = str "error") /\
   (heapWcsToMbs Sample.platform strict_env (L (str "error")) = None /\
    wcsToMbs Sample.platform strict_env (L (str "error")) = [])).
Proof.
  assert (Hn : strlen (str "cmd /c") * 2 + 1 <= SIZE_MAX Sample.platform)
    by (vm_compute; discriminate).
  assert (Hw : wcslen (L (str "error")) * 3 + 1 <= SIZE_MAX Sample.platform)
    by (vm_compute; discriminate).
  split.
  - split; [exact Hn|].
    apply (proj1 (proj1 (conversion_helpers Sample.platform strict_env)
                    (str "cmd /c") Hn) [] (L (str "cmd /c"))).
    + reflexivity.
    + vm_compute. reflexivity.
  - split; [exact Hw|]. split.
    + apply (proj1 (proj2 (conversion_helpers Sample.platform no_arguments_env)
                      (L (str "error")) Hw) (str "error")).
      * reflexivity.
      * vm_compute. reflexivity.
    + apply (proj2 (proj2 (proj2 (conversion_helpers Sample.platform strict_env)
                             (L (str "error")) Hw))).
      left. reflexivity.
Defined.

(** * Further properties of the code *)

(** ** [argvToCommandLine]: plain arguments, NUL, concatenation *)

Lemma existsb_eqb_false (c : ascii) (a : cstr) :
  ~ In c a -> existsb (Ascii.eqb c) a = false.
Proof.
  intros H. destruct (existsb (Ascii.eqb c) a) eqn:E; [|reflexivity].
  apply existsb_eqb_In in E. contradiction.
Qed.

Lemma encode_runs_plain (a : cstr) : forall n ps t,
  ~ In DQUOTE a ->
  Wording.runs a n = (ps, t) ->
  concat (map Wording.encode_run ps) ++ repeat BACKSLASH t
  = repeat BACKSLASH n ++ a.
Proof.
  induction a as [|c a IH]; intros n ps t Hq Hruns; cbn [Wording.runs] in Hruns.
  - inversion Hruns; subst. simpl. now rewrite app_nil_r.
  - assert (Hc : c <> DQUOTE) by (intros ->; apply Hq; now left).
    assert (Ha : ~ In DQUOTE a) by (intros Hin; apply Hq; now right).
    destruct (Ascii.eqb c BACKSLASH) eqn:Ebs.
    + apply Ascii.eqb_eq in Ebs. subst c.
      rewrite (IH _ _ _ Ha Hruns), repeat_snoc, <- app_assoc. reflexivity.
    + destruct (Wording.runs a 0) as [ps' t'] eqn:E. inversion Hruns; subst.
      cbn [map concat Wording.encode_run]. rewrite (ascii_eqb_false _ _ Hc).
      rewrite <- !app_assoc. rewrite (IH _ _ _ Ha E). reflexivity.
Qed.

Lemma encode_arg_plain (a : cstr) : plain_arg a -> Wording.encode_arg a = a.
Proof.
  intros [Hne [Hsp [Htab Hq]]]. unfold Wording.encode_arg.
  destruct (Wording.runs a 0) as [ps t] eqn:E.
  assert (Hnq : Wording.needs_quote a = false).
  { unfold Wording.needs_quote.
    rewrite (existsb_eqb_false _ _ Hsp), (existsb_eqb_false _ _ Htab).
    destruct a; [congruence|reflexivity]. }
  rewrite Hnq. exact (encode_runs_plain a 0%nat ps t Hq E).
Qed.

(** Arguments that are not empty and hold no space, tab or double quote
    reach the command line unchanged, backslashes included: the command line
    is the arguments joined with single spaces. *)
Theorem plain_arguments_pass_through (argv : list cstr) :
  Forall arg_ok argv ->
  Forall plain_arg argv ->
  Codec.argvToCommandLine argv = Some (Wording.join argv).
Proof.
  intros Hok Hplain. unfold Codec.argvToCommandLine.
  rewrite (argv_loop_encode argv 0%nat [] Hok).
  assert (Hmap : map Wording.encode_arg argv = argv).
  { clear Hok. induction Hplain as [|a l Ha _ IH]; [reflexivity|].
    cbn [map]. now rewrite (encode_arg_plain a Ha), IH. }
  unfold Wording.encode. rewrite Hmap. destruct argv; reflexivity.
Qed.

Lemma plain_argv_ok : Forall arg_ok plain_argv /\ Forall plain_arg plain_argv.
Proof.
  unfold plain_argv, arg_ok, plain_arg, str, NUL, TAB, DQUOTE, SPACE.
  split;
    repeat (apply Forall_cons || apply Forall_nil || split);
    try discriminate;
    try (intros H; simpl in H; intuition discriminate);
    reflexivity.
Defined.

Lemma plain_arguments_pass_through_witness :
  (Forall arg_ok plain_argv /\ Forall plain_arg plain_argv) /\
  Codec.argvToCommandLine plain_argv = Some (str "cmd.exe /c dir C:\Users\me\").
Proof.
  split; [exact plain_argv_ok|].
  exact (plain_arguments_pass_through plain_argv (proj1 plain_argv_ok)
           (proj2 plain_argv_ok)).
Defined.

Lemma c_str_idem (a : cstr) : c_str (c_str a) = c_str a.
Proof.
  induction a as [|c a IH]; [reflexivity|]. cbn [c_str].
  destruct (Ascii.eqb c NUL) eqn:E; [reflexivity|].
  cbn [c_str]. now rewrite E, IH.
Qed.

Lemma arg_loop_c_str (a : cstr) : forall result n,
  Codec.arg_loop a result n = Codec.arg_loop (c_str a) result n.
Proof.
  induction a as [|c a IH]; intros result n; [reflexivity|].
  cbn [c_str Codec.arg_loop]. destruct (Ascii.eqb c NUL) eqn:E; [reflexivity|].
  cbn [Codec.arg_loop]. rewrite E.
  destruct (Ascii.eqb c BACKSLASH).
  - destruct (int_val (n + 1)); [apply IH|reflexivity].
  - destruct (Ascii.eqb c DQUOTE); [|apply IH].
    destruct (int_val (n * 2)) as [d|]; [|reflexivity].
    destruct (int_val (d + 1)); [apply IH|reflexivity].
Qed.

Lemma arg_step_c_str (idx : nat) (a result : cstr) :
  Codec.arg_step idx a result = Codec.arg_step idx (c_str a) result.
Proof.
  unfold Codec.arg_step, strchr. rewrite c_str_idem.
  assert (He : Codec.is_empty (c_str a) = Codec.is_empty a).
  { destruct a as [|c a]; [reflexivity|]. cbn [c_str Codec.is_empty].
    destruct (Ascii.eqb c NUL) eqn:E; [reflexivity|]. cbn [Codec.is_empty].
    now rewrite E. }
  rewrite He, <- arg_loop_c_str. reflexivity.
Qed.

(** An argument is read as a C string: what follows a NUL inside a
    [std::string] never reaches the command line. *)
Theorem argvToCommandLine_stops_at_NUL (argv : list cstr) :
  Codec.argvToCommandLine argv = Codec.argvToCommandLine (map c_str argv).
Proof.
  unfold Codec.argvToCommandLine. generalize 0%nat at 1 2. generalize (@nil ascii).
  induction argv as [|a argv IH]; intros result idx; [reflexivity|].
  cbn [map Codec.argv_loop]. rewrite <- arg_step_c_str.
  destruct (Codec.arg_step idx a result); [apply IH|reflexivity].
Qed.

Lemma join_app (xs ys : list cstr) :
  xs <> [] -> ys <> [] ->
  Wording.join (xs ++ ys) = Wording.join xs ++ [SPACE] ++ Wording.join ys.
Proof.
  intros Hx Hy. induction xs as [|x xs IH]; [congruence|].
  destruct xs as [|x' xs].
  - destruct ys; [congruence|reflexivity].
  - change (Wording.join ((x :: x' :: xs) ++ ys))
      with (x ++ [SPACE] ++ Wording.join ((x' :: xs) ++ ys)).
    rewrite IH by discriminate.
    change (Wording.join (x :: x' :: xs))
      with (x ++ [SPACE] ++ Wording.join (x' :: xs)).
    rewrite <- !app_assoc. reflexivity.
Qed.

(** The command line of two argument vectors put end to end is their two
    command lines with one space between them. *)
Theorem argvToCommandLine_app (argv1 argv2 : list cstr) :
  Forall arg_ok argv1 -> Forall arg_ok argv2 ->
  argv1 <> [] -> argv2 <> [] ->
  exists line1 line2,
    Codec.argvToCommandLine argv1 = Some line1 /\
    Codec.argvToCommandLine argv2 = Some line2 /\
    Codec.argvToCommandLine (argv1 ++ argv2) = Some (line1 ++ [SPACE] ++ line2).
Proof.
  intros H1 H2 N1 N2.
  assert (Hrun : forall argv, Forall arg_ok argv ->
            Codec.argvToCommandLine argv = Some (Wording.encode argv)).
  { intros argv Hok. unfold Codec.argvToCommandLine.
    rewrite (argv_loop_encode argv 0%nat [] Hok). destruct argv; reflexivity. }
  exists (Wording.encode argv1), (Wording.encode argv2).
  split; [now apply Hrun|]. split; [now apply Hrun|].
  rewrite Hrun by (apply Forall_app; now split).
  unfold Wording.encode. rewrite map_app. f_equal.
  apply join_app; destruct argv1, argv2; simpl; congruence.
Qed.

Lemma argvToCommandLine_app_witness :
  exists line1 line2,
    Codec.argvToCommandLine plain_argv = Some line1 /\
    Codec.argvToCommandLine sample_argv = Some line2 /\
    Codec.argvToCommandLine (plain_argv ++ sample_argv)
    = Some (line1 ++ [SPACE] ++ line2).
Proof.
  apply (argvToCommandLine_app plain_argv sample_argv
           (proj1 plain_argv_ok) sample_argv_ok); discriminate.
Defined.

(** ** [errorMessageToString] and [formatErrorMessage] *)

Lemma strip_blank_end_split (msg : cstr) :
  exists blanks,
    msg = strip_blank_end msg ++ blanks /\
    forallb is_blank blanks = true /\
    (strip_blank_end msg = [] \/
     exists kept c, strip_blank_end msg = kept ++ [c] /\ is_blank c = false).
Proof.
  induction msg as [|c msg IH].
  - exists []. repeat split. now left.
  - destruct IH as [blanks [Hsplit [Hblank Hlast]]]. cbn [strip_blank_end].
    destruct (strip_blank_end msg) as [|k kept] eqn:Hs.
    + destruct (is_blank c) eqn:Hc.
      * exists (c :: blanks). simpl in *. rewrite Hc, Hblank.
        repeat split; [now rewrite Hsplit at 1|now left].
      * exists blanks. simpl in *. repeat split; [now rewrite Hsplit at 1|assumption|].
        right. exists [], c. now split.
    + exists blanks. repeat split; [cbn [app] in *; now rewrite Hsplit at 1|assumption|].
      right. destruct Hlast as [Hnil|[kept' [c' [Hk Hc']]]]; [discriminate|].
      exists (c :: kept'), c'. split; [|assumption]. cbn [app]. now rewrite Hk.
Qed.

(** The text of a system error is the converted message without the
    spaces, carriage returns, line feeds and tabs at its end: nothing else is
    removed, and what is left does not end in one of these. *)
Theorem errorMessageToString_trimmed (P : Platform) (E : Env) (err : Z) (wide : wstr) :
  FormatMessageW E err = Some wide ->
  exists blanks,
    wcsToMbs P E wide = errorMessageToString P E err ++ blanks /\
    forallb is_blank blanks = true /\
    (errorMessageToString P E err = [] \/
     exists kept c,
       errorMessageToString P E err = kept ++ [c] /\ is_blank c = false).
Proof.
  intros H. unfold errorMessageToString. rewrite H.
  apply strip_blank_end_split.
Qed.

Lemma errorMessageToString_trimmed_witness :
  FormatMessageW message_env 2 = Some (L (str "File not found." ++ ["013"%char; LF])) /\
  errorMessageToString Sample.platform message_env 2 = str "File not found." /\
  exists blanks,
    wcsToMbs Sample.platform message_env
      (L (str "File not found." ++ ["013"%char; LF]))
    = errorMessageToString Sample.platform message_env 2 ++ blanks /\
    forallb is_blank blanks = true /\
    (errorMessageToString Sample.platform message_env 2 = [] \/
     exists kept c,
       errorMessageToString Sample.platform message_env 2 = kept ++ [c] /\
       is_blank c = false).
Proof.
  split; [reflexivity|]. split; [vm_compute; reflexivity|].
  apply (errorMessageToString_trimmed Sample.platform message_env 2). reflexivity.
Defined.

Lemma strip_blank_end_blank (msg : cstr) :
  forallb is_blank msg = true -> strip_blank_end msg = [].
Proof.
  induction msg as [|c msg IH]; [reflexivity|]. cbn [forallb strip_blank_end].
  intros H. apply andb_true_iff in H. destruct H as [Hc Hmsg].
  now rewrite (IH Hmsg), Hc.
Qed.

(** [formatErrorMessage] always gives the error number, as the word
    [error] and the number in the form [sprintf] gives it for [%#x]: alone
    when the system has no message for it, when the message cannot be
    converted to the locale, or when the message is blank; after the message
    and in parentheses otherwise.  It is never empty. *)
Theorem formatErrorMessage_shape (P : Platform) (E : Env) (err : Z) :
  let number := str "error " ++ sprintf_alt_hex E err in
  ((FormatMessageW E err = None \/
    (exists wide, FormatMessageW E err = Some wide /\
                  (heapWcsToMbs P E wide = None \/
                   forallb is_blank (wcsToMbs P E wide) = true))) ->
   formatErrorMessage P E err = number) /\
  (errorMessageToString P E err <> [] ->
   formatErrorMessage P E err
   = errorMessageToString P E err ++ str " (" ++ number ++ str ")") /\
  formatErrorMessage P E err <> [].
Proof.
  intros number.
  assert (Hnum : number <> []) by (unfold number; discriminate).
  split; [|split].
  - intros Hfail.
    assert (Hempty : errorMessageToString P E err = []).
    { unfold errorMessageToString.
      destruct Hfail as [Hnone|[wide [Hsome [Hnull|Hblank]]]].
      - now rewrite Hnone.
      - rewrite Hsome. unfold wcsToMbs. now rewrite Hnull.
      - rewrite Hsome. now apply strip_blank_end_blank. }
    unfold formatErrorMessage. now rewrite Hempty.
  - intros Hne. unfold formatErrorMessage.
    destruct (errorMessageToString P E err); [congruence|reflexivity].
  - unfold formatErrorMessage.
    destruct (errorMessageToString P E err) as [|c r]; [exact Hnum|discriminate].
Qed.

Example formatErrorMessage_known :
  formatErrorMessage Sample.platform message_env 2
  = str "File not found. (error 0x2)".
Proof. vm_compute. reflexivity. Qed.

Lemma formatErrorMessage_shape_witness :
  formatErrorMessage Sample.platform message_env 5 = str "error 0x5" /\
  formatErrorMessage Sample.platform message_env 2
  = errorMessageToString Sample.platform message_env 2
    ++ str " (" ++ (str "error " ++ sprintf_alt_hex message_env 2) ++ str ")".
Proof.
  split.
  - apply (proj1 (formatErrorMessage_shape Sample.platform message_env 5)).
    left. reflexivity.
  - apply (proj1 (proj2 (formatErrorMessage_shape Sample.platform message_env 2))).
    vm_compute. discriminate.
Defined.

(** ** Raw mode: what [setRawTerminalMode] does to the attributes *)

Ltac bitwise :=
  apply Z.bits_inj'; intros n Hn;
  rewrite ?Z.lor_spec, ?Z.land_spec, ?Z.lnot_spec, ?Z.lor_spec, ?Z.land_spec,
          ?Z.lnot_spec, ?Z.lor_spec, ?Z.land_spec, ?Z.bits_0 by assumption;
  repeat match goal with
         | |- context [Z.testbit ?a n] => destruct (Z.testbit a n)
         end;
  reflexivity.

Lemma length_set_nth {A} (l : list A) (i : nat) (x : A) :
  length (set_nth l i x) = length l.
Proof.
  revert i. induction l as [|y l IH]; intros [|i]; simpl; auto.
Qed.

Lemma nth_set_nth {A} (l : list A) (i j : nat) (x d : A) :
  nth j (set_nth l i x) d
  = if ((j =? i) && (i <? length l))%nat then x else nth j l d.
Proof.
  revert i j. induction l as [|y l IH]; intros i j.
  - simpl. destruct j, i; simpl; rewrite ?andb_false_r; reflexivity.
  - destruct i as [|i], j as [|j]; simpl; try reflexivity.
    rewrite IH. reflexivity.
Qed.

Lemma set_control_chars_idem (cc : list Z) (vmin vtime : nat) :
  set_nth (set_nth (set_nth (set_nth cc vmin 1) vtime 0) vmin 1) vtime 0
  = set_nth (set_nth cc vmin 1) vtime 0.
Proof.
  apply nth_ext with (d := 0) (d' := 0).
  - now rewrite !length_set_nth.
  - intros j _. rewrite !nth_set_nth, !length_set_nth.
    destruct ((j =? vtime) && (vtime <? length cc))%nat; [reflexivity|].
    destruct ((j =? vmin) && (vmin <? length cc))%nat; reflexivity.
Qed.

Lemma cflag_parity_off (P : Platform) (cflag : Z) :
  Z.land (CS8 P) (PARENB P) = 0 ->
  Z.land (Z.lor (Z.land cflag (Z.lnot (Z.lor (CSIZE P) (PARENB P)))) (CS8 P))
         (PARENB P) = 0.
Proof.
  intros H. apply Z.bits_inj'. intros n Hn.
  pose proof (f_equal (fun z => Z.testbit z n) H) as Hb. cbv beta in Hb.
  rewrite Z.land_spec, Z.bits_0 in Hb.
  rewrite Z.land_spec, Z.lor_spec, Z.land_spec, Z.lnot_spec, Z.lor_spec, Z.bits_0
    by assumption.
  destruct (Z.testbit cflag n), (Z.testbit (CSIZE P) n), (Z.testbit (PARENB P) n),
           (Z.testbit (CS8 P) n); cbn in *; congruence.
Qed.

(** After [raw_input] every flag the source names is off in [c_lflag] and
    in [c_iflag] (echo, canonical and extended input processing, signals;
    break and CR-NL translation, parity checking and stripping, software flow
    control).  In [c_cflag] the character-size and parity bits are replaced
    by those of [CS8]: the character size is [CS8], and [PARENB] is off where
    [CS8] has no parity bit.  Every bit of [c_lflag] and [c_iflag] other than
    the named flags, every bit of [c_cflag] outside [CSIZE], [PARENB] and
    [CS8], the output flags and the speeds are as they were; a read blocks for
    one byte with no timeout, and the other control characters are
    untouched. *)
Theorem raw_input_attributes (P : Platform) (buf : termios) :
  let raw := raw_input P buf in
  Forall (fun flag => Z.land (c_lflag raw) flag = 0) (lflags_off P) /\
  Forall (fun flag => Z.land (c_iflag raw) flag = 0) (iflags_off P) /\
  Z.land (c_cflag raw) (CS8 P) = CS8 P /\
  Z.land (c_cflag raw) (Z.lor (CSIZE P) (PARENB P))
  = Z.land (CS8 P) (Z.lor (CSIZE P) (PARENB P)) /\
  (Z.land (CS8 P) (PARENB P) = 0 -> Z.land (c_cflag raw) (PARENB P) = 0) /\
  Z.land (c_lflag raw) (Z.lnot (fold_right Z.lor 0 (lflags_off P)))
  = Z.land (c_lflag buf) (Z.lnot (fold_right Z.lor 0 (lflags_off P))) /\
  Z.land (c_iflag raw) (Z.lnot (fold_right Z.lor 0 (iflags_off P)))
  = Z.land (c_iflag buf) (Z.lnot (fold_right Z.lor 0 (iflags_off P))) /\
  Z.land (c_cflag raw) (Z.lnot (Z.lor (Z.lor (CSIZE P) (PARENB P)) (CS8 P)))
  = Z.land (c_cflag buf) (Z.lnot (Z.lor (Z.lor (CSIZE P) (PARENB P)) (CS8 P))) /\
  c_oflag raw = c_oflag buf /\
  c_ispeed raw = c_ispeed buf /\ c_ospeed raw = c_ospeed buf /\
  length (c_cc raw) = length (c_cc buf) /\
  (forall j, j <> VMIN P -> j <> VTIME P -> nth j (c_cc raw) 0 = nth j (c_cc buf) 0) /\
  ((VTIME P < length (c_cc buf))%nat -> nth (VTIME P) (c_cc raw) 0 = 0) /\
  ((VMIN P < length (c_cc buf))%nat -> VMIN P <> VTIME P ->
   nth (VMIN P) (c_cc raw) 0 = 1).
Proof.
  intros raw. subst raw. unfold raw_input, lflags_off, iflags_off.
  cbn [c_lflag c_iflag c_cflag c_oflag c_cc c_ispeed c_ospeed fold_right].
  split; [repeat constructor; bitwise|].
  split; [repeat constructor; bitwise|].
  split; [bitwise|]. split; [bitwise|].
  split; [intros Hcs8; exact (cflag_parity_off P (c_cflag buf) Hcs8)|].
  split; [bitwise|]. split; [bitwise|]. split; [bitwise|].
  split; [reflexivity|]. split; [reflexivity|]. split; [reflexivity|].
  split; [now rewrite !length_set_nth|].
  split; [|split].
  - intros j H1 H2. rewrite !nth_set_nth.
    apply Nat.eqb_neq in H1, H2. now rewrite H1, H2.
  - intros H. rewrite nth_set_nth, length_set_nth, Nat.eqb_refl.
    apply Nat.ltb_lt in H. now rewrite H.
  - intros H Hne. rewrite !nth_set_nth, length_set_nth.
    apply Nat.eqb_neq in Hne. rewrite Hne. cbn [andb].
    apply Nat.ltb_lt in H. now rewrite Nat.eqb_refl, H.
Qed.

Lemma raw_input_attributes_witness :
  (VTIME Sample.platform < length (c_cc parity_on))%nat /\
  (VMIN Sample.platform < length (c_cc parity_on))%nat /\
  Z.land (CS8 Sample.platform) (PARENB Sample.platform) = 0 /\
  Z.land (c_cflag parity_on) (PARENB Sample.platform) = PARENB Sample.platform /\
  Z.land (c_cflag (raw_input Sample.platform parity_on)) (PARENB Sample.platform) = 0 /\
  nth (VTIME Sample.platform) (c_cc (raw_input Sample.platform parity_on)) 0 = 0 /\
  nth (VMIN Sample.platform) (c_cc (raw_input Sample.platform parity_on)) 0 = 1.
Proof.
  pose proof (raw_input_attributes Sample.platform parity_on) as H.
  cbv zeta in H.
  destruct H as [_ [_ [_ [_ [Hp [_ [_ [_ [_ [_ [_ [_ [_ [Ht Hm]]]]]]]]]]]]]].
  assert (H1 : (VTIME Sample.platform < length (c_cc parity_on))%nat)
    by (vm_compute; lia).
  assert (H2 : (VMIN Sample.platform < length (c_cc parity_on))%nat)
    by (vm_compute; lia).
  assert (H3 : Z.land (CS8 Sample.platform) (PARENB Sample.platform) = 0)
    by reflexivity.
  split; [exact H1|]. split; [exact H2|]. split; [exact H3|].
  split; [reflexivity|]. split; [exact (Hp H3)|]. split; [exact (Ht H1)|].
  apply (Hm H2). discriminate.
Defined.

(** After [raw_output] output post-processing is off.  In [c_cflag] the
    character-size and parity bits are replaced by those of [CS8]: the
    character size is [CS8], and [PARENB] is off where [CS8] has no parity
    bit.  Every bit of [c_oflag] other than [OPOST], every bit of [c_cflag]
    outside [CSIZE], [PARENB] and [CS8], the input and local flags, the
    control characters and the speeds are as they were. *)
Theorem raw_output_attributes (P : Platform) (buf : termios) :
  let raw := raw_output P buf in
  Z.land (c_oflag raw) (OPOST P) = 0 /\
  Z.land (c_cflag raw) (CS8 P) = CS8 P /\
  Z.land (c_cflag raw) (Z.lor (CSIZE P) (PARENB P))
  = Z.land (CS8 P) (Z.lor (CSIZE P) (PARENB P)) /\
  (Z.land (CS8 P) (PARENB P) = 0 -> Z.land (c_cflag raw) (PARENB P) = 0) /\
  Z.land (c_oflag raw) (Z.lnot (OPOST P)) = Z.land (c_oflag buf) (Z.lnot (OPOST P)) /\
  Z.land (c_cflag raw) (Z.lnot (Z.lor (Z.lor (CSIZE P) (PARENB P)) (CS8 P)))
  = Z.land (c_cflag buf) (Z.lnot (Z.lor (Z.lor (CSIZE P) (PARENB P)) (CS8 P))) /\
  c_iflag raw = c_iflag buf /\ c_lflag raw = c_lflag buf /\
  c_cc raw = c_cc buf /\
  c_ispeed raw = c_ispeed buf /\ c_ospeed raw = c_ospeed buf.
Proof.
  intros raw. subst raw. unfold raw_output.
  cbn [c_lflag c_iflag c_cflag c_oflag c_cc c_ispeed c_ospeed].
  split; [bitwise|]. split; [bitwise|]. split; [bitwise|].
  split; [intros Hcs8; exact (cflag_parity_off P (c_cflag buf) Hcs8)|].
  split; [bitwise|]. split; [bitwise|].
  repeat split.
Qed.

Lemma raw_output_attributes_witness :
  Z.land (CS8 Sample.platform) (PARENB Sample.platform) = 0 /\
  Z.land (c_cflag parity_on) (PARENB Sample.platform) = PARENB Sample.platform /\
  Z.land (c_cflag (raw_output Sample.platform parity_on)) (PARENB Sample.platform) = 0 /\
  Z.land (c_oflag (raw_output Sample.platform parity_on)) (OPOST Sample.platform) = 0.
Proof.
  pose proof (raw_output_attributes Sample.platform parity_on) as H.
  cbv zeta in H.
  destruct H as [Ho [_ [_ [Hp _]]]].
  assert (H3 : Z.land (CS8 Sample.platform) (PARENB Sample.platform) = 0)
    by reflexivity.
  split; [exact H3|]. split; [reflexivity|]. split; [exact (Hp H3)|]. exact Ho.
Defined.

(** Raw mode composes: setting it twice is setting it once, and the input
    and the output settings can be applied to one terminal in either order
    (standard input and standard output are usually the same terminal). *)
Theorem raw_mode_composes (P : Platform) (buf : termios) :
  raw_input P (raw_input P buf) = raw_input P buf /\
  raw_output P (raw_output P buf) = raw_output P buf /\
  raw_output P (raw_input P buf) = raw_input P (raw_output P buf).
Proof.
  unfold raw_input, raw_output.
  cbn [c_lflag c_iflag c_cflag c_oflag c_cc c_ispeed c_ospeed].
  repeat split; f_equal; try bitwise; try reflexivity.
  apply set_control_chars_idem.
Qed.

(** ** The buffer of the child's command line *)

Lemma w_str_nonzero (s : wstr) : Forall (fun c => c <> 0) (w_str s).
Proof.
  induction s as [|c s IH]; cbn [w_str]; [constructor|].
  destruct (Z.eqb_spec c 0); constructor; assumption.
Qed.

Lemma w_str_holds (s rest : wstr) :
  Forall (fun c => c <> 0) s -> w_str (s ++ 0 :: rest) = s.
Proof.
  induction 1 as [|c s Hc _ IH]; [reflexivity|].
  cbn [app w_str]. destruct (Z.eqb_spec c 0); [contradiction|]. now rewrite IH.
Qed.

Lemma appWscCat_holds (s buf src : wstr) :
  holds s buf ->
  (length s + length (w_str src) + 1 <= length buf)%nat ->
  exists buf',
    appWscCat buf src = Some buf' /\
    holds (s ++ w_str src) buf' /\
    length buf' = length buf.
Proof.
  intros [Hs [rest Hbuf]] Hlen. unfold appWscCat, appWcsCpy, write_at.
  subst buf. rewrite (w_str_holds s rest Hs).
  rewrite !length_app in Hlen. rewrite !length_app. cbn [length] in *.
  replace (length s + (length (w_str src) + 1) <=? length s + S (length rest))%nat
    with true by (symmetry; apply Nat.leb_le; lia).
  eexists. split; [reflexivity|]. split.
  - split; [apply Forall_app; split; [assumption|apply w_str_nonzero]|].
    rewrite firstn_app, firstn_all, Nat.sub_diag. cbn [firstn].
    rewrite app_nil_r, <- !app_assoc. cbn [app]. eexists.
    rewrite <- app_assoc. reflexivity.
  - rewrite !length_app, length_firstn, length_skipn, !length_app. cbn [length].
    lia.
Qed.

(** The buffer [main] allocates for the command line of the child,
    [wcslen(selfPath) + 32 + wcslen(childCmdLineW)] elements, is large enough
    for the four concatenations, whatever the buffer held: none writes past
    its end, and the string it holds at the end is the quoted path, the
    [--child-exec] marker and the command line of the child. *)
Theorem fill_cmdLineW_fits (fresh selfPath childCmdLineW : wstr) :
  Z.of_nat (length fresh) = cmdLineW_size selfPath childCmdLineW ->
  exists cmdLineW,
    fill_cmdLineW fresh selfPath childCmdLineW = Some cmdLineW /\
    length cmdLineW = length fresh /\
    w_str cmdLineW
    = L [DQUOTE] ++ w_str selfPath ++ L ([DQUOTE] ++ str " --child-exec ")
      ++ w_str childCmdLineW.
Proof.
  unfold cmdLineW_size, wcslen, fill_cmdLineW. intros Hsize.
  assert (H0 : holds [] (set_nth fresh 0 0)).
  { split; [constructor|]. destruct fresh as [|c rest]; [simpl in Hsize; lia|].
    exists rest. reflexivity. }
  assert (Hlen0 : length (set_nth fresh 0 0) = length fresh)
    by apply length_set_nth.
  assert (Hq : length (w_str (L [DQUOTE])) = 1%nat) by reflexivity.
  assert (Hm : length (w_str (L ([DQUOTE] ++ str " --child-exec "))) = 15%nat)
    by reflexivity.
  destruct (appWscCat_holds [] _ (L [DQUOTE]) H0) as [b1 [E1 [H1 L1]]];
    [rewrite ?L3, ?L2, ?L1, ?Hlen0, ?length_app, ?Hm, ?Hq; cbn [app length]; lia|].
  destruct (appWscCat_holds _ _ selfPath H1) as [b2 [E2 [H2 L2]]];
    [rewrite ?L3, ?L2, ?L1, ?Hlen0, ?length_app, ?Hm, ?Hq; cbn [app length]; lia|].
  destruct (appWscCat_holds _ _ (L ([DQUOTE] ++ str " --child-exec ")) H2)
    as [b3 [E3 [H3 L3]]];
    [rewrite ?L3, ?L2, ?L1, ?Hlen0, ?length_app, ?Hm, ?Hq; cbn [app length]; lia|].
  destruct (appWscCat_holds _ _ childCmdLineW H3) as [b4 [E4 [H4 L4]]];
    [rewrite ?L3, ?L2, ?L1, ?Hlen0, ?length_app, ?Hm, ?Hq; cbn [app length]; lia|].
  exists b4. rewrite E1, E2, E3, E4. split; [reflexivity|]. split; [lia|].
  destruct H4 as [Hnz [rest ->]]. rewrite (w_str_holds _ rest Hnz).
  cbn. rewrite <- !app_assoc. reflexivity.
Qed.

Lemma fill_cmdLineW_fits_witness :
  exists cmdLineW,
    fill_cmdLineW (repeat 7 (10 + 32 + 6)) (L (str "winpty.exe")) (L (str "cmd /c"))
    = Some cmdLineW /\
    length cmdLineW = 48%nat /\
    w_str cmdLineW
    = L ([DQUOTE] ++ str "winpty.exe" ++ [DQUOTE] ++ str " --child-exec cmd /c").
Proof.
  apply (fill_cmdLineW_fits (repeat 7 (10 + 32 + 6)) (L (str "winpty.exe"))
           (L (str "cmd /c"))).
  reflexivity.
Defined.

(** Sixteen elements more than the two strings are not enough: the margin
    of 32 is needed up to 17. *)
Example fill_cmdLineW_overflow :
  fill_cmdLineW (repeat 7 (10 + 16 + 6)) (L (str "winpty.exe")) (L (str "cmd /c"))
  = None.
Proof. reflexivity. Qed.

(** ** [parseArguments] *)

Lemma cstr_eqb_eq (a b : cstr) : cstr_eqb a b = true <-> a = b.
Proof.
  revert b. induction a as [|x a IH]; intros [|y b]; simpl; split;
    try discriminate; try reflexivity.
  - intros H. apply andb_true_iff in H. destruct H as [Hx Ha].
    apply Ascii.eqb_eq in Hx. apply IH in Ha. now subst.
  - intros H. inversion H; subst. rewrite Ascii.eqb_refl. now apply IH.
Qed.

Lemma c_str_no_NUL (a : cstr) : ~ In NUL (c_str a).
Proof.
  induction a as [|c a IH]; cbn [c_str]; [intros []|].
  destruct (Ascii.eqb_spec c NUL); [intros []|].
  intros [H|H]; [congruence|contradiction].
Qed.

Lemma usage_run {A} (program : cstr) (code : Z) (t : Trace) :
  @usage A program code t = Stop (Exited code) (t ++ usage_text program).
Proof.
  unfold usage, printf, bind, emit, exit, halt, usage_text.
  rewrite <- !app_assoc. reflexivity.
Qed.

(** An option that only sets a flag is consumed, and sets its flag. *)
Lemma parse_options_switch (program a : cstr) (rest : list cstr)
      (out : Arguments) (doShowKeys : bool) :
  is_switch a = true ->
  parse_options program (a :: rest) out doShowKeys
  = parse_options program rest (switched out [a])
      (doShowKeys || given (str "--showkey") [a]).
Proof.
  intros Ha. unfold is_switch, switches in Ha. cbn [existsb] in Ha.
  rewrite orb_false_r in Ha.
  cbn [parse_options]. unfold switched, given. cbn [existsb].
  destruct out as [child m a1 a2 a3 a4].
  cbn [childArgv mouseInput testAllowNonTtys testConerr testPlainOutput
       testColorEscapes].
  repeat (apply orb_true_iff in Ha; destruct Ha as [Ha|Ha]);
    apply cstr_eqb_eq in Ha; rewrite Ha;
    destruct m, a1, a2, a3, a4, doShowKeys; reflexivity.
Qed.

Lemma switched_cons (out : Arguments) (a : cstr) (opts : list cstr) :
  switched (switched out [a]) opts = switched out (a :: opts).
Proof.
  unfold switched, given. cbn [existsb childArgv mouseInput testAllowNonTtys
    testConerr testPlainOutput testColorEscapes].
  rewrite !orb_false_r, <- !orb_assoc. reflexivity.
Qed.

Lemma parse_options_switches (program : cstr) (opts : list cstr) :
  forall rest out doShowKeys,
    Forall (fun a => is_switch a = true) opts ->
    parse_options program (opts ++ rest) out doShowKeys
    = parse_options program rest (switched out opts)
        (doShowKeys || given (str "--showkey") opts).
Proof.
  induction opts as [|a opts IH]; intros rest out d Hall.
  - cbn [app]. unfold switched, given. cbn [existsb]. rewrite !orb_false_r.
    destruct out; reflexivity.
  - inversion Hall as [|? ? Ha Hopts]; subst. cbn [app].
    rewrite (parse_options_switch program a _ out d Ha), (IH _ _ _ Hopts).
    rewrite switched_cons. f_equal.
    unfold given. cbn [existsb]. rewrite orb_false_r, <- orb_assoc. reflexivity.
Qed.




(** After [--] nothing is an option: what follows is the argument vector of
    the child as it stands; when nothing follows, the tool prints the usage
    text on standard output and exits with code 1. *)
Theorem double_dash_ends_the_options (P : Platform) (E : Env) (prog sep : cstr)
        (opts rest : list cstr) (t : Trace) :
  Forall (fun o => is_switch o = true) opts ->
  given (str "--showkey") opts = false ->
  c_str sep = str "--" ->
  parseArguments P E (prog :: opts ++ sep :: rest) t
  = match rest with
    | [] => Stop (Exited 1) (t ++ usage_text (c_str prog))
    | _ => Ok (switched (child_only (map c_str rest)) opts) t
    end.
Proof.
  intros Hopts Hshow Hsep. unfold parseArguments. cbn [skipn].
  unfold bind at 1. rewrite (parse_options_switches _ opts _ _ _ Hopts).
  cbn [parse_options]. rewrite Hsep, Hshow.
  destruct rest as [|r rest]; [|reflexivity].
  unfold ret, bind. cbn. apply usage_run.
Qed.

Lemma double_dash_ends_the_options_witness :
  parseArguments Sample.platform no_arguments_env
    [str "winpty"; str "--"; str "--version"; str "-x"] []
  = Ok (child_only [str "--version"; str "-x"]) [] /\
  parseArguments Sample.platform no_arguments_env
    [str "winpty"; str "-Xconerr"; str "--"] []
  = Stop (Exited 1) (usage_text (str "winpty")) /\
  Forall (fun e => exists fmt args, e = Fprintf STDOUT_FILENO fmt args)
         (usage_text (str "winpty")).
Proof.
  split; [|split].
  - apply (double_dash_ends_the_options Sample.platform no_arguments_env (str "winpty")
             (str "--") [] [str "--version"; str "-x"] []).
    + constructor.
    + reflexivity.
    + reflexivity.
  - apply (double_dash_ends_the_options Sample.platform no_arguments_env (str "winpty")
             (str "--") [str "-Xconerr"] [] []).
    + repeat constructor.
    + reflexivity.
    + reflexivity.
  - unfold usage_text. repeat constructor; eexists; eexists; reflexivity.
Defined.

Lemma parse_options_unknown (program bad : cstr) (rest : list cstr)
      (out : Arguments) (doShowKeys : bool) (t : Trace) :
  is_option (c_str bad) = true ->
  is_known bad = false ->
  parse_options program (bad :: rest) out doShowKeys t
  = Stop (Exited 1) (t ++ [unrecognized (c_str bad)]).
Proof.
  intros Hopt Hknown. cbn [parse_options]. rewrite Hopt.
  unfold is_known, options, switches in Hknown. cbn [app existsb] in Hknown.
  repeat (apply orb_false_elim in Hknown; destruct Hknown as [?H Hknown]).
  repeat match goal with
         | H : cstr_eqb (c_str bad) _ = false |- _ => rewrite H; clear H
         end.
  reflexivity.
Qed.





Lemma parse_options_stop (program a : cstr) (rest : list cstr)
      (out : Arguments) (doShowKeys : bool) :
  (is_option (c_str a) = false ->
   parse_options program (a :: rest) out doShowKeys
   = ret (rest,
          {| childArgv := childArgv out ++ [c_str a]; mouseInput := mouseInput out;
             testAllowNonTtys := testAllowNonTtys out; testConerr := testConerr out;
             testPlainOutput := testPlainOutput out;
             testColorEscapes := testColorEscapes out |},
          doShowKeys)) /\
  (c_str a = str "--" ->
   parse_options program (a :: rest) out doShowKeys = ret (rest, out, doShowKeys)).
Proof.
  split; intros Ha; cbn [parse_options]; rewrite Ha; reflexivity.
Qed.

(** With [--showkey] among the options, the tool dumps keys and exits with
    code 0: a program named after the options is never run, and no program
    need be named. *)
Theorem showkey_replaces_the_session (P : Platform) (E : Env) (prog : cstr)
        (opts tail : list cstr) (t : Trace) :
  Forall (fun o => is_switch o = true) opts ->
  given (str "--showkey") opts = true ->
  tail = [] \/
  (exists a rest, tail = a :: rest /\
                  (is_option (c_str a) = false \/ c_str a = str "--")) ->
  parseArguments P E (prog :: opts ++ tail) t
  = (debugShowKey P E (given (str "-Xallow-non-tty") opts) ;; exit 0) t.
Proof.
  intros Hopts Hshow Htail. unfold parseArguments. cbn [skipn].
  unfold bind at 1. rewrite (parse_options_switches _ opts _ _ _ Hopts).
  rewrite Hshow.
  destruct Htail as [->|[a [rest [-> [Ha|Ha]]]]];
    [cbn [parse_options]
    |rewrite (proj1 (parse_options_stop _ a rest _ _) Ha)
    |rewrite (proj2 (parse_options_stop _ a rest _ _) Ha)];
    unfold ret at 1; cbv iota beta;
    cbn [testAllowNonTtys switched child_only orb];
    unfold bind, exit, halt;
    match goal with
    | |- context [debugShowKey P E ?allow t] =>
        destruct (debugShowKey P E allow t)
    end; reflexivity.
Qed.

Lemma showkey_replaces_the_session_witness :
  exists t,
    parseArguments Sample.platform no_arguments_env
      [str "winpty"; str "--showkey"; str "cmd"] []
    = Stop Waiting t.
Proof.
  eexists. etransitivity.
  - exact (showkey_replaces_the_session Sample.platform no_arguments_env
             (str "winpty") [str "--showkey"] [str "cmd"] []
             ltac:(repeat constructor) eq_refl
             ltac:(right; exists (str "cmd"), []; split; [reflexivity|now left])).
  - vm_compute. reflexivity.
Defined.

Lemma parse_options_Ok (program : cstr) (rest : list cstr) :
  forall out d t rest' out' d' t',
    parse_options program rest out d t = Ok (rest', out', d') t' ->
    t' = t /\
    exists extra,
      childArgv out' = childArgv out ++ extra /\
      Forall (fun a => ~ In NUL a) extra.
Proof.
  induction rest as [|a rest IH]; intros out d t rest' out' d' t' H.
  - cbn [parse_options] in H. unfold ret in H. inversion H; subst.
    split; [reflexivity|]. exists []. now rewrite app_nil_r.
  - cbn [parse_options] in H.
    repeat match type of H with
           | context [if ?b then _ else _] => destruct b
           end;
      try (rewrite usage_run in H; discriminate);
      try (unfold bind, emit, exit, halt in H; discriminate);
      try (apply IH in H; exact H).
    + unfold ret in H. inversion H; subst. split; [reflexivity|].
      exists []. now rewrite app_nil_r.
    + unfold ret in H. inversion H; subst. split; [reflexivity|].
      exists [c_str a]. split; [reflexivity|].
      constructor; [apply c_str_no_NUL|constructor].
Qed.

(** When [parseArguments] returns it has printed nothing and changed
    nothing, and the argument vector of the child that it hands to [main] is
    not empty and made of C strings: the encoder never sees an empty vector
    or a NUL. *)
Theorem parseArguments_returns (P : Platform) (E : Env) (args : list cstr)
        (t t' : Trace) (out : Arguments) :
  parseArguments P E args t = Ok out t' ->
  t' = t /\ childArgv out <> [] /\ Forall (fun a => ~ In NUL a) (childArgv out).
Proof.
  unfold parseArguments. intros H.
  apply bind_Ok in H. destruct H as [[[rest out1] d] [t1 [Hparse H]]].
  apply parse_options_Ok in Hparse. destruct Hparse as [-> [extra [Hchild Hextra]]].
  cbn [childArgv app] in Hchild. rewrite <- Hchild in Hextra. clear Hchild extra.
  apply bind_Ok in H. destruct H as [[] [t2 [Hshow H]]].
  apply bind_Ok in H. destruct H as [[] [t3 [Husage H]]].
  unfold ret in H. inversion H; subst; clear H. cbn [childArgv] in *.
  destruct d.
  - unfold bind, exit, halt in Hshow.
    destruct (debugShowKey P E _ t); discriminate.
  - unfold ret in Hshow. inversion Hshow; subst; clear Hshow.
    destruct (length (childArgv out1 ++ map c_str rest) =? 0)%nat eqn:Hlen.
    + rewrite usage_run in Husage. discriminate.
    + unfold ret in Husage. inversion Husage; subst; clear Husage.
      split; [reflexivity|]. split.
      * intros Hnil. rewrite Hnil in Hlen. discriminate.
      * apply Forall_app. split; [assumption|].
        apply Forall_forall. intros x Hx. apply in_map_iff in Hx.
        destruct Hx as [y [<- _]]. apply c_str_no_NUL.
Qed.

Lemma parseArguments_returns_witness :
  exists out : Arguments,
    parseArguments Sample.platform no_arguments_env launch_argv [] = Ok out [] /\
    childArgv out <> [] /\ Forall (fun a => ~ In NUL a) (childArgv out).
Proof.
  eexists. split; [vm_compute; reflexivity|].
  eapply (fun out H => proj2 (parseArguments_returns Sample.platform no_arguments_env
                                launch_argv [] [] out H)).
  vm_compute. reflexivity.
Defined.

(** ** [main]: the marker, the version *)

Lemma main_runs_session (P : Platform) (E : Env) :
  c_str (nth 1 (argv E) []) <> str "--child-exec" \/ (length (argv E) < 3)%nat ->
  main P E [] = main_session P E [Setlocale].
Proof.
  intros H. unfold main, bind, emit. cbn [app].
  destruct H as [H|H].
  - destruct (cstr_eqb _ _) eqn:Heq; [apply cstr_eqb_eq in Heq; contradiction|].
    now rewrite andb_false_r.
  - replace (3 <=? Z.of_nat (length (argv E))) with false
      by (symmetry; apply Z.leb_gt; lia).
    reflexivity.
Qed.

Lemma switch_not_marker (a : cstr) :
  is_switch a = true -> c_str a <> str "--child-exec".
Proof.
  intros Ha Heq. unfold is_switch in Ha. rewrite Heq in Ha. discriminate.
Qed.

(** [--child-exec] misplaced.  As the only argument, or after one or more
    of the switches ([--mouse], [--showkey], [-Xallow-non-tty], [-Xconerr],
    [-Xplain], [-Xcolor]), [--child-exec] is not the marker of the child
    mode but an unrecognized option: once the wakeup descriptor exists,
    [main] names it on standard error and exits with code 1, and nothing is
    executed. *)
Theorem child_exec_marker_misplaced (P : Platform) (E : Env) (prog marker : cstr)
        (opts rest : list cstr) :
  argv E = prog :: opts ++ marker :: rest ->
  Forall (fun o => is_switch o = true) opts ->
  c_str marker = str "--child-exec" ->
  opts <> [] \/ rest = [] ->
  wakeup_created E = true ->
  main P E [] =
    Stop (Exited 1) [Setlocale; NewWakeupFd; unrecognized (str "--child-exec")].
Proof.
  intros Hargv Hopts Hm Hwhere Hw.
  rewrite main_runs_session.
  - unfold main_session, new_WakeupFd. rewrite Hw, Hargv.
    unfold bind at 1 2. unfold emit at 1. unfold ret at 1. unfold bind at 1.
    unfold parseArguments. cbn [skipn]. unfold bind at 1.
    rewrite (parse_options_switches _ opts _ _ _ Hopts).
    rewrite parse_options_unknown; [now rewrite Hm|now rewrite Hm|].
    unfold is_known. now rewrite Hm.
  - rewrite Hargv. destruct opts as [|o opts].
    + destruct Hwhere as [Hne | ->]; [congruence|]. right. simpl. lia.
    + left. cbn [app nth]. inversion Hopts; subst. now apply switch_not_marker.
Qed.


Lemma child_exec_marker_misplaced_witness :
  main Sample.platform
       (Sample.env [str "winpty"; str "--child-exec"] (fun _ => true) [] None) []
  = Stop (Exited 1) [Setlocale; NewWakeupFd; unrecognized (str "--child-exec")] /\
  main Sample.platform
       (Sample.env [str "winpty"; str "--mouse"; str "--child-exec"; str "cmd"]
                   (fun _ => true) [] None) []
  = Stop (Exited 1) [Setlocale; NewWakeupFd; unrecognized (str "--child-exec")].
Proof.
  split.
  - apply (child_exec_marker_misplaced Sample.platform _ (str "winpty")
             (str "--child-exec") [] []); try reflexivity; [constructor|now right].
  - apply (child_exec_marker_misplaced Sample.platform _ (str "winpty")
             (str "--child-exec") [str "--mouse"] [str "cmd"]); try reflexivity;
      [repeat constructor|left; discriminate].
Defined.

(** ** The main loop: where it ends *)

(** The loop ends at the first wakeup at which a worker is complete: the
    wakeups after it are never looked at, the resize check of that last
    iteration is still made before the loop is left, and the cached size
    that comes out is the last probe.  When no worker ever completes, the
    loop is left waiting in [select]. *)
Theorem main_loop_ends_at_first_completion (before : list Wakeup) (last : Wakeup)
        (after : list Wakeup) (eh : bool) (sz : winsize) (t : Trace) :
  Forall (fun w => any_complete w eh = false) before ->
  (any_complete last eh = true ->
   main_loop (before ++ last :: after) eh sz t = main_loop (before ++ [last]) eh sz t /\
   exists calls, main_loop (before ++ last :: after) eh sz t = Ok (probe last) (t ++ calls)) /\
  (exists calls, main_loop before eh sz t = Stop Waiting (t ++ calls ++ [Select])).
Proof.
  revert sz t. induction before as [|w before IH]; intros sz t Hrun.
  - split.
    + intros Hlast. cbn [app]. rewrite !main_loop_step, Hlast. cbn zeta.
      split; [reflexivity|].
      destruct (winsize_eqb sz (probe last)) eqn:Heq.
      * apply winsize_eqb_eq in Heq. subst sz. rewrite <- app_assoc.
        eexists. reflexivity.
      * rewrite <- app_assoc. eexists. reflexivity.
    + exists []. reflexivity.
  - inversion Hrun as [|? ? Hw Hbefore]; subst. cbn [app].
    rewrite !main_loop_step, Hw. cbn zeta.
    set (sz' := if winsize_eqb sz (probe w) then sz else probe w).
    set (t' := (t ++ [Select; WakeupReset]) ++ _).
    destruct (IH sz' t' Hbefore) as [Hdone [calls Hwait]].
    assert (Ht' : exists first, t' = t ++ first).
    { subst t'. rewrite <- app_assoc. eexists. reflexivity. }
    destruct Ht' as [first Ht']. split.
    + intros Hlast. destruct (Hdone Hlast) as [Hsame [calls' Hok]].
      split; [exact Hsame|]. rewrite Hok, Ht', <- app_assoc.
      eexists. reflexivity.
    + exists (first ++ calls). rewrite Hwait, Ht', <- !app_assoc. reflexivity.
Qed.

Lemma main_loop_ends_at_first_completion_witness :
  main_loop ([wakeup_at 25 80 0 0 false] ++ wakeup_at 40 120 0 0 true
             :: [wakeup_at 50 132 0 0 true]) false fallback_winsize []
  = Ok {| ws_row := 40; ws_col := 120; ws_xpixel := 0; ws_ypixel := 0 |}
       [Select; WakeupReset; Select; WakeupReset; WinptySetSize 120 40].
Proof.
  destruct (main_loop_ends_at_first_completion [wakeup_at 25 80 0 0 false]
              (wakeup_at 40 120 0 0 true) [wakeup_at 50 132 0 0 true] false
              fallback_winsize []) as [Hdone _].
  - repeat constructor.
  - destruct (Hdone eq_refl) as [Hsame _]. rewrite Hsame. reflexivity.
Defined.


(** ** Raw mode and back: the attributes of the terminals *)

Lemma attributes_app (dev : nat -> nat) (init : nat -> termios) (t calls : Trace)
      (d : nat) :
  attributes dev init (t ++ calls) d
  = fold_left (set_attributes dev d) calls (attributes dev init t d).
Proof. unfold attributes. apply fold_left_app. Qed.

Lemma set_attributes_quiet (dev : nat -> nat) (d : nat) (calls : Trace) :
  Forall (fun e => is_tcsetattr e = false) calls ->
  forall cur, fold_left (set_attributes dev d) calls cur = cur.
Proof.
  induction 1 as [|e calls He _ IH]; intros cur; [reflexivity|].
  cbn [fold_left]. destruct e; try discriminate; apply IH.
Qed.

Lemma set_attributes_elsewhere (dev : nat -> nat) (d : nat) (calls : Trace) :
  Forall (fun e => forall fd m, e = Tcsetattr fd m -> dev fd <> d) calls ->
  forall cur, fold_left (set_attributes dev d) calls cur = cur.
Proof.
  induction 1 as [|e calls He _ IH]; intros cur; [reflexivity|].
  cbn [fold_left]. destruct e; try apply IH.
  cbn [set_attributes]. specialize (He _ _ eq_refl).
  apply Nat.eqb_neq in He. rewrite He. apply IH.
Qed.

Section RawAndBack.

Context (P : Platform) (E : Env).

(** The first loop of [setRawTerminalMode], when it goes through: it has
    called nothing, and the attributes it saved for a valid stream are those
    [tcgetattr] gave. *)
Lemma capture_three_saved (allow so se : bool) (t t' : Trace) (r : SavedTermiosMode) :
  for_each [0; 1; 2]%nat (capture E allow)
    {| valid := [true; so; se];
       mode := [uninitialised_termios E; uninitialised_termios E;
                uninitialised_termios E] |} t = Ok r t' ->
  t' = t /\
  forall i, valid_at r i = true ->
    tcgetattr E t i = Some (nth i (mode r) (uninitialised_termios E)).
Proof.
  cbn [for_each]. unfold capture, valid_at, bind, history, emit, ret, exit, halt.
  cbn [valid mode nth set_nth negb].
  destruct (isatty E 0); cbn [negb valid mode nth set_nth];
    [destruct (tcgetattr E t 0) eqn:G0; cbn [valid mode nth set_nth]
    |destruct allow; cbn [negb]];
    try discriminate;
    (destruct so; cbn [negb valid mode nth set_nth andb];
     [destruct (isatty E 1); cbn [negb valid mode nth set_nth];
      [destruct (tcgetattr E t 1) eqn:G1; cbn [valid mode nth set_nth]
      |try (destruct allow; cbn [negb])]|]);
    try discriminate;
    (destruct se; cbn [negb valid mode nth set_nth andb];
     [destruct (isatty E 2); cbn [negb valid mode nth set_nth];
      [destruct (tcgetattr E t 2) eqn:G2; cbn [valid mode nth set_nth]
      |try (destruct allow; cbn [negb])]|]);
    try discriminate;
    intros H; inversion H; subst; (split; [reflexivity|]);
    intros [|[|[|[|i]]]] Hi; cbn [valid mode nth] in *;
    try discriminate; assumption.
Qed.

Lemma set_raw_Ok (fd : nat) (change : termios -> termios) (t t' : Trace) :
  set_raw E fd change t = Ok tt t' ->
  exists buf, tcgetattr E t fd = Some buf /\ t' = t ++ [Tcsetattr fd (change buf)].
Proof.
  unfold set_raw, bind, history, emit, ret, exit, halt.
  destruct (tcgetattr E t fd) as [buf|]; [|discriminate].
  destruct (tcsetattr E t fd (change buf)); [|discriminate].
  intros H. inversion H; subst. now exists buf.
Qed.

(** [setRawTerminalMode], when it returns: the saved attributes, and the
    calls it made, all of them [tcsetattr] on valid streams. *)
Lemma setRawTerminalMode_Ok (allow so se : bool) (t t' : Trace)
      (r : SavedTermiosMode) :
  setRawTerminalMode P E allow so se t = Ok r t' ->
  (forall i, valid_at r i = true ->
     tcgetattr E t i = Some (nth i (mode r) (uninitialised_termios E))) /\
  exists calls,
    t' = t ++ calls /\
    Forall (fun e => exists fd m, e = Tcsetattr fd m /\ valid_at r fd = true) calls.
Proof.
  unfold setRawTerminalMode. intros H.
  apply bind_Ok in H. destruct H as [r1 [t1 [H1 H]]].
  apply bind_Ok in H. destruct H as [[] [t2 [H2 H]]].
  apply bind_Ok in H. destruct H as [[] [t3 [H3 H]]].
  unfold ret in H. inversion H; subst r1 t3; clear H.
  destruct (capture_three_saved allow so se t t1 r H1) as [-> Hsaved].
  split; [exact Hsaved|].
  assert (Hin : exists c0, t2 = t ++ c0 /\
            Forall (fun e => exists fd m, e = Tcsetattr fd m /\ valid_at r fd = true) c0).
  { destruct (valid_at r STDIN_FILENO) eqn:V0.
    - apply set_raw_Ok in H2. destruct H2 as [buf [_ ->]].
      eexists. split; [reflexivity|]. repeat constructor. eauto.
    - unfold ret in H2. inversion H2; subst. exists []. split; [now rewrite app_nil_r|].
      constructor. }
  destruct Hin as [c0 [-> Hc0]].
  cbn [for_each] in H3.
  apply bind_Ok in H3. destruct H3 as [[] [t4 [H4 H3]]].
  apply bind_Ok in H3. destruct H3 as [[] [t5 [H5 H3]]].
  unfold ret in H3. inversion H3; subst t5; clear H3.
  assert (Hout : exists c1, t4 = (t ++ c0) ++ c1 /\
            Forall (fun e => exists fd m, e = Tcsetattr fd m /\ valid_at r fd = true) c1).
  { destruct (valid_at r STDOUT_FILENO) eqn:V1; cbn [negb] in H4.
    - apply set_raw_Ok in H4. destruct H4 as [buf [_ ->]].
      eexists. split; [reflexivity|]. repeat constructor. eauto.
    - unfold ret in H4. inversion H4; subst. exists []. split; [now rewrite app_nil_r|].
      constructor. }
  destruct Hout as [c1 [-> Hc1]].
  assert (Herr : exists c2, t' = ((t ++ c0) ++ c1) ++ c2 /\
            Forall (fun e => exists fd m, e = Tcsetattr fd m /\ valid_at r fd = true) c2).
  { destruct (valid_at r STDERR_FILENO) eqn:V2; cbn [negb] in H5.
    - apply set_raw_Ok in H5. destruct H5 as [buf [_ ->]].
      eexists. split; [reflexivity|]. repeat constructor. eauto.
    - unfold ret in H5. inversion H5; subst. exists []. split; [now rewrite app_nil_r|].
      constructor. }
  destruct Herr as [c2 [-> Hc2]].
  exists (c0 ++ c1 ++ c2). split; [now rewrite <- !app_assoc|].
  repeat (apply Forall_app; split); assumption.
Qed.

(** [restoreTerminalMode], when it returns: the calls it made. *)
Lemma restoreTerminalMode_calls (original : SavedTermiosMode) (t t' : Trace) :
  restoreTerminalMode E original t = Ok tt t' ->
  t' = t ++ flat_map (fun i => if valid_at original i
                               then [Tcsetattr i (nth i (mode original)
                                                      (uninitialised_termios E))]
                               else []) [0; 1; 2]%nat.
Proof.
  unfold restoreTerminalMode. cbn [for_each flat_map].
  unfold restore, bind, history, emit, ret, exit, halt.
  repeat match goal with
         | |- context [if negb ?b then _ else _] => destruct b; cbn [negb]
         | |- context [if tcsetattr ?e ?h ?i ?m then _ else _] =>
             destruct (tcsetattr e h i m)
         end;
    intros H; try discriminate; inversion H; subst; clear H;
    rewrite <- ?app_assoc; cbn [app]; rewrite ?app_nil_r; reflexivity.
Qed.

Lemma raw_and_back_attributes (dev : nat -> nat) (init : nat -> termios)
        (allow so se : bool) (t t1 t2 between : Trace) (saved : SavedTermiosMode) :
  remembers E dev init ->
  setRawTerminalMode P E allow so se t = Ok saved t1 ->
  Forall (fun e => is_tcsetattr e = false) between ->
  restoreTerminalMode E saved (t1 ++ between) = Ok tt t2 ->
  forall d, attributes dev init t2 d = attributes dev init t d.
Proof.
  intros Hrem Hraw Hbetween Hrestore d.
  pose proof (setRawTerminalMode_valid P E allow so se t t1 saved Hraw) as Hvalid.
  destruct (setRawTerminalMode_Ok allow so se t t1 saved Hraw)
    as [Hsaved [calls [-> Hcalls]]].
  rewrite (restoreTerminalMode_calls saved _ _ Hrestore).
  rewrite !attributes_app. rewrite (set_attributes_quiet dev d between Hbetween).
  set (A := attributes dev init t d).
  assert (Hmode : forall i, valid_at saved i = true -> dev i = d ->
            nth i (mode saved) (uninitialised_termios E) = A).
  { intros i Hi Hd. specialize (Hsaved i Hi). rewrite Hrem in Hsaved.
    inversion Hsaved as [Heq]. subst A. now rewrite <- Hd. }
  assert (Hthree : forall fd, valid_at saved fd = true ->
            fd = 0%nat \/ fd = 1%nat \/ fd = 2%nat).
  { intros fd. unfold valid_at. rewrite Hvalid.
    destruct fd as [|[|[|[|fd]]]]; cbn [nth]; auto; discriminate. }
  assert (Hkeep : (forall fd, valid_at saved fd = true -> dev fd <> d) ->
            fold_left (set_attributes dev d) calls A = A).
  { intros Hno. apply set_attributes_elsewhere.
    eapply Forall_impl; [|exact Hcalls].
    intros e [fd [m [-> Hfd]]] fd' m' Heq. inversion Heq; subst. now apply Hno. }
  cbn [flat_map app].
  destruct (valid_at saved 0) eqn:V0, (valid_at saved 1) eqn:V1,
           (valid_at saved 2) eqn:V2;
    cbn [app fold_left set_attributes];
    destruct (Nat.eqb_spec (dev 0%nat) d) as [D0|D0],
             (Nat.eqb_spec (dev 1%nat) d) as [D1|D1],
             (Nat.eqb_spec (dev 2%nat) d) as [D2|D2];
    try (now apply Hmode);
    apply Hkeep; intros fd Hfd;
    destruct (Hthree fd Hfd) as [-> |[-> | ->]]; congruence.
Qed.

(** Raw mode and back.  On terminals that remember their attributes,
    whatever descriptors share a device: after [setRawTerminalMode] has
    returned a snapshot, any calls other than [tcsetattr], and a
    [restoreTerminalMode] of the snapshot that returns, every terminal has
    the attributes it had before. *)
Theorem raw_mode_and_back (dev : nat -> nat) (init : nat -> termios)
        (allow so se : bool) (t t1 t2 between : Trace) (saved : SavedTermiosMode) :
  remembers E dev init ->
  setRawTerminalMode P E allow so se t = Ok saved t1 ->
  Forall (fun e => is_tcsetattr e = false) between ->
  restoreTerminalMode E saved (t1 ++ between) = Ok tt t2 ->
  forall d, attributes dev init t2 d = attributes dev init t d.
Proof.
  intros Hrem Hraw Hbetween Hrestore d.
  exact (raw_and_back_attributes dev init allow so se t t1 t2 between saved
           Hrem Hraw Hbetween Hrestore d).
Qed.

End RawAndBack.

Lemma one_terminal_remembers (args : list cstr) (ws : list Wakeup)
      (code : option Z) (spawn : SpawnResult) :
  remembers (one_terminal args ws code spawn) (fun _ => 0%nat) (fun _ => Sample.cooked).
Proof. intros h fd. reflexivity. Qed.

Lemma raw_mode_and_back_witness :
  let E := one_terminal [str "winpty"; str "cmd"] [Sample.exited] (Some 0) Spawned in
  exists saved t1 t2,
    setRawTerminalMode Sample.platform E false true true [] = Ok saved t1 /\
    restoreTerminalMode E saved (t1 ++ [Select; WakeupReset]) = Ok tt t2 /\
    attributes (fun _ => 0%nat) (fun _ => Sample.cooked) t1 0%nat
    = raw_output Sample.platform
        (raw_output Sample.platform (raw_input Sample.platform Sample.cooked)) /\
    forall d,
      attributes (fun _ => 0%nat) (fun _ => Sample.cooked) t2 d
      = attributes (fun _ => 0%nat) (fun _ => Sample.cooked) [] d.
Proof.
  intros E. eexists. eexists. eexists.
  split; [vm_compute; reflexivity|].
  split; [vm_compute; reflexivity|].
  split; [vm_compute; reflexivity|].
  eapply (raw_mode_and_back Sample.platform E (fun _ => 0%nat) (fun _ => Sample.cooked)
            false true true [] _ _ [Select; WakeupReset] _
            (one_terminal_remembers _ _ _ _)).
  - vm_compute. reflexivity.
  - repeat constructor.
  - vm_compute. reflexivity.
Defined.


(** ** The events of each part of the program *)

Lemma emits_impl {A} (Q Q' : Event -> Prop) (m : M A) :
  (forall e, Q e -> Q' e) -> emits Q m -> emits Q' m.
Proof.
  intros Himp Hm t. destruct (Hm t) as [calls [H1 H2]].
  exists calls. split; [assumption|]. eapply Forall_impl; eauto.
Qed.

Lemma bind_Stop {A B} (m : M A) (k : A -> M B) (t t' : Trace) (h : Halt) :
  bind m k t = Stop h t' ->
  m t = Stop h t' \/ exists a t1, m t = Ok a t1 /\ k a t1 = Stop h t'.
Proof.
  unfold bind. destruct (m t) as [a t1|h1 t1]; intros H.
  - right. now exists a, t1.
  - left. now inversion H.
Qed.

Lemma halts_ret {A} (H : Halt -> Prop) (a : A) : halts H (ret a).
Proof. intros t h t'. discriminate. Qed.

Lemma halts_emit (H : Halt -> Prop) (e : Event) : halts H (emit e).
Proof. intros t h t'. discriminate. Qed.

Lemma halts_history (H : Halt -> Prop) : halts H history.
Proof. intros t h t'. discriminate. Qed.

Lemma halts_halt {A} (H : Halt -> Prop) (h : Halt) : H h -> halts H (@halt A h).
Proof. intros Hh t h' t' Heq. unfold halt in Heq. now inversion Heq; subst. Qed.

Lemma halts_assert (H : Halt -> Prop) (b : bool) : H Aborted -> halts H (assert b).
Proof. intros Ha. destruct b; [apply halts_ret|now apply halts_halt]. Qed.

Lemma halts_bind {A B} (H : Halt -> Prop) (m : M A) (k : A -> M B) :
  halts H m -> (forall a, halts H (k a)) -> halts H (bind m k).
Proof.
  intros Hm Hk t h t' Heq. apply bind_Stop in Heq.
  destruct Heq as [Heq|[a [t1 [_ Heq]]]]; [exact (Hm _ _ _ Heq)|exact (Hk _ _ _ _ Heq)].
Qed.

Ltac halts_step :=
  first
    [ apply halts_ret
    | apply halts_emit
    | apply halts_history
    | apply halts_assert; unfold launch_failure; auto
    | apply halts_halt; unfold launch_failure; auto
    | apply halts_bind; [|intros ?]
    | match goal with
      | |- halts _ (if ?b then _ else _) => destruct b eqn:?
      | |- halts _ (match ?x with _ => _ end) => destruct x eqn:?
      end ].

Section Parts.

Context (P : Platform) (E : Env).

Lemma setRawTerminalMode_console (a so se : bool) :
  emits (fun e => console_event e = true) (setRawTerminalMode P E a so se).
Proof.
  unfold setRawTerminalMode.
  apply emits_bind; [apply emits_for_each; intros i s; unfold capture, exit; emits_auto|].
  intros r. unfold set_raw, exit. emits_auto.
Qed.

Lemma restoreTerminalMode_console (m : SavedTermiosMode) :
  emits (fun e => console_event e = true) (restoreTerminalMode E m).
Proof. unfold restoreTerminalMode, restore, exit. emits_auto. Qed.

Lemma show_keys_quiet (input : list cstr) :
  emits (fun e => console_event e = true /\ is_tcsetattr e = false)
        (show_keys P input).
Proof.
  induction input as [|buf rest IH]; cbn [show_keys]; [apply emits_halt|].
  destruct buf as [|b0 buf]; [apply emits_ret|].
  unfold show_char, show_code.
  repeat first [ exact IH | apply emits_emit; split; reflexivity | emits_step ].
Qed.

Lemma debugShowKey_console (a : bool) :
  emits (fun e => console_event e = true) (debugShowKey P E a).
Proof.
  unfold debugShowKey. emits_step; [emits_auto|].
  emits_step; [apply setRawTerminalMode_console|].
  emits_step; [|apply restoreTerminalMode_console].
  eapply emits_impl; [|apply show_keys_quiet]. now intros e [H _].
Qed.

Lemma usage_console {A} (program : cstr) (code : Z) :
  emits (fun e => console_event e = true) (@usage A program code).
Proof. unfold usage, printf, exit. emits_auto. Qed.

Lemma parse_options_console (program : cstr) (rest : list cstr) :
  forall out doShowKeys,
    emits (fun e => console_event e = true)
          (parse_options program rest out doShowKeys).
Proof.
  induction rest as [|a rest IH]; intros out doShowKeys; cbn [parse_options].
  - apply emits_ret.
  - unfold exit.
    repeat first [ apply IH | apply usage_console | emits_step ].
Qed.

Lemma parseArguments_console (args : list cstr) :
  emits (fun e => console_event e = true) (parseArguments P E args).
Proof.
  unfold parseArguments. emits_step; [apply parse_options_console|].
  destruct a as [[rest out] doShowKeys]. unfold exit.
  repeat first [ apply debugShowKey_console | apply usage_console | emits_step ].
Qed.

Lemma parseArguments_Ok_trace (args : list cstr) (t t' : Trace) (out : Arguments) :
  parseArguments P E args t = Ok out t' -> t' = t.
Proof.
  unfold parseArguments. intros H.
  apply bind_Ok in H. destruct H as [[[rest out1] d] [t1 [Hparse H]]].
  apply parse_options_Ok in Hparse. destruct Hparse as [-> _].
  apply bind_Ok in H. destruct H as [[] [t2 [Hshow H]]].
  apply bind_Ok in H. destruct H as [[] [t3 [Husage H]]].
  unfold ret in H. inversion H; subst; clear H.
  destruct d.
  - unfold bind, exit, halt in Hshow.
    destruct (debugShowKey P E _ t); discriminate.
  - unfold ret in Hshow. inversion Hshow; subst; clear Hshow.
    destruct (length _ =? 0)%nat.
    + rewrite usage_run in Husage. discriminate.
    + unfold ret in Husage. now inversion Husage.
Qed.

Lemma heapMbsToWcs_silent (Q : Event -> Prop) (text : cstr) :
  emits Q (heapMbsToWcs P E text).
Proof. unfold heapMbsToWcs. emits_auto. Qed.

Lemma new_WakeupFd_env : emits (fun e => env_event e = true) (new_WakeupFd E).
Proof. unfold new_WakeupFd, abort. emits_auto. Qed.

Lemma copy_vars_env (l : list (cstr * cstr)) :
  emits (fun e => env_event e = true) (copy_vars P E l).
Proof.
  induction l as [|[name value] l IH]; cbn [copy_vars]; [apply emits_ret|].
  repeat first [ apply heapMbsToWcs_silent | apply IH | emits_step ].
Qed.

Lemma setupWin32Environment_env :
  emits (fun e => env_event e = true) (setupWin32Environment P E).
Proof.
  unfold setupWin32Environment.
  repeat first [ apply copy_vars_env | emits_step ].
Qed.

Lemma main_open_open (args : Arguments) :
  emits (fun e => open_event e = true) (main_open P E args).
Proof. unfold main_open, exit. emits_auto. Qed.

Lemma main_spawn_spawn (args : Arguments) :
  emits (fun e => spawn_event e = true) (main_spawn P E args).
Proof.
  unfold main_spawn, exit.
  repeat first [ apply heapMbsToWcs_silent | emits_step ].
Qed.

Lemma main_loop_loop (ws : list Wakeup) :
  forall eh sz, emits (fun e => loop_event e = true) (main_loop ws eh sz).
Proof.
  induction ws as [|w ws IH]; intros eh sz; cbn [main_loop]; [emits_auto|].
  unfold check_resize. repeat first [ apply IH | emits_step ].
Qed.

Lemma heapMbsToWcs_halts (text : cstr) : halts launch_failure (heapMbsToWcs P E text).
Proof. unfold heapMbsToWcs. repeat halts_step. Qed.

Lemma main_open_halts (args : Arguments) : halts launch_failure (main_open P E args).
Proof. unfold main_open, exit. repeat halts_step. Qed.

Lemma main_spawn_halts (args : Arguments) : halts launch_failure (main_spawn P E args).
Proof.
  unfold main_spawn, exit.
  repeat first [ apply heapMbsToWcs_halts | halts_step ].
Qed.

End Parts.


(** ** The anatomy of a completed session *)

Section Anatomy.

Context (P : Platform) (E : Env).

Lemma main_open_Ok (args : Arguments) (t t' : Trace) (sz : winsize) :
  main_open P E args t = Ok sz t' ->
  exists cfg,
    t' = t ++ cfg ++ channel_calls (testConerr args) /\
    Forall (fun e => config_event e = true) cfg.
Proof.
  unfold main_open. intros H.
  match type of H with
  | context [WinptyConfigNew ?flags] => set (agentFlags := flags) in H
  end.
  match type of H with
  | context [WinptyConfigSetInitialSize ?c ?r] => set (cols := c) in H; set (rows := r) in H
  end.
  exists ([WinptyConfigNew agentFlags; WinptyConfigSetInitialSize cols rows]
          ++ (if mouseInput args
              then [WinptyConfigSetMouseMode (WINPTY_MOUSE_MODE_FORCE P)] else [])
          ++ [WinptyOpen; WinptyConfigFree; WinptyErrorFree]).
  split; [|destruct (mouseInput args); repeat constructor].
  unfold channel_calls.
  unfold bind, emit, assert, ret, exit, abort, halt in H.
  destruct (winpty_config_new E), (mouseInput args), (winpty_open E),
           (CreateFileW_ok E Conin), (CreateFileW_ok E Conout),
           (CreateFileW_ok E Conerr), (testConerr args);
    try discriminate H; inversion H; subst; clear H;
    rewrite <- !app_assoc; cbn [app]; reflexivity.
Qed.

Lemma main_start_Ok (args : Arguments) (t t' : Trace) (mode : SavedTermiosMode) :
  main_start P E args t = Ok mode t' ->
  exists raw_calls,
    setRawTerminalMode P E (testAllowNonTtys args) true (testConerr args)
                       (t ++ [Sigaction])
    = Ok mode ((t ++ [Sigaction]) ++ raw_calls) /\
    Forall (fun e => console_event e = true) raw_calls /\
    t' = (t ++ [Sigaction]) ++ raw_calls ++ worker_calls (testConerr args).
Proof.
  unfold main_start. intros H.
  apply bind_Ok in H. destruct H as [[] [ta [Ha H]]].
  unfold emit in Ha. inversion Ha; subst ta; clear Ha.
  apply bind_Ok in H. destruct H as [m [tb [Hraw H]]].
  destruct (emits_Ok _ _ _ _ _ (setRawTerminalMode_console P E _ _ _) Hraw)
    as [raw_calls [-> Hall]].
  exists raw_calls.
  assert (m = mode /\ t' = ((t ++ [Sigaction]) ++ raw_calls)
                           ++ worker_calls (testConerr args)) as [-> ->].
  { unfold worker_calls.
    destruct (testConerr args); unfold bind, emit, ret in H; inversion H; subst;
      rewrite <- !app_assoc; cbn [app]; rewrite ?app_nil_r; split; reflexivity. }
  split; [exact Hraw|]. split; [exact Hall|]. now rewrite <- !app_assoc.
Qed.

Lemma main_Ok_anatomy (v : Z) (t : Trace) :
  main P E [] = Ok v t ->
  exists args mode env_calls cfg spawn_calls raw_calls loop_calls restored,
    let c := testConerr args in
    let pre := session_prefix c env_calls cfg spawn_calls in
    let between := session_between c loop_calls in
    Forall (fun e => env_event e = true) env_calls /\
    Forall (fun e => config_event e = true) cfg /\
    Forall (fun e => spawn_event e = true) spawn_calls /\
    Forall (fun e => console_event e = true) raw_calls /\
    Forall (fun e => loop_event e = true) loop_calls /\
    Forall (fun e => exists fd m, e = Tcsetattr fd m) restored /\
    setRawTerminalMode P E (testAllowNonTtys args) true c pre
    = Ok mode (pre ++ raw_calls) /\
    restoreTerminalMode E mode ((pre ++ raw_calls) ++ between)
    = Ok tt (((pre ++ raw_calls) ++ between) ++ restored) /\
    t = ((pre ++ raw_calls) ++ between) ++ restored ++ [CloseHandle ChildHandle] /\
    v = exit_code_of (GetExitCodeProcess E).
Proof.
  unfold main. intros H.
  apply bind_Ok in H. destruct H as [[] [t0 [H0 H]]].
  unfold emit in H0. inversion H0; subst t0; clear H0. cbn [app] in H.
  destruct (_ && _) in H; [now apply child_exec_stops in H|].
  unfold main_session in H.
  apply bind_Ok in H. destruct H as [[] [t1 [H1 H]]].
  apply bind_Ok in H. destruct H as [args [t2 [H2 H]]].
  apply bind_Ok in H. destruct H as [[] [t3 [H3 H]]].
  apply bind_Ok in H. destruct H as [sz [t4 [H4 H]]].
  apply bind_Ok in H. destruct H as [[] [t5 [H5 H]]].
  apply bind_Ok in H. destruct H as [mode [t6 [H6 H]]].
  apply bind_Ok in H. destruct H as [sz' [t7 [H7 H]]].
  apply (emits_Ok _ _ _ _ _ (new_WakeupFd_env E)) in H1.
  destruct H1 as [e1 [-> F1]].
  apply parseArguments_Ok_trace in H2. subst t2.
  apply (emits_Ok _ _ _ _ _ (setupWin32Environment_env P E)) in H3.
  destruct H3 as [e3 [-> F3]].
  apply main_open_Ok in H4. destruct H4 as [cfg [-> Fcfg]].
  apply (emits_Ok _ _ _ _ _ (main_spawn_spawn P E args)) in H5.
  destruct H5 as [e5 [-> F5]].
  apply main_start_Ok in H6. destruct H6 as [raw_calls [Hraw [Fraw ->]]].
  apply (emits_Ok _ _ _ _ _ (main_loop_loop _ _ _)) in H7.
  destruct H7 as [e7 [-> F7]].
  apply main_shutdown_Ok in H. destruct H as [restored [Hrestore [Frestored [-> ->]]]].
  exists args, mode, (e1 ++ e3), cfg, e5, raw_calls, e7, restored.
  cbv zeta.
  assert (Hpre : ((([Setlocale] ++ e1) ++ e3) ++ cfg ++ channel_calls (testConerr args))
                   ++ e5 ++ [Sigaction]
                 = session_prefix (testConerr args) (e1 ++ e3) cfg e5).
  { unfold session_prefix. now rewrite <- !app_assoc. }
  rewrite <- !app_assoc in Hraw. repeat rewrite <- !app_assoc in Hrestore.
  rewrite <- !app_assoc. rewrite <- !app_assoc in Hpre.
  unfold session_between. rewrite <- Hpre. rewrite <- !app_assoc.
  repeat split; try assumption.
  apply Forall_app; split; assumption.
Qed.

End Anatomy.


(** ** What a session leaves behind *)

Lemma emits_Stop {A} (Q : Event -> Prop) (m : M A) (t t' : Trace) (h : Halt) :
  emits Q m -> m t = Stop h t' -> exists calls, t' = t ++ calls /\ Forall Q calls.
Proof.
  intros Hm Heq. destruct (Hm t) as [calls [H1 H2]].
  rewrite Heq in H1. now exists calls.
Qed.

Lemma count_app (f : Event -> bool) (a b : Trace) :
  count f (a ++ b) = (count f a + count f b)%nat.
Proof. unfold count. now rewrite filter_app, length_app. Qed.

Lemma count_none (Q : Event -> Prop) (f : Event -> bool) (l : Trace) :
  Forall Q l -> (forall e, Q e -> f e = false) -> count f l = 0%nat.
Proof.
  intros Hall Hf. induction Hall as [|e l He _ IH]; [reflexivity|].
  unfold count in *. cbn [filter]. now rewrite (Hf e He).
Qed.

Lemma quiet_part (Q : Event -> bool) (l : Trace) :
  (forall e, Q e = true -> is_tcsetattr e = false) ->
  Forall (fun e => Q e = true) l -> Forall (fun e => is_tcsetattr e = false) l.
Proof. intros Himp. apply Forall_impl. exact Himp. Qed.

Lemma In_before (Q : Event -> bool) (e : Event) (t calls : Trace) :
  Forall (fun x => Q x = true) calls -> Q e = false -> In e (t ++ calls) -> In e t.
Proof.
  intros Hall He Hin. apply in_app_or in Hin. destruct Hin as [Hin|Hin]; [exact Hin|].
  rewrite Forall_forall in Hall. specialize (Hall _ Hin). congruence.
Qed.

Lemma env_event_quiet (e : Event) : env_event e = true -> is_tcsetattr e = false.
Proof. destruct e; simpl; congruence. Qed.

Lemma config_event_quiet (e : Event) : config_event e = true -> is_tcsetattr e = false.
Proof. destruct e; simpl; congruence. Qed.

Lemma open_event_quiet (e : Event) : open_event e = true -> is_tcsetattr e = false.
Proof. destruct e; simpl; congruence. Qed.

Lemma spawn_event_quiet (e : Event) : spawn_event e = true -> is_tcsetattr e = false.
Proof. destruct e; simpl; congruence. Qed.

Lemma loop_event_quiet (e : Event) : loop_event e = true -> is_tcsetattr e = false.
Proof. destruct e; simpl; congruence. Qed.

Lemma session_prefix_quiet (c : bool) (env_calls cfg spawn_calls : Trace) :
  Forall (fun e => env_event e = true) env_calls ->
  Forall (fun e => config_event e = true) cfg ->
  Forall (fun e => spawn_event e = true) spawn_calls ->
  Forall (fun e => is_tcsetattr e = false) (session_prefix c env_calls cfg spawn_calls).
Proof.
  intros Fe Fc Fs. unfold session_prefix, channel_calls.
  repeat (apply Forall_app; split);
    first [ exact (quiet_part _ _ env_event_quiet Fe)
          | exact (quiet_part _ _ config_event_quiet Fc)
          | exact (quiet_part _ _ spawn_event_quiet Fs)
          | destruct c; repeat constructor ].
Qed.

Lemma session_between_quiet (c : bool) (loop_calls : Trace) :
  Forall (fun e => loop_event e = true) loop_calls ->
  Forall (fun e => is_tcsetattr e = false) (session_between c loop_calls).
Proof.
  intros Fl. unfold session_between, worker_calls, shutdown_calls.
  repeat (apply Forall_app; split);
    first [ exact (quiet_part _ _ loop_event_quiet Fl)
          | destruct c; repeat constructor ].
Qed.

Section Aftermath.

Context (P : Platform) (E : Env).

(** A completed session leaves every terminal as it found it.  On terminals
    that remember their attributes, whatever descriptors share a device:
    when [main] returns, the attributes of every terminal are those it had
    when the program started. *)
Theorem completed_session_restores_the_terminal
        (dev : nat -> nat) (init : nat -> termios) (v : Z) (t : Trace) :
  remembers E dev init ->
  main P E [] = Ok v t ->
  forall d, attributes dev init t d = init d.
Proof.
  intros Hrem Hmain d.
  destruct (main_Ok_anatomy P E v t Hmain)
    as [args [mode [env_calls [cfg [spawn_calls [raw_calls [loop_calls [restored H]]]]]]]].
  cbv zeta in H.
  destruct H as [Fe [Fc [Fs [_ [Fl [_ [Hraw [Hrestore [-> _]]]]]]]]].
  rewrite app_assoc, attributes_app. cbn [fold_left set_attributes].
  rewrite (raw_and_back_attributes P E dev init _ _ _ _ _ _ _ _ Hrem Hraw
             (session_between_quiet _ _ Fl) Hrestore d).
  unfold attributes. apply set_attributes_quiet.
  now apply session_prefix_quiet.
Qed.

(** A completed session closes what it opened.  When [main] returns, each
    channel handle has been closed as often as it was opened, at most once,
    and the handle of the child process, which [winpty_spawn] hands over, has
    been closed once. *)
Theorem completed_session_closes_its_handles (v : Z) (t : Trace) :
  main P E [] = Ok v t ->
  (forall h, h <> ChildHandle ->
             count (closes h) t = count (opens h) t /\ (count (opens h) t <= 1)%nat) /\
  count (closes ChildHandle) t = 1%nat /\
  count (opens ChildHandle) t = 0%nat.
Proof.
  intros Hmain.
  destruct (main_Ok_anatomy P E v t Hmain)
    as [args [mode [env_calls [cfg [spawn_calls [raw_calls [loop_calls [restored H]]]]]]]].
  cbv zeta in H.
  destruct H as [Fe [Fc [Fs [Fr [Fl [Ft [_ [_ [-> _]]]]]]]]].
  assert (Hcount : forall f,
            (forall e, f e = true -> exists h, e = CreateFileW h \/ e = CloseHandle h) ->
            count f (((session_prefix (testConerr args) env_calls cfg spawn_calls
                       ++ raw_calls) ++ session_between (testConerr args) loop_calls)
                     ++ restored ++ [CloseHandle ChildHandle])
            = (count f (channel_calls (testConerr args))
               + count f (shutdown_calls (testConerr args))
               + count f [CloseHandle ChildHandle])%nat).
  { intros f Hf.
    assert (Hno : forall e, (forall h, e <> CreateFileW h /\ e <> CloseHandle h) ->
                            f e = false).
    { intros e He. destruct (f e) eqn:Hfe; [|reflexivity].
      destruct (Hf e Hfe) as [h [Hh|Hh]]; destruct (He h); congruence. }
    unfold session_prefix, session_between. rewrite !count_app.
    rewrite (count_none _ f env_calls Fe)
      by (intros e He; apply Hno; intros h; split; intros ->; discriminate).
    rewrite (count_none _ f cfg Fc)
      by (intros e He; apply Hno; intros h; split; intros ->; discriminate).
    rewrite (count_none _ f spawn_calls Fs)
      by (intros e He; apply Hno; intros h; split; intros ->; discriminate).
    rewrite (count_none _ f raw_calls Fr)
      by (intros e He; apply Hno; intros h; split; intros ->; discriminate).
    rewrite (count_none _ f loop_calls Fl)
      by (intros e He; apply Hno; intros h; split; intros ->; discriminate).
    rewrite (count_none _ f restored Ft)
      by (intros e [fd [m ->]]; apply Hno; intros h; split; discriminate).
    assert (H1 : count f [Setlocale] = 0%nat)
      by (unfold count; cbn [filter]; rewrite Hno; [reflexivity|];
          intros h; split; discriminate).
    assert (H2 : count f [Sigaction] = 0%nat)
      by (unfold count; cbn [filter]; rewrite Hno; [reflexivity|];
          intros h; split; discriminate).
    assert (H3 : count f (worker_calls (testConerr args)) = 0%nat).
    { unfold worker_calls, count. destruct (testConerr args); cbn [app filter];
        rewrite !Hno; try reflexivity; intros h; split; discriminate. }
    rewrite H1, H2, H3. lia. }
  assert (Hopens : forall h e, opens h e = true ->
                     exists h', e = CreateFileW h' \/ e = CloseHandle h').
  { intros h e. destruct e; try discriminate. eauto. }
  assert (Hcloses : forall h e, closes h e = true ->
                      exists h', e = CreateFileW h' \/ e = CloseHandle h').
  { intros h e. destruct e; try discriminate. eauto. }
  split; [|split].
  - intros h Hh.
    rewrite (Hcount _ (Hcloses h)), (Hcount _ (Hopens h)).
    unfold channel_calls, shutdown_calls, count.
    destruct h, (testConerr args); try congruence; cbn; lia.
  - rewrite (Hcount _ (Hcloses ChildHandle)).
    unfold channel_calls, shutdown_calls, count.
    destruct (testConerr args); reflexivity.
  - rewrite (Hcount _ (Hopens ChildHandle)).
    unfold channel_calls, shutdown_calls, count.
    destruct (testConerr args); reflexivity.
Qed.

(** A launch that fails has not touched the terminal.  When the process
    ends after it has begun to open the back end and before it registers the
    resize handler, it ends as a launch failure (exit code 1, an assertion, or
    the overflow of the command line), and it has never called [tcsetattr]:
    there is nothing to restore. *)
Theorem failed_launch_leaves_the_terminal (h : Halt) (t : Trace) :
  main P E [] = Stop h t ->
  In WinptyOpen t ->
  ~ In Sigaction t ->
  launch_failure h /\ Forall (fun e => is_tcsetattr e = false) t.
Proof.
  unfold main. intros H Hopen Hsig.
  apply bind_Stop in H. destruct H as [H|[[] [t0 [H0 H]]]]; [discriminate H|].
  unfold emit in H0. inversion H0; subst t0; clear H0. cbn [app] in H.
  destruct (_ && _) in H.
  { exfalso. unfold child_exec, bind, emit, halt, exit in H.
    destruct (execvp E _ _); inversion H; subst; cbn [In app] in Hopen;
      intuition discriminate. }
  unfold main_session in H.
  apply bind_Stop in H. destruct H as [H|[[] [t1 [H1 H]]]].
  { exfalso. apply (emits_Stop _ _ _ _ _ (new_WakeupFd_env E)) in H.
    destruct H as [calls [-> F]].
    apply (In_before _ WinptyOpen _ _ F eq_refl) in Hopen.
    cbn [In] in Hopen. intuition discriminate. }
  apply (emits_Ok _ _ _ _ _ (new_WakeupFd_env E)) in H1. destruct H1 as [e1 [-> F1]].
  apply bind_Stop in H. destruct H as [H|[args [t2 [H2 H]]]].
  { exfalso. apply (emits_Stop _ _ _ _ _ (parseArguments_console P E _)) in H.
    destruct H as [calls [-> F]].
    apply (In_before _ WinptyOpen _ _ F eq_refl) in Hopen.
    apply (In_before _ WinptyOpen _ _ F1 eq_refl) in Hopen.
    cbn [In] in Hopen. intuition discriminate. }
  apply parseArguments_Ok_trace in H2. subst t2.
  apply bind_Stop in H. destruct H as [H|[[] [t3 [H3 H]]]].
  { exfalso. apply (emits_Stop _ _ _ _ _ (setupWin32Environment_env P E)) in H.
    destruct H as [calls [-> F]].
    apply (In_before _ WinptyOpen _ _ F eq_refl) in Hopen.
    apply (In_before _ WinptyOpen _ _ F1 eq_refl) in Hopen.
    cbn [In] in Hopen. intuition discriminate. }
  apply (emits_Ok _ _ _ _ _ (setupWin32Environment_env P E)) in H3.
  destruct H3 as [e3 [-> F3]].
  assert (Q3 : Forall (fun e => is_tcsetattr e = false) (([Setlocale] ++ e1) ++ e3)).
  { repeat (apply Forall_app; split); [repeat constructor| |];
      eapply quiet_part; eauto using env_event_quiet. }
  apply bind_Stop in H. destruct H as [H|[sz [t4 [H4 H]]]].
  { split; [exact (main_open_halts P E args _ _ _ H)|].
    apply (emits_Stop _ _ _ _ _ (main_open_open P E args)) in H.
    destruct H as [calls [-> F]].
    apply Forall_app; split; [exact Q3|].
    exact (quiet_part _ _ open_event_quiet F). }
  apply (emits_Ok _ _ _ _ _ (main_open_open P E args)) in H4.
  destruct H4 as [e4 [-> F4]].
  apply bind_Stop in H. destruct H as [H|[[] [t5 [H5 H]]]].
  { split; [exact (main_spawn_halts P E args _ _ _ H)|].
    apply (emits_Stop _ _ _ _ _ (main_spawn_spawn P E args)) in H.
    destruct H as [calls [-> F]].
    apply Forall_app; split; [apply Forall_app; split; [exact Q3|]|].
    - exact (quiet_part _ _ open_event_quiet F4).
    - exact (quiet_part _ _ spawn_event_quiet F). }
  exfalso. apply Hsig. clear Hsig Hopen.
  apply bind_Stop in H. destruct H as [H|[mode [t6 [H6 H]]]].
  { unfold main_start in H.
    apply bind_Stop in H. destruct H as [H|[[] [ta [Ha H]]]]; [discriminate H|].
    unfold emit in Ha. inversion Ha; subst ta; clear Ha.
    apply bind_Stop in H. destruct H as [H|[m [tb [_ H]]]].
    - apply (emits_Stop _ _ _ _ _ (setRawTerminalMode_console P E _ _ _)) in H.
      destruct H as [calls [-> _]]. rewrite !in_app_iff. cbn [In]. tauto.
    - destruct (testConerr args); unfold bind, emit, ret in H; discriminate H. }
  apply main_start_Ok in H6. destruct H6 as [raw_calls [_ [_ ->]]].
  apply bind_Stop in H. destruct H as [H|[sz' [t7 [H7 H]]]].
  { apply (emits_Stop _ _ _ _ _ (main_loop_loop _ _ _)) in H.
    destruct H as [calls [-> _]]. rewrite !in_app_iff. cbn [In]. tauto. }
  apply (emits_Ok _ _ _ _ _ (main_loop_loop _ _ _)) in H7. destruct H7 as [e7 [-> _]].
  rewrite main_shutdown_unfold in H.
  apply bind_Stop in H. destruct H as [H|[[] [t8 [_ H]]]].
  - apply (emits_Stop _ _ _ _ _ (restoreTerminalMode_console E _)) in H.
    destruct H as [calls [-> _]]. rewrite !in_app_iff. cbn [In]. tauto.
  - unfold bind, emit, ret in H. discriminate H.
Qed.

End Aftermath.

Lemma completed_session_restores_the_terminal_witness :
  let E := one_terminal [str "winpty"; str "cmd"] [Sample.exited] (Some 0) Spawned in
  exists t,
    main Sample.platform E [] = Ok 0 t /\
    In (Tcsetattr 0 (raw_input Sample.platform Sample.cooked)) t /\
    forall d, attributes (fun _ => 0%nat) (fun _ => Sample.cooked) t d = Sample.cooked.
Proof.
  intros E. eexists.
  assert (Hmain : main Sample.platform E [] = Ok 0 _) by (vm_compute; reflexivity).
  split; [exact Hmain|]. split.
  - vm_compute. tauto.
  - exact (completed_session_restores_the_terminal Sample.platform E
             (fun _ => 0%nat) (fun _ => Sample.cooked) 0 _
             (one_terminal_remembers _ _ _ _) Hmain).
Defined.

Lemma completed_session_closes_its_handles_witness :
  exists t,
    main Sample.platform (session_env (Some 0)) [] = Ok 0 t /\
    count (opens Conerr) t = 1%nat /\
    ((forall h, h <> ChildHandle ->
                count (closes h) t = count (opens h) t /\ (count (opens h) t <= 1)%nat) /\
     count (closes ChildHandle) t = 1%nat /\
     count (opens ChildHandle) t = 0%nat).
Proof.
  eexists.
  assert (Hmain : main Sample.platform (session_env (Some 0)) [] = Ok 0 _)
    by (vm_compute; reflexivity).
  split; [exact Hmain|]. split; [vm_compute; reflexivity|].
  exact (completed_session_closes_its_handles Sample.platform _ 0 _ Hmain).
Defined.

Lemma failed_launch_leaves_the_terminal_witness :
  let E := one_terminal [str "winpty"; str "cmd"] [Sample.exited] (Some 0)
                        (SpawnFailed 3 2 (L (str "refused"))) in
  exists t,
    main Sample.platform E [] = Stop (Exited 1) t /\
    In WinptySpawn t /\
    launch_failure (Exited 1) /\ Forall (fun e => is_tcsetattr e = false) t.
Proof.
  intros E. eexists.
  assert (Hmain : main Sample.platform E [] = Stop (Exited 1) _)
    by (vm_compute; reflexivity).
  split; [exact Hmain|]. split; [vm_compute; tauto|].
  apply (failed_launch_leaves_the_terminal Sample.platform E _ _ Hmain).
  - vm_compute. tauto.
  - vm_compute. intuition discriminate.
Defined.


(** ** Raw mode is all or nothing *)

Section AllOrNothing.

Context (P : Platform) (E : Env).

(** Raw mode needs every requested terminal.  Without [-Xallow-non-tty], if
    one of the streams the caller asks for is not a terminal,
    [setRawTerminalMode] ends the process with exit code 1, and it has
    changed the attributes of no stream: the checks of all three streams come
    before the first [tcsetattr]. *)
Theorem raw_mode_needs_every_terminal (so se : bool) (i : nat) (t : Trace) :
  nth i [true; so; se] false = true ->
  isatty E i = false ->
  exists calls,
    setRawTerminalMode P E false so se t = Stop (Exited 1) (t ++ calls) /\
    Forall (fun e => is_tcsetattr e = false) calls.
Proof.
  intros Hreq Htty.
  unfold setRawTerminalMode. cbn [for_each].
  unfold capture, valid_at, bind, history, emit, exit, halt, ret.
  destruct i as [|[|[|i]]]; cbn [nth] in Hreq;
    [| | |destruct i; discriminate Hreq]; subst; rewrite ?Htty; cbn;
    repeat match goal with
           | |- context [isatty E ?fd] => destruct (isatty E fd); cbn
           | |- context [tcgetattr E ?h ?fd] => destruct (tcgetattr E h fd); cbn
           | |- context [if ?b then _ else _] => destruct b; cbn
           end;
    try discriminate;
    eexists; (split; [reflexivity|repeat constructor]).
Qed.

End AllOrNothing.

Lemma raw_mode_needs_every_terminal_witness :
  exists calls,
    setRawTerminalMode Sample.platform piped_env false true false []
    = Stop (Exited 1) ([] ++ calls) /\
    Forall (fun e => is_tcsetattr e = false) calls.
Proof.
  apply (raw_mode_needs_every_terminal Sample.platform piped_env true false 1%nat []);
    reflexivity.
Defined.


(** ** [--showkey] *)

Lemma for_each_chars (f : ascii -> M unit) (g : ascii -> Trace) :
  (forall c t, f c t = Ok tt (t ++ g c)) ->
  forall (suffix prefix : cstr) (t : Trace),
    for_each (seq (length prefix) (length suffix))
             (fun i _ => f (nth i (prefix ++ suffix) NUL)) tt t
    = Ok tt (t ++ flat_map g suffix).
Proof.
  intros Hf. induction suffix as [|c suffix IH]; intros prefix t.
  - cbn. now rewrite app_nil_r.
  - cbn [length seq for_each flat_map]. unfold bind at 1.
    rewrite Hf. rewrite app_nth2 by lia. rewrite Nat.sub_diag. cbn [nth].
    specialize (IH (prefix ++ [c]) (t ++ g c)).
    rewrite length_app in IH. cbn [length] in IH.
    replace (length prefix + 1)%nat with (S (length prefix)) in IH by lia.
    rewrite <- app_assoc in IH. cbn [app] in IH.
    rewrite IH. now rewrite <- app_assoc.
Qed.

Section ShowKey.

Context (P : Platform) (E : Env).

Lemma show_char_trace (c : ascii) (t : Trace) :
  show_char P c t = Ok tt (t ++ key_echo P c).
Proof.
  unfold show_char, key_echo. destruct (Ascii.eqb _ NUL).
  - reflexivity.
  - unfold bind, emit. now rewrite <- app_assoc.
Qed.

Lemma show_code_trace (c : ascii) (t : Trace) :
  show_code c t = Ok tt (t ++ key_code c).
Proof. unfold show_code, key_code, bind, emit. now rewrite <- app_assoc. Qed.

Lemma show_keys_buffer (buf : cstr) (rest : list cstr) (t : Trace) :
  buf <> [] ->
  show_keys P (buf :: rest) t
  = if ends_input buf then Ok tt (t ++ shown P buf)
    else show_keys P rest (t ++ shown P buf).
Proof.
  intros Hne. destruct buf as [|b0 buf]; [congruence|].
  cbn [show_keys ends_input].
  pose proof (for_each_chars (show_char P) (key_echo P) show_char_trace
                (b0 :: buf) [] t) as Hchars.
  pose proof (for_each_chars show_code key_code show_code_trace
                (b0 :: buf) [] (t ++ flat_map (key_echo P) (b0 :: buf))) as Hcodes.
  change (length (@nil ascii)) with 0%nat in Hchars, Hcodes.
  change ([] ++ b0 :: buf) with (b0 :: buf) in Hchars, Hcodes.
  unfold bind at 1. rewrite Hchars.
  unfold bind at 1. rewrite Hcodes.
  unfold shown. rewrite <- app_assoc.
  unfold CTRL_D. destruct (Ascii.eqb b0 "004"); reflexivity.
Qed.

(** [--showkey] shows every key up to the end of the input.  The reads up
    to the first one that is empty (end of file) or starts with Ctrl-D are
    each echoed, control characters in caret notation, and then listed byte by
    byte; the read that starts with Ctrl-D is shown too; whatever input comes
    after it is not looked at, and the loop returns. *)
Theorem show_keys_until_the_end_of_input
        (before : list cstr) (last : cstr) (rest : list cstr) (t : Trace) :
  Forall (fun buf => ends_input buf = false) before ->
  ends_input last = true ->
  show_keys P (before ++ last :: rest) t
  = Ok tt (t ++ flat_map (shown P) (before ++ [last])).
Proof.
  intros Hbefore Hlast. revert t.
  induction Hbefore as [|buf before Hbuf _ IH]; intros t.
  - cbn [app flat_map]. rewrite app_nil_r.
    destruct last as [|b0 last].
    + cbn. now rewrite app_nil_r.
    + rewrite show_keys_buffer by discriminate. now rewrite Hlast.
  - cbn [app flat_map].
    rewrite show_keys_buffer by (intros ->; discriminate Hbuf).
    rewrite Hbuf, IH. now rewrite <- app_assoc.
Qed.

(** [--showkey] leaves the terminal as it found it.  On terminals that
    remember their attributes: when [debugShowKey] returns, every terminal has
    the attributes it had before, and the only descriptor whose attributes it
    has set on the way is standard input. *)
Theorem showkey_restores_the_terminal
        (dev : nat -> nat) (init : nat -> termios) (allow : bool) (t t' : Trace) :
  remembers E dev init ->
  debugShowKey P E allow t = Ok tt t' ->
  (forall d, attributes dev init t' d = attributes dev init t d) /\
  exists calls,
    t' = t ++ calls /\
    forall fd m, In (Tcsetattr fd m) calls -> fd = STDIN_FILENO.
Proof.
  intros Hrem H. unfold debugShowKey in H.
  apply bind_Ok in H. destruct H as [[] [t0 [H0 H]]].
  unfold emit in H0. inversion H0; subst t0; clear H0.
  apply bind_Ok in H. destruct H as [saved [t1 [Hraw H]]].
  apply bind_Ok in H. destruct H as [[] [t2 [Hshow Hrestore]]].
  destruct (emits_Ok _ _ _ _ _ (show_keys_quiet P (reads E)) Hshow)
    as [between [-> Hbetween]].
  assert (Hquiet : Forall (fun e => is_tcsetattr e = false) between).
  { eapply Forall_impl; [|exact Hbetween]. now intros e [_ He]. }
  split.
  - intros d.
    rewrite (raw_and_back_attributes P E dev init _ _ _ _ _ _ _ _ Hrem Hraw
               Hquiet Hrestore d).
    rewrite attributes_app. reflexivity.
  - pose proof (setRawTerminalMode_valid P E _ _ _ _ _ _ Hraw) as Hvalid.
    destruct (setRawTerminalMode_Ok P E _ _ _ _ _ _ Hraw) as [_ [calls [-> Hcalls]]].
    rewrite (restoreTerminalMode_calls E saved _ _ Hrestore).
    eexists. split; [rewrite <- !app_assoc; reflexivity|].
    assert (Hzero : forall fd, valid_at saved fd = true -> fd = STDIN_FILENO).
    { intros fd. unfold valid_at. rewrite Hvalid.
      destruct fd as [|[|[|fd]]]; cbn [nth andb]; try discriminate; try reflexivity.
      destruct fd; discriminate. }
    intros fd m Hin. cbn [app In] in Hin.
    destruct Hin as [Hin|Hin]; [discriminate Hin|].
    rewrite !in_app_iff in Hin. destruct Hin as [Hin|[Hin|Hin]].
    + rewrite Forall_forall in Hcalls. destruct (Hcalls _ Hin) as [fd' [m' [Heq Hv]]].
      inversion Heq; subst. now apply Hzero.
    + rewrite Forall_forall in Hquiet. specialize (Hquiet _ Hin). discriminate Hquiet.
    + cbn [flat_map] in Hin. rewrite !in_app_iff in Hin.
      destruct Hin as [Hin|[Hin|[Hin|Hin]]]; try (destruct Hin).
      * destruct (valid_at saved 0) eqn:V; cbn [In] in Hin; [|destruct Hin].
        destruct Hin as [Hin|[]]. now inversion Hin.
      * destruct (valid_at saved 1) eqn:V; cbn [In] in Hin; [|destruct Hin].
        apply Hzero in V. discriminate V.
      * destruct (valid_at saved 2) eqn:V; cbn [In] in Hin; [|destruct Hin].
        apply Hzero in V. discriminate V.
Qed.

End ShowKey.

Lemma show_keys_until_the_end_of_input_witness :
  show_keys Sample.platform ([str "ab"] ++ [CTRL_D] :: [str "later"]) []
  = Ok tt ([] ++ flat_map (shown Sample.platform) ([str "ab"] ++ [[CTRL_D]])).
Proof.
  apply (show_keys_until_the_end_of_input Sample.platform [str "ab"] [CTRL_D]
           [str "later"] []).
  - repeat constructor.
  - reflexivity.
Defined.

Lemma showkey_restores_the_terminal_witness :
  let E := one_terminal [str "winpty"; str "--showkey"] [] None Spawned in
  exists t',
    debugShowKey Sample.platform E false [] = Ok tt t' /\
    In (Tcsetattr 0 (raw_input Sample.platform Sample.cooked)) t' /\
    ((forall d, attributes (fun _ => 0%nat) (fun _ => Sample.cooked) t' d
                = attributes (fun _ => 0%nat) (fun _ => Sample.cooked) [] d) /\
     exists calls,
       t' = [] ++ calls /\
       forall fd m, In (Tcsetattr fd m) calls -> fd = STDIN_FILENO).
Proof.
  intros E. eexists.
  assert (Hrun : debugShowKey Sample.platform E false [] = Ok tt _)
    by (vm_compute; reflexivity).
  split; [exact Hrun|]. split; [vm_compute; tauto|].
  exact (showkey_restores_the_terminal Sample.platform E
           (fun _ => 0%nat) (fun _ => Sample.cooked) false [] _
           (one_terminal_remembers _ _ _ _) Hrun).
Defined.


(** ** The Win32 environment and the flags of the back end *)

Section Setup.

Context (P : Platform) (E : Env).

Lemma heapMbsToWcs_run (text : cstr) (t : Trace) :
  heapMbsToWcs P E text t
  = if converts P E text
    then Ok {| capacity := size_t P (strlen text * 2 + 1);
               contents := widened P E text |} t
    else Stop Aborted t.
Proof.
  unfold heapMbsToWcs, converts, widened, bind, assert, abort, halt, ret.
  destruct (_ && _); reflexivity.
Qed.

Lemma copy_vars_step (name value : cstr) (l : list (cstr * cstr)) (t : Trace) :
  copy_vars P E ((name, value) :: l) t
  = if converts P E name && converts P E value
    then copy_vars P E l (t ++ [copy_call P E (name, value)])
    else Stop Aborted t.
Proof.
  cbn [copy_vars]. unfold bind at 1. rewrite heapMbsToWcs_run.
  destruct (converts P E name); cbn [andb]; [|reflexivity].
  unfold bind at 1. rewrite heapMbsToWcs_run.
  destruct (converts P E value); reflexivity.
Qed.

Lemma copy_vars_run (l : list (cstr * cstr)) :
  forall t,
    (all_convert P E l = true ->
     copy_vars P E l t = Ok tt (t ++ map (copy_call P E) l)) /\
    (all_convert P E l = false -> exists t', copy_vars P E l t = Stop Aborted t').
Proof.
  induction l as [|[name value] l IH]; intros t.
  - cbn [copy_vars all_convert forallb map].
    split; [intros _; unfold ret; now rewrite app_nil_r|discriminate].
  - rewrite copy_vars_step. unfold all_convert in *. cbn [forallb map fst snd].
    destruct (converts P E name && converts P E value); cbn [andb].
    + destruct (IH (t ++ [copy_call P E (name, value)])) as [IHok IHstop].
      split; [|exact IHstop].
      intros Hall. rewrite (IHok Hall). now rewrite <- app_assoc.
    + split; [discriminate|]. intros _. now exists t.
Qed.

Lemma varsToCopy_spec (name value : cstr) :
  In (name, value) (varsToCopy E) <->
  In name vars /\ value <> [] /\
  exists val, getenv E name = Some val /\ value = c_str val.
Proof.
  unfold varsToCopy. rewrite in_flat_map. split.
  - intros [v [Hv Hin]].
    destruct (getenv E v) as [val|] eqn:Hget; [|destruct Hin].
    destruct (c_str val) as [|c rest] eqn:Hval; cbn [is_nil] in Hin; [destruct Hin|].
    destruct Hin as [Heq|[]]. inversion Heq; subst.
    split; [exact Hv|]. split; [discriminate|].
    exists val. now split.
  - intros [Hname [Hne [val [Hget ->]]]].
    exists name. split; [exact Hname|]. rewrite Hget.
    destruct (c_str val) as [|c rest]; [congruence|]. now left.
Qed.

Lemma varsToCopy_once : NoDup (map fst (varsToCopy E)).
Proof.
  unfold varsToCopy, vars. cbn [flat_map].
  destruct (getenv E (str "WINPTY_DEBUG")) as [v1|];
    destruct (getenv E (str "WINPTY_SHOW_CONSOLE")) as [v2|];
    repeat match goal with
           | |- context [is_nil ?x] => destruct x; cbn [is_nil]
           end;
    cbn [app map fst];
    repeat (constructor; [cbn [In]; intros Hin;
                          repeat (destruct Hin as [Hin|Hin]; [discriminate Hin|]);
                          exact Hin|]);
    constructor.
Qed.

(** [setupWin32Environment] copies the debugging variables that are set
    and not empty, and clears [TERM] last.  The variables it copies are
    those of [WINPTY_DEBUG] and [WINPTY_SHOW_CONSOLE] that are set and not
    empty, each once, with the value [getenv] gave.  When the name and the
    value of each of them convert to wide characters, it returns, and its
    calls are: the synchronisation of the environment where the platform has
    it, for each of these variables one [SetEnvironmentVariableW] of the
    converted name to the converted value, and finally the call that removes
    [TERM].  Otherwise it aborts in the assertion of the conversion. *)
Theorem setupWin32Environment_clears_TERM_last (t : Trace) :
  (forall name value,
      In (name, value) (varsToCopy E) <->
      In name vars /\ value <> [] /\
      exists val, getenv E name = Some val /\ value = c_str val) /\
  NoDup (map fst (varsToCopy E)) /\
  (all_convert P E (varsToCopy E) = true ->
   setupWin32Environment P E t
   = Ok tt (t ++ sync_calls P ++ map (copy_call P E) (varsToCopy E)
              ++ [SetEnvironmentVariableW (L (str "TERM")) None])) /\
  (all_convert P E (varsToCopy E) = false ->
   exists t', setupWin32Environment P E t = Stop Aborted t').
Proof.
  split; [exact varsToCopy_spec|]. split; [exact varsToCopy_once|].
  assert (Hsync : (if CW_SYNC_WINENV_available P
                   then emit CygwinInternalSyncWinenv else ret tt) t
                  = Ok tt (t ++ sync_calls P)).
  { unfold sync_calls. destruct (CW_SYNC_WINENV_available P); [reflexivity|].
    unfold ret. now rewrite app_nil_r. }
  assert (Hrun : setupWin32Environment P E t
                 = match copy_vars P E (varsToCopy E) (t ++ sync_calls P) with
                   | Ok _ t1 =>
                       Ok tt (t1 ++ [SetEnvironmentVariableW (L (str "TERM")) None])
                   | Stop h t1 => Stop h t1
                   end).
  { unfold setupWin32Environment. unfold bind at 1. rewrite Hsync.
    unfold bind at 1.
    destruct (copy_vars P E (varsToCopy E) (t ++ sync_calls P)); reflexivity. }
  rewrite Hrun.
  destruct (copy_vars_run (varsToCopy E) (t ++ sync_calls P)) as [Hok Hstop].
  split.
  - intros Hall. rewrite (Hok Hall). now rewrite <- !app_assoc.
  - intros Hall. destruct (Hstop Hall) as [t' ->]. now exists t'.
Qed.

Lemma land_lor_same (a x : Z) : Z.land (Z.lor a x) x = x.
Proof.
  apply Z.bits_inj'. intros n _. rewrite Z.land_spec, Z.lor_spec.
  destruct (Z.testbit a n), (Z.testbit x n); reflexivity.
Qed.

Lemma land_lor_other (a y x : Z) :
  Z.land y x = 0 -> Z.land (Z.lor a y) x = Z.land a x.
Proof. intros H. now rewrite Z.land_lor_distr_l, H, Z.lor_0_r. Qed.

(** The flags of the back end follow the options.  The first call of
    [main] to the back end is [winpty_config_new]; when the four flag
    constants have no bit in common, its flags hold the desktop-creation
    flag, and each of the flags for the error channel, plain output and
    color escapes exactly when its option was given. *)
Theorem agent_flags_follow_the_options (args : Arguments) (t : Trace) :
  disjoint_flags P ->
  exists flags rest,
    result_trace (main_open P E args t) = t ++ WinptyConfigNew flags :: rest /\
    Z.land flags (WINPTY_FLAG_ALLOW_CURPROC_DESKTOP_CREATION P)
    = WINPTY_FLAG_ALLOW_CURPROC_DESKTOP_CREATION P /\
    Z.land flags (WINPTY_FLAG_CONERR P)
    = (if testConerr args then WINPTY_FLAG_CONERR P else 0) /\
    Z.land flags (WINPTY_FLAG_PLAIN_OUTPUT P)
    = (if testPlainOutput args then WINPTY_FLAG_PLAIN_OUTPUT P else 0) /\
    Z.land flags (WINPTY_FLAG_COLOR_ESCAPES P)
    = (if testColorEscapes args then WINPTY_FLAG_COLOR_ESCAPES P else 0).
Proof.
  intros [Hca [Hpa [Hoa [Hcp [Hco Hpo]]]]].
  unfold main_open.
  match goal with
  | |- context [bind (emit (WinptyConfigNew ?f)) ?k] => set (flags := f); set (k0 := k)
  end.
  assert (Hk : emits (fun e => open_event e = true) (k0 tt)).
  { subst k0. cbv beta. unfold exit. emits_auto. }
  destruct (Hk (t ++ [WinptyConfigNew flags])) as [rest [Hrest _]].
  exists flags, rest. split.
  { change (bind (emit (WinptyConfigNew flags)) k0 t)
      with (k0 tt (t ++ [WinptyConfigNew flags])).
    rewrite Hrest. now rewrite <- app_assoc. }
  assert (Hac : Z.land (WINPTY_FLAG_ALLOW_CURPROC_DESKTOP_CREATION P)
                       (WINPTY_FLAG_CONERR P) = 0) by now rewrite Z.land_comm.
  assert (Hap : Z.land (WINPTY_FLAG_ALLOW_CURPROC_DESKTOP_CREATION P)
                       (WINPTY_FLAG_PLAIN_OUTPUT P) = 0) by now rewrite Z.land_comm.
  assert (Hao : Z.land (WINPTY_FLAG_ALLOW_CURPROC_DESKTOP_CREATION P)
                       (WINPTY_FLAG_COLOR_ESCAPES P) = 0) by now rewrite Z.land_comm.
  assert (Hpc : Z.land (WINPTY_FLAG_PLAIN_OUTPUT P) (WINPTY_FLAG_CONERR P) = 0)
    by now rewrite Z.land_comm.
  assert (Hoc : Z.land (WINPTY_FLAG_COLOR_ESCAPES P) (WINPTY_FLAG_CONERR P) = 0)
    by now rewrite Z.land_comm.
  assert (Hop : Z.land (WINPTY_FLAG_COLOR_ESCAPES P) (WINPTY_FLAG_PLAIN_OUTPUT P) = 0)
    by now rewrite Z.land_comm.
  subst flags.
  destruct (testConerr args), (testPlainOutput args), (testColorEscapes args);
    repeat split;
    repeat first [ rewrite land_lor_same
                 | rewrite land_lor_other by assumption
                 | rewrite Z.land_diag ];
    try reflexivity; assumption.
Qed.

End Setup.

Lemma setupWin32Environment_clears_TERM_last_witness :
  varsToCopy debug_env = [(str "WINPTY_DEBUG", str "trace")] /\
  all_convert Sample.platform debug_env (varsToCopy debug_env) = true /\
  setupWin32Environment Sample.platform debug_env []
  = Ok tt [CygwinInternalSyncWinenv;
           SetEnvironmentVariableW (L (str "WINPTY_DEBUG")) (Some (L (str "trace")));
           SetEnvironmentVariableW (L (str "TERM")) None].
Proof.
  assert (Hall : all_convert Sample.platform debug_env (varsToCopy debug_env) = true)
    by reflexivity.
  split; [reflexivity|]. split; [exact Hall|].
  exact (proj1 (proj2 (proj2 (setupWin32Environment_clears_TERM_last
                                Sample.platform debug_env []))) Hall).
Defined.

Lemma agent_flags_follow_the_options_witness :
  disjoint_flags Sample.platform /\
  exists flags rest,
    result_trace (main_open Sample.platform no_arguments_env conerr_plain [])
    = [] ++ WinptyConfigNew flags :: rest /\
    Z.land flags 8 = 8 /\ Z.land flags 1 = 1 /\ Z.land flags 2 = 2 /\
    Z.land flags 4 = 0.
Proof.
  assert (Hd : disjoint_flags Sample.platform) by (repeat split).
  split; [exact Hd|].
  exact (agent_flags_follow_the_options Sample.platform no_arguments_env
           conerr_plain [] Hd).
Defined.


(** ** From the spawn to the [exec] of the child *)

Lemma runs_chars (a : cstr) : forall n ps t,
  Wording.runs a n = (ps, t) -> forall k c, In (k, c) ps -> In c a.
Proof.
  induction a as [|c0 a IH]; intros n ps t H k c Hin; cbn [Wording.runs] in H.
  - inversion H; subst. destruct Hin.
  - destruct (Ascii.eqb c0 BACKSLASH).
    + right. exact (IH _ _ _ H k c Hin).
    + destruct (Wording.runs a 0) as [ps' t'] eqn:Hr. inversion H; subst.
      destruct Hin as [Heq|Hin]; [inversion Heq; now left|].
      right. exact (IH _ _ _ Hr k c Hin).
Qed.

Lemma repeat_not_NUL (c : ascii) (n : nat) : c <> NUL -> ~ In NUL (repeat c n).
Proof. intros Hc Hin. apply repeat_spec in Hin. congruence. Qed.

Lemma encode_arg_no_NUL (a : cstr) : ~ In NUL a -> ~ In NUL (Wording.encode_arg a).
Proof.
  intros Ha. unfold Wording.encode_arg.
  destruct (Wording.runs a 0) as [ps t] eqn:Hr.
  assert (Hps : ~ In NUL (concat (map Wording.encode_run ps))).
  { intros Hin. apply in_concat in Hin. destruct Hin as [chunk [Hchunk Hin]].
    apply in_map_iff in Hchunk. destruct Hchunk as [[k c] [<- Hkc]].
    pose proof (runs_chars a _ _ _ Hr k c Hkc) as Hc.
    unfold Wording.encode_run in Hin.
    destruct (Ascii.eqb c DQUOTE); apply in_app_or in Hin;
      destruct Hin as [Hin|Hin];
      try (apply repeat_not_NUL in Hin; [exact Hin|discriminate]).
    - cbn [In] in Hin. destruct Hin as [Hin|[Hin|[]]]; discriminate Hin.
    - cbn [In] in Hin. destruct Hin as [Hin|[]]. subst c. exact (Ha Hc). }
  destruct (Wording.needs_quote a); intros Hin;
    repeat (apply in_app_or in Hin; destruct Hin as [Hin|Hin]);
    try (apply repeat_not_NUL in Hin; [exact Hin|discriminate]);
    try (exact (Hps Hin));
    cbn [In] in Hin; destruct Hin as [Hin|[]]; discriminate Hin.
Qed.

Lemma encode_no_NUL (argv : list cstr) :
  Forall (fun a => ~ In NUL a) argv -> ~ In NUL (Wording.encode argv).
Proof.
  unfold Wording.encode.
  induction 1 as [|a argv Ha Hall IH]; [intros []|].
  cbn [map Wording.join]. destruct (map Wording.encode_arg argv) as [|b rest] eqn:Hm.
  - now apply encode_arg_no_NUL.
  - intros Hin. apply in_app_or in Hin. destruct Hin as [Hin|Hin].
    + now apply encode_arg_no_NUL in Hin.
    + apply in_app_or in Hin. destruct Hin as [Hin|Hin].
      * cbn [In] in Hin. destruct Hin as [Hin|[]]. discriminate Hin.
      * exact (IH Hin).
Qed.

Lemma w_str_L (s : cstr) : ~ In NUL s -> w_str (L s) = L s.
Proof.
  induction s as [|c s IH]; intros Hs; [reflexivity|].
  cbn [L map w_str].
  destruct (Z.eqb_spec (Z.of_nat (nat_of_ascii c)) 0) as [Hz|Hz].
  - exfalso. apply Hs. left.
    assert (Hn : nat_of_ascii c = 0%nat) by lia.
    rewrite <- (ascii_nat_embedding c), Hn. reflexivity.
  - f_equal. apply IH. intros Hin. apply Hs. now right.
Qed.

Lemma L_app (a b : cstr) : L (a ++ b) = L a ++ L b.
Proof. unfold L. apply map_app. Qed.

Lemma map_c_str_id (l : list cstr) : Forall arg_ok l -> map c_str l = l.
Proof.
  induction 1 as [|a l [Ha _] _ IH]; [reflexivity|].
  cbn [map]. now rewrite (c_str_id a Ha), IH.
Qed.

Section SpawnToExec.

Context (P : Platform) (E : Env).

(** What is given on the command line of [winpty] is what the child
    executes.  In a locale that keeps the characters of the command line, with
    room for its conversion, and with a path of the executable that the system
    could report: [main] hands [winpty_spawn_config_new] a command line which
    the rules of the platform split into the path of [winpty] itself, the
    marker [--child-exec] and the arguments of the child as they were given;
    and a [winpty] started with these arguments calls [execvp] with the
    program of the child and its arguments. *)
Theorem child_command_line_reaches_exec
        (args : Arguments) (file : cstr) (more : list cstr)
        (path exe : cstr) (n : Z) (t : Trace) :
  childArgv args = file :: more ->
  Forall arg_ok (childArgv args) ->
  GetModuleHandleExW E = true ->
  GetModuleFileNameW E = (n, L path) ->
  0 < n < 1024 ->
  ~ In NUL path -> ~ In DQUOTE path ->
  let cmd := Wording.encode (childArgv args) in
  2 * Z.of_nat (length cmd) + 1 <= SIZE_MAX P ->
  mbstowcs E cmd (2 * Z.of_nat (length cmd) + 1) = Some (L cmd) ->
  exists line rest,
    result_trace (main_spawn P E args t)
    = t ++ FreeLibrary
        :: WinptySpawnConfigNew (WINPTY_SPAWN_FLAG_AUTO_SHUTDOWN P) (L line) :: rest /\
    Win32.CommandLineToArgv exe line = path :: str "--child-exec" :: file :: more /\
    forall P' E', argv E' = Win32.CommandLineToArgv exe line ->
      exists last,
        result_trace (main P' E' []) = Setlocale :: Execvp file (file :: more) :: last.
Proof.
  intros Hargv Hok Hmod Hpath Hn Hnul Hquote cmd Hroom Hlocale.
  assert (Hcmdnul : ~ In NUL cmd).
  { apply encode_no_NUL. eapply Forall_impl; [|exact Hok]. now intros a [Ha _]. }
  exists ([DQUOTE] ++ path ++ [DQUOTE] ++ str " --child-exec " ++ cmd).
  assert (Hline : Win32.CommandLineToArgv exe
                    ([DQUOTE] ++ path ++ [DQUOTE] ++ str " --child-exec " ++ cmd)
                  = path :: str "--child-exec" :: file :: more).
  { subst cmd. rewrite (child_command_line_round_trip path _ exe Hquote).
    now rewrite Hargv. }
  assert (Hheap : heapMbsToWcs P E cmd
                  = ret {| capacity := 2 * Z.of_nat (length cmd) + 1;
                           contents := L cmd |}).
  { unfold heapMbsToWcs, strlen, size_t. rewrite (c_str_id cmd Hcmdnul).
    replace (Z.of_nat (length cmd) * 2 + 1) with (2 * Z.of_nat (length cmd) + 1)
      by lia.
    rewrite Z.mod_small by lia. rewrite Hlocale.
    unfold L at 1 2. rewrite length_map.
    replace (negb (Z.of_nat (length cmd) =? SIZE_MAX P)
             && (Z.of_nat (length cmd) <? 2 * Z.of_nat (length cmd) + 1)) with true.
    - reflexivity.
    - symmetry. apply andb_true_intro. split.
      + apply negb_true_iff. apply Z.eqb_neq. lia.
      + apply Z.ltb_lt. lia. }
  assert (Hcodec : Codec.argvToCommandLine (childArgv args) = Some cmd).
  { unfold Codec.argvToCommandLine.
    rewrite (argv_loop_encode (childArgv args) 0%nat [] Hok).
    unfold cmd. rewrite Hargv. reflexivity. }
  assert (HW : L [DQUOTE] ++ w_str (L path) ++ L ([DQUOTE] ++ str " --child-exec ")
                 ++ w_str (L cmd)
               = L ([DQUOTE] ++ path ++ [DQUOTE] ++ str " --child-exec " ++ cmd)).
  { rewrite !w_str_L by assumption. rewrite !L_app. rewrite <- !app_assoc.
    reflexivity. }
  assert (Htrace : exists rest,
             result_trace (main_spawn P E args t)
             = t ++ FreeLibrary
                 :: WinptySpawnConfigNew (WINPTY_SPAWN_FLAG_AUTO_SHUTDOWN P)
                      (L ([DQUOTE] ++ path ++ [DQUOTE] ++ str " --child-exec " ++ cmd))
                 :: rest).
  { unfold main_spawn. rewrite Hmod, Hpath, Hcodec.
    replace ((0 <? n) && (n <? 1024)) with true
      by (symmetry; apply andb_true_intro; split; apply Z.ltb_lt; lia).
    rewrite Hheap. unfold assert, abort, exit. unfold bind, ret, emit, halt.
    cbn [contents].
    rewrite HW.
    destruct (winpty_spawn_config_new E); cbv beta iota;
      [|eexists; cbn [result_trace]; rewrite <- !app_assoc; reflexivity].
    destruct (winpty_spawn E) as [|spawnCode lastError msg]; cbv beta iota.
    - eexists. cbn [result_trace]. rewrite <- !app_assoc. reflexivity.
    - destruct (spawnCode =? _); cbv beta iota; eexists; cbn [result_trace];
        rewrite <- !app_assoc; reflexivity. }
  destruct Htrace as [rest Htrace].
  exists rest. split; [exact Htrace|]. split; [exact Hline|].
  intros P' E' Hargv'. rewrite Hline in Hargv'.
  assert (Hmap : map c_str (file :: more) = file :: more).
  { rewrite <- Hargv. exact (map_c_str_id _ Hok). }
  assert (Hfile : c_str file = file) by (cbn [map] in Hmap; congruence).
  unfold main, child_exec. rewrite Hargv'. cbn [nth skipn length].
  rewrite (c_str_id (str "--child-exec")) by (vm_compute; intuition discriminate).
  replace (3 <=? Z.of_nat (S (S (S (length more))))) with true
    by (symmetry; apply Z.leb_le; lia).
  change (cstr_eqb (str "--child-exec") (str "--child-exec")) with true.
  cbn [andb]. rewrite Hfile, Hmap.
  unfold bind, emit, halt, exit. cbn [app].
  destruct (execvp E' file (file :: more)); eexists; reflexivity.
Qed.

End SpawnToExec.


Lemma child_command_line_reaches_exec_witness :
  exists line rest,
    result_trace (main_spawn Sample.platform no_arguments_env quoting_args [])
    = [] ++ FreeLibrary
        :: WinptySpawnConfigNew (WINPTY_SPAWN_FLAG_AUTO_SHUTDOWN Sample.platform)
             (L line) :: rest /\
    Win32.CommandLineToArgv (str "winpty.exe") line
    = str "winpty.exe" :: str "--child-exec" :: str "cmd" :: [str "/c"; str "echo a b"] /\
    forall P' E', argv E' = Win32.CommandLineToArgv (str "winpty.exe") line ->
      exists last,
        result_trace (main P' E' [])
        = Setlocale
            :: Execvp (str "cmd") (str "cmd" :: [str "/c"; str "echo a b"]) :: last.
Proof.
  apply (child_command_line_reaches_exec Sample.platform no_arguments_env
           quoting_args (str "cmd") [str "/c"; str "echo a b"]
           (str "winpty.exe") (str "winpty.exe") 10 []).
  - reflexivity.
  - repeat constructor; vm_compute; intuition discriminate.
  - reflexivity.
  - reflexivity.
  - lia.
  - vm_compute. intuition discriminate.
  - vm_compute. intuition discriminate.
  - vm_compute. discriminate.
  - vm_compute. reflexivity.
Defined.


(** ** Switches *)

(** The switches before the program may come in any order and any number
    of times: two command lines whose switches are the same set, followed by
    the same arguments, are parsed to the same result. *)
Theorem switches_in_any_order (P : Platform) (E : Env) (prog : cstr)
        (opts opts' tail : list cstr) (t : Trace) :
  Forall (fun o => is_switch o = true) opts ->
  Forall (fun o => is_switch o = true) opts' ->
  (forall s, In s switches -> given s opts = given s opts') ->
  parseArguments P E (prog :: opts ++ tail) t
  = parseArguments P E (prog :: opts' ++ tail) t.
Proof.
  intros Hopts Hopts' Hsame. unfold parseArguments. cbn [skipn].
  rewrite (parse_options_switches _ opts _ _ _ Hopts).
  rewrite (parse_options_switches _ opts' _ _ _ Hopts').
  assert (Hin : forall s, In s switches -> given s opts' = given s opts)
    by (intros s Hs; symmetry; now apply Hsame).
  unfold switched.
  rewrite !(Hin (str "--mouse")), !(Hin (str "--showkey")),
          !(Hin (str "-Xallow-non-tty")), !(Hin (str "-Xconerr")),
          !(Hin (str "-Xplain")), !(Hin (str "-Xcolor"))
    by (unfold switches; cbn [In]; tauto).
  reflexivity.
Qed.

Lemma switches_in_any_order_witness :
  parseArguments Sample.platform no_arguments_env
    (str "winpty" :: [str "-Xconerr"; str "--mouse"; str "-Xconerr"] ++ [str "cmd"]) []
  = parseArguments Sample.platform no_arguments_env
      (str "winpty" :: [str "--mouse"; str "-Xconerr"] ++ [str "cmd"]) [].
Proof.
  apply (switches_in_any_order Sample.platform no_arguments_env (str "winpty")
           [str "-Xconerr"; str "--mouse"; str "-Xconerr"]
           [str "--mouse"; str "-Xconerr"] [str "cmd"] []).
  - repeat constructor.
  - repeat constructor.
  - intros s Hs. unfold switches in Hs. cbn [In] in Hs.
    destruct Hs as [<-|[<-|[<-|[<-|[<-|[<-|[]]]]]]]; reflexivity.
Defined.

(** ** The geometry the back end knows *)

Lemma told_app (t calls : Trace) :
  Forall (fun e => tells_size e = false) calls -> told (t ++ calls) = told t.
Proof.
  unfold told. rewrite fold_left_app. generalize (fold_left
    (fun known e => match e with
                    | WinptyConfigSetInitialSize cols rows => Some (cols, rows)
                    | WinptySetSize cols rows => Some (cols, rows)
                    | _ => known
                    end) t None).
  intros known Hall. revert known.
  induction Hall as [|e calls He _ IH]; intros known; [reflexivity|].
  cbn [fold_left]. destruct e; try discriminate He; apply IH.
Qed.

Lemma told_last (t : Trace) (e : Event) (cols rows : Z) :
  e = WinptyConfigSetInitialSize cols rows \/ e = WinptySetSize cols rows ->
  told (t ++ [e]) = Some (cols, rows).
Proof. unfold told. rewrite fold_left_app. intros [-> | ->]; reflexivity. Qed.

Lemma main_loop_told (ws : list Wakeup) (eh : bool) :
  forall sz t sz' t',
    told t = Some (geometry sz) ->
    main_loop ws eh sz t = Ok sz' t' ->
    told t' = Some (geometry sz').
Proof.
  induction ws as [|w ws IH]; intros sz t sz' t' Htold Hrun.
  - cbn [main_loop] in Hrun. unfold bind, emit, halt in Hrun. discriminate Hrun.
  - rewrite main_loop_step in Hrun. cbn zeta in Hrun.
    set (sz1 := if winsize_eqb sz (probe w) then sz else probe w) in Hrun.
    set (t1 := (t ++ [Select; WakeupReset]) ++ _) in Hrun.
    assert (H1 : told t1 = Some (geometry sz1)).
    { subst t1 sz1. destruct (winsize_eqb sz (probe w)).
      - rewrite app_nil_r, told_app by (repeat constructor). exact Htold.
      - apply told_last. now right. }
    destruct (any_complete w eh).
    + inversion Hrun; subst. exact H1.
    + exact (IH _ _ _ _ H1 Hrun).
Qed.

Lemma main_loop_last_probe (before : list Wakeup) (last : Wakeup)
      (after : list Wakeup) (eh : bool) :
  Forall (fun w => any_complete w eh = false) before ->
  any_complete last eh = true ->
  forall sz t sz' t',
    main_loop (before ++ last :: after) eh sz t = Ok sz' t' -> sz' = probe last.
Proof.
  intros Hbefore Hlast. induction Hbefore as [|w before Hw _ IH];
    intros sz t sz' t' Hrun; cbn [app] in Hrun; rewrite main_loop_step in Hrun;
    cbn zeta in Hrun.
  - rewrite Hlast in Hrun. inversion Hrun as [[Hsz Ht]].
    destruct (winsize_eqb sz (probe last)) eqn:Heq; [|reflexivity].
    now apply winsize_eqb_eq in Heq.
  - rewrite Hw in Hrun. exact (IH _ _ _ _ Hrun).
Qed.

Section Geometry.

Context (P : Platform) (E : Env).

Lemma main_open_told (args : Arguments) (t t' : Trace) (sz : winsize) :
  main_open P E args t = Ok sz t' -> told t' = Some (geometry sz).
Proof.
  unfold main_open. intros H.
  apply bind_Ok in H. destruct H as [[] [t1 [_ H]]].
  apply bind_Ok in H. destruct H as [[] [t2 [_ H]]].
  apply bind_Ok in H. destruct H as [[] [t3 [H3 H]]].
  unfold emit in H3. inversion H3; subst t3; clear H3.
  match type of H with
  | bind _ ?k _ = _ =>
      assert (Hk : forall u, emits (fun e => tells_size e = false) (k u))
  end.
  { intros u. unfold exit. emits_auto. }
  apply bind_Ok in H. destruct H as [[] [t4 [H4 H]]].
  assert (H4' : exists calls, t4 = (t2 ++ [WinptyConfigSetInitialSize
                 (ws_col match ioctl_TIOCGWINSZ E with
                         | Some probed => probed
                         | None => {| ws_row := 25; ws_col := 80;
                                      ws_xpixel := 0; ws_ypixel := 0 |}
                         end)
                 (ws_row match ioctl_TIOCGWINSZ E with
                         | Some probed => probed
                         | None => {| ws_row := 25; ws_col := 80;
                                      ws_xpixel := 0; ws_ypixel := 0 |}
                         end)]) ++ calls
               /\ Forall (fun e => tells_size e = false) calls).
  { destruct (mouseInput args).
    - unfold emit in H4. inversion H4; subst. eexists. split; [reflexivity|].
      repeat constructor.
    - unfold ret in H4. inversion H4; subst. exists []. split; [now rewrite app_nil_r|].
      constructor. }
  destruct H4' as [calls4 [-> F4]].
  assert (Hrest : exists calls, t' = ((t2 ++ [WinptyConfigSetInitialSize
                 (ws_col match ioctl_TIOCGWINSZ E with
                         | Some probed => probed
                         | None => {| ws_row := 25; ws_col := 80;
                                      ws_xpixel := 0; ws_ypixel := 0 |}
                         end)
                 (ws_row match ioctl_TIOCGWINSZ E with
                         | Some probed => probed
                         | None => {| ws_row := 25; ws_col := 80;
                                      ws_xpixel := 0; ws_ypixel := 0 |}
                         end)]) ++ calls4) ++ calls
               /\ Forall (fun e => tells_size e = false) calls
               /\ sz = match ioctl_TIOCGWINSZ E with
                       | Some probed => probed
                       | None => {| ws_row := 25; ws_col := 80;
                                    ws_xpixel := 0; ws_ypixel := 0 |}
                       end).
  { clear Hk. unfold bind, emit, assert, abort, exit, halt, ret in H.
    destruct (winpty_open E); [|discriminate H].
    destruct (CreateFileW_ok E Conin); [|discriminate H].
    destruct (CreateFileW_ok E Conout); [|discriminate H].
    destruct (testConerr args).
    - destruct (CreateFileW_ok E Conerr); [|discriminate H].
      inversion H; subst. eexists. split; [rewrite <- !app_assoc; reflexivity|].
      split; [repeat constructor|reflexivity].
    - inversion H; subst. eexists. split; [rewrite <- !app_assoc; reflexivity|].
      split; [repeat constructor|reflexivity]. }
  destruct Hrest as [calls [-> [F ->]]].
  rewrite !told_app by assumption.
  apply told_last. now left.
Qed.

Lemma main_Ok_loop (v : Z) (t : Trace) :
  main P E [] = Ok v t ->
  exists args sz sz' start stop after,
    told start = Some (geometry sz) /\
    main_loop (wakeups E) (testConerr args) sz start = Ok sz' stop /\
    t = stop ++ after /\
    Forall (fun e => tells_size e = false) after.
Proof.
  unfold main. intros H.
  apply bind_Ok in H. destruct H as [[] [t0 [H0 H]]].
  unfold emit in H0. inversion H0; subst t0; clear H0. cbn [app] in H.
  destruct (_ && _) in H; [now apply child_exec_stops in H|].
  unfold main_session in H.
  apply bind_Ok in H. destruct H as [[] [t1 [H1 H]]].
  apply bind_Ok in H. destruct H as [args [t2 [H2 H]]].
  apply bind_Ok in H. destruct H as [[] [t3 [H3 H]]].
  apply bind_Ok in H. destruct H as [sz [t4 [H4 H]]].
  apply bind_Ok in H. destruct H as [[] [t5 [H5 H]]].
  apply bind_Ok in H. destruct H as [mode [t6 [H6 H]]].
  apply bind_Ok in H. destruct H as [sz' [t7 [H7 H]]].
  apply main_open_told in H4.
  apply (emits_Ok _ _ _ _ _ (main_spawn_spawn P E args)) in H5.
  destruct H5 as [e5 [-> F5]].
  apply main_start_Ok in H6. destruct H6 as [raw_calls [_ [Fraw ->]]].
  apply main_shutdown_Ok in H. destruct H as [restored [_ [Frestored [-> _]]]].
  exists args, sz, sz',
    (((t4 ++ e5) ++ [Sigaction]) ++ raw_calls ++ worker_calls (testConerr args)), t7.
  eexists.
  split; [|split; [exact H7|split; [rewrite <- app_assoc; reflexivity|]]].
  - rewrite told_app.
    + rewrite told_app by (repeat constructor).
      rewrite told_app; [exact H4|].
      eapply Forall_impl; [|exact F5]. intros e. destruct e; simpl; congruence.
    + apply Forall_app; split.
      * eapply Forall_impl; [|exact Fraw]. intros e. destruct e; simpl; congruence.
      * unfold worker_calls. destruct (testConerr args); repeat constructor.
  - apply Forall_app; split; [|apply Forall_app; split].
    + unfold shutdown_calls. destruct (testConerr args); repeat constructor.
    + eapply Forall_impl; [|exact Frestored]. now intros e [fd [m ->]].
    + repeat constructor.
Qed.

(** The back end knows the size of the terminal.  When [main] returns,
    the geometry the back end was last told, at its configuration or by a
    resize, is the geometry of the terminal as the loop probed it in its last
    iteration, the one in which the input or the output worker was
    complete. *)
Theorem back_end_knows_the_last_probe
        (before : list Wakeup) (last : Wakeup) (after : list Wakeup)
        (v : Z) (t : Trace) :
  wakeups E = before ++ last :: after ->
  Forall (fun w => any_complete w true = false) before ->
  inputComplete last || outputComplete last = true ->
  main P E [] = Ok v t ->
  told t = Some (geometry (probe last)).
Proof.
  intros Hws Hbefore Hlast Hmain.
  destruct (main_Ok_loop v t Hmain)
    as [args [sz [sz' [start [stop [rest [Hstart [Hloop [-> Hrest]]]]]]]]].
  rewrite told_app by exact Hrest.
  rewrite (main_loop_told _ _ _ _ _ _ Hstart Hloop). f_equal. f_equal.
  rewrite Hws in Hloop.
  apply (main_loop_last_probe before last after (testConerr args)) with (sz := sz)
    (t := start) (t' := stop); [| |exact Hloop].
  - eapply Forall_impl; [|exact Hbefore]. intros w Hw. unfold any_complete in *.
    destruct (inputComplete w), (outputComplete w), (errorComplete w),
             (testConerr args); cbn in *; congruence.
  - unfold any_complete. apply orb_true_iff. now left.
Qed.

End Geometry.

Lemma back_end_knows_the_last_probe_witness :
  let E := Sample.env [str "winpty"; str "cmd"] (fun _ => true)
                      [grown; grown_exited; Sample.exited] (Some 0) in
  exists t,
    main Sample.platform E [] = Ok 0 t /\
    In (WinptyConfigSetInitialSize 80 25) t /\
    told t = Some (120, 40).
Proof.
  intros E. eexists.
  assert (Hmain : main Sample.platform E [] = Ok 0 _) by (vm_compute; reflexivity).
  split; [exact Hmain|]. split; [vm_compute; tauto|].
  apply (back_end_knows_the_last_probe Sample.platform E [grown] grown_exited
           [Sample.exited] 0 _).
  - reflexivity.
  - repeat constructor.
  - reflexivity.
  - exact Hmain.
Defined.
